(** * rlm-ts: a shallow embedding of the iteration driver, the parsing
      module, the LM router and the local sandbox's result decoding.

    Strings.  A JavaScript string is a sequence of UTF-16 code units; the
    embedding uses [string], one [ascii] per code unit, so it covers the
    strings whose code units lie in 0..255.  Lengths, slices, [trim],
    [toLowerCase] and the regular expressions of the source are written for
    that range.

    Numbers.  Counters, depths and token counts are [nat]; wall-clock
    durations ([performance.now]) and timestamps are left out of every
    record. *)

From Stdlib Require Import String Ascii ZArith List Lia Bool DecimalString.
From stdpp Require Import base gmap strings list.

Local Open Scope nat_scope.

(* ===================================================================== *)
(** ** JavaScript string primitives *)
(* ===================================================================== *)

Module JS.

Definition code (c : ascii) : N := N_of_ascii c.

(** [\s] of a regular expression, and what [trim] strips: WhiteSpace and
    LineTerminator code units (TAB, LF, VT, FF, CR, SP, NBSP below 256). *)
Definition isWhiteSpace (c : ascii) : bool :=
  let n := code c in
  ((9 <=? n) && (n <=? 13) || (n =? 32) || (n =? 160))%N.

(** Line terminators: what [.] refuses without the [s] flag and where [^]
    and [$] anchor under the [m] flag (LF and CR below 256). *)
Definition isLineTerminator (c : ascii) : bool :=
  let n := code c in ((n =? 10) || (n =? 13))%N.

Definition LF : ascii := ascii_of_N 10.
Definition DQ : ascii := ascii_of_N 34.
Definition nl : string := String LF "".
Definition dq : string := String DQ "".

Fixpoint trimStart (s : string) : string :=
  match s with
  | String c s' => if isWhiteSpace c then trimStart s' else s
  | EmptyString => EmptyString
  end.

Fixpoint trimEnd (s : string) : string :=
  match s with
  | String c s' =>
      match trimEnd s' with
      | EmptyString => if isWhiteSpace c then EmptyString else String c EmptyString
      | t => String c t
      end
  | EmptyString => EmptyString
  end.

Definition trim (s : string) : string := trimEnd (trimStart s).

(** [s.startsWith(p)] *)
Fixpoint startsWith (s p : string) {struct p} : bool :=
  match p with
  | EmptyString => true
  | String a p' =>
      match s with
      | String b s' => if Ascii.eqb a b then startsWith s' p' else false
      | EmptyString => false
      end
  end.

(** [s.includes(p)] *)
Fixpoint includes (s p : string) : bool :=
  startsWith s p ||
  match s with
  | String _ s' => includes s' p
  | EmptyString => false
  end.

Definition charToLowerCase (c : ascii) : ascii :=
  let n := code c in
  if ((65 <=? n) && (n <=? 90))%N then ascii_of_N (n + 32)
  else if ((192 <=? n) && (n <=? 222) && negb (n =? 215))%N
       then ascii_of_N (n + 32)
       else c.

Fixpoint toLowerCase (s : string) : string :=
  match s with
  | String c s' => String (charToLowerCase c) (toLowerCase s')
  | EmptyString => EmptyString
  end.

(** [s.slice(0, n)] for [0 <= n] *)
Fixpoint slice0 (n : nat) (s : string) : string :=
  match n, s with
  | S n', String c s' => String c (slice0 n' s')
  | _, _ => EmptyString
  end.

(** [String(n)] of a non-negative integer *)
Definition numberToString (n : nat) : string :=
  NilZero.string_of_uint (Nat.to_uint n).

(** [s.split("\n")]: never empty *)
Fixpoint splitLines (s : string) : list string :=
  match s with
  | EmptyString => [EmptyString]
  | String c s' =>
      if Ascii.eqb c LF then EmptyString :: splitLines s'
      else match splitLines s' with
           | l :: ls => String c l :: ls
           | [] => [String c EmptyString]
           end
  end.

(** [xs.join(sep)] *)
Fixpoint join (sep : string) (xs : list string) : string :=
  match xs with
  | [] => EmptyString
  | [x] => x
  | x :: rest => x +:+ sep +:+ join sep rest
  end.

(** JavaScript truthiness of a string *)
Definition truthy (s : string) : bool :=
  match s with EmptyString => false | _ => true end.

(** [a || b] on strings *)
Definition orElse (a b : string) : string := if truthy a then a else b.

End JS.

(* ===================================================================== *)
(** ** Regular expressions, as far as the source uses them *)
(* ===================================================================== *)

(** A backtracking matcher for the fragment the three patterns of
    [parsing.ts] are written in: literals, a star over a one-character
    class (greedy [c*] or lazy [c*?], possibly the body of capture group 1),
    and the anchors [^] and [$] under the [m] flag.  Alternatives are tried
    in the order ECMAScript tries them, so the first overall success is the
    match the engine reports. *)
Module Regex.

Inductive node : Type :=
| Lit (s : string)
| Rep (captured greedy : bool) (cls : ascii -> bool)
| Bol
| Eol.

Definition pattern := list node.

(** capture group 1, the code unit before the end of the match, and the
    text after the match *)
Definition found : Type := string * option ascii * string.

Definition atLineStart (prev : option ascii) : bool :=
  match prev with
  | None => true
  | Some c => JS.isLineTerminator c
  end.

Definition atLineEnd (s : string) : bool :=
  match s with
  | EmptyString => true
  | String c _ => JS.isLineTerminator c
  end.

Fixpoint eatLit (l : string) (prev : option ascii) (s : string)
  : option (option ascii * string) :=
  match l with
  | EmptyString => Some (prev, s)
  | String a l' =>
      match s with
      | String b s' => if Ascii.eqb a b then eatLit l' (Some b) s' else None
      | EmptyString => None
      end
  end.

Definition snoc (s : string) (c : ascii) : string := s +:+ String c EmptyString.

(** The star of a one-character class, with what follows it as [k]: a
    greedy star first tries to take one more character and falls back to
    [k]; a lazy star first tries [k] and only then takes a character. *)
Fixpoint repLoop (captured greedy : bool) (cls : ascii -> bool)
         (k : option ascii -> string -> string -> option found)
         (prev : option ascii) (s : string) (cap : string) {struct s}
  : option found :=
  match s with
  | String c s' =>
      if cls c then
        let cap' := if captured then snoc cap c else cap in
        if greedy then
          match repLoop captured greedy cls k (Some c) s' cap' with
          | Some r => Some r
          | None => k prev s cap
          end
        else
          match k prev s cap with
          | Some r => Some r
          | None => repLoop captured greedy cls k (Some c) s' cap'
          end
      else k prev s cap
  | EmptyString => k prev s cap
  end.

Fixpoint matchHere (p : pattern) (prev : option ascii) (s : string)
         (cap : string) {struct p} : option found :=
  match p with
  | [] => Some (cap, prev, s)
  | Lit l :: p' =>
      match eatLit l prev s with
      | Some (prev', s') => matchHere p' prev' s' cap
      | None => None
      end
  | Bol :: p' => if atLineStart prev then matchHere p' prev s cap else None
  | Eol :: p' => if atLineEnd s then matchHere p' prev s cap else None
  | Rep captured greedy cls :: p' =>
      repLoop captured greedy cls (matchHere p') prev s cap
  end.

(** [pattern.exec(text)] from a given position: the leftmost match *)
Fixpoint exec (p : pattern) (prev : option ascii) (s : string) : option found :=
  match matchHere p prev s EmptyString with
  | Some r => Some r
  | None =>
      match s with
      | String c s' => exec p (Some c) s'
      | EmptyString => None
      end
  end.

(** The [while ((match = pattern.exec(text)) !== null)] loop of a pattern
    with the [g] flag: each round resumes where the last match ended.
    [fuel] bounds the number of rounds. *)
Fixpoint execAll (fuel : nat) (p : pattern) (prev : option ascii) (s : string)
  : list string :=
  match fuel with
  | 0 => []
  | S fuel' =>
      match exec p prev s with
      | Some (cap, prev', rest) => cap :: execAll fuel' p prev' rest
      | None => []
      end
  end.

Definition any (_ : ascii) : bool := true.
Definition notLineTerminator (c : ascii) : bool := negb (JS.isLineTerminator c).

End Regex.

(* ===================================================================== *)
(** ** core/types.ts *)
(* ===================================================================== *)

(** JSON values.  A number is carried as its text; an object as its
    properties in [Object.entries] order. *)
#[warnings="-register-all"]
Inductive JSON : Type :=
| JNull
| JBool (b : bool)
| JNum (text : string)
| JStr (s : string)
| JArr (items : list JSON)
| JObj (fields : list (string * JSON)).

Inductive Role : Type := system | user | assistant.

Record Message : Type := mkMessage { role : Role; content : string }.

Inductive SandboxType : Type := local | docker.

Global Instance SandboxType_eq_dec : EqDecision SandboxType.
Proof. solve_decision. Defined.

Record ModelUsageSummary : Type := mkModelUsage {
  totalCalls : nat;
  totalInputTokens : nat;
  totalOutputTokens : nat
}.

Record UsageSummary : Type := mkUsage {
  modelUsageSummaries : gmap string ModelUsageSummary
}.

(** What a hook or a caller may pass as a prompt:
    [string | ChatMessage[] | Record<string, unknown>]. *)
Inductive Prompt : Type :=
| PromptText (s : string)
| PromptMessages (ms : list Message)
| PromptOther (v : JSON).

(** The context payload of a completion. *)
Inductive ContextPayload : Type :=
| CtxText (s : string)
| CtxList (items : list JSON)
| CtxDict (fields : list (string * JSON)).

(** [RLMChatCompletion], with the prompt type left open: a sub-LM call
    carries a [Prompt], a top-level completion its [ContextPayload]. *)
Record RLMChatCompletion (P : Type) : Type := mkCompletion {
  rootModel : string;
  promptOf : P;
  response : string;
  usageSummary : UsageSummary
}.
Arguments mkCompletion {P}.
Arguments rootModel {P}.
Arguments promptOf {P}.
Arguments response {P}.
Arguments usageSummary {P}.

(** [locals] is kept as [Object.entries(result.locals)]. *)
Record REPLResult : Type := mkREPLResult {
  stdout : string;
  stderr : string;
  locals : list (string * JSON);
  rlmCalls : list (RLMChatCompletion Prompt)
}.

Record CodeBlock : Type := mkCodeBlock { code : string; result : REPLResult }.

Record RLMIteration : Type := mkIteration {
  prompt : list Message;
  iterResponse : string;
  codeBlocks : list CodeBlock;
  finalAnswer : option string
}.

Record RLMMetadata : Type := mkMetadata {
  mdRootModel : string;
  mdMaxDepth : nat;
  mdMaxIterations : nat;
  mdSandboxType : SandboxType;
  mdSandboxKwargs : gmap string JSON;
  mdOtherModels : option (list string)
}.

Record QueryMetadata : Type := mkQueryMetadata {
  contextLengths : list nat;
  contextTotalLength : nat;
  contextType : string
}.

(* ===================================================================== *)
(** ** utils/parsing.ts, the pure part *)
(* ===================================================================== *)

Definition BT3 : string := "```".

(** [/```repl\s*\n([\s\S]*?)\n```/g] *)
Definition codeBlockPattern : Regex.pattern :=
  [ Regex.Lit "```repl";
    Regex.Rep false true JS.isWhiteSpace;
    Regex.Lit JS.nl;
    Regex.Rep true false Regex.any;
    Regex.Lit (JS.nl +:+ BT3) ].

Definition findCodeBlocks (text : string) : list string :=
  JS.trim <$> Regex.execAll (S (String.length text)) codeBlockPattern None text.

(** [/^\s*FINAL_VAR\((.*?)\)/m] *)
Definition finalVarPattern : Regex.pattern :=
  [ Regex.Bol;
    Regex.Rep false true JS.isWhiteSpace;
    Regex.Lit "FINAL_VAR(";
    Regex.Rep true false Regex.notLineTerminator;
    Regex.Lit ")" ].

(** The FINAL pattern, flags [m] and [s]: line start, [\s*], the literal
    [FINAL(], a greedy capture of any characters, the literal [)], [\s*],
    line end. *)
Definition finalPattern : Regex.pattern :=
  [ Regex.Bol;
    Regex.Rep false true JS.isWhiteSpace;
    Regex.Lit "FINAL(";
    Regex.Rep true true Regex.any;
    Regex.Lit ")";
    Regex.Rep false true JS.isWhiteSpace;
    Regex.Eol ].

Definition typeof (v : JSON) : string :=
  match v with
  | JNull => "object"
  | JBool _ => "boolean"
  | JNum _ => "number"
  | JStr _ => "string"
  | JArr _ => "object"
  | JObj _ => "object"
  end.

Definition Array_isArray (v : JSON) : bool :=
  match v with JArr _ => true | _ => false end.

Definition isNull (v : JSON) : bool :=
  match v with JNull => true | _ => false end.

(** The loop of [formatExecutionResult] over [Object.entries(result.locals)] *)
Fixpoint importantVars (entries : list (string * JSON)) : list string :=
  match entries with
  | [] => []
  | (key, value) :: rest =>
      if JS.startsWith key "_" then importantVars rest
      else if bool_decide (key ∈ ["__builtins__"; "__name__"; "__doc__"])
      then importantVars rest
      else
        let t := typeof value in
        if String.eqb t "string" || String.eqb t "number" || String.eqb t "boolean"
           || Array_isArray value || (String.eqb t "object" && negb (isNull value))
        then key :: importantVars rest
        else importantVars rest
  end.

Definition formatExecutionResult (r : REPLResult) : string :=
  let parts1 := if JS.truthy (stdout r) then [JS.nl +:+ stdout r] else [] in
  let parts2 := if JS.truthy (stderr r) then [JS.nl +:+ stderr r] else [] in
  let vars := importantVars (locals r) in
  let parts3 :=
    match vars with
    | [] => []
    | _ => ["REPL variables: [" +:+
            JS.join ", " ((λ v, "'" +:+ v +:+ "'") <$> vars) +:+ "]" +:+ JS.nl]
    end in
  let parts := parts1 ++ parts2 ++ parts3 in
  match parts with
  | [] => "No output"
  | _ => JS.join (JS.nl +:+ JS.nl) parts
  end.

(** The suffix that replaces the cut-off tail of a rendering *)
Definition elidedSuffix (elided : nat) : string :=
  "... + [" +:+ JS.numberToString elided +:+ " chars...]".

(** The body of the loop of [formatIteration]: the rendering, clamped *)
Definition clampResult (maxCharacterLength : nat) (rendered : string) : string :=
  if maxCharacterLength <? String.length rendered
  then JS.slice0 maxCharacterLength rendered +:+
       elidedSuffix (String.length rendered - maxCharacterLength)
  else rendered.

Definition codeMessageHead : string :=
  "Code executed:" +:+ JS.nl +:+ "```python" +:+ JS.nl.

Definition codeMessageMid : string :=
  JS.nl +:+ "```" +:+ JS.nl +:+ JS.nl +:+ "REPL output:" +:+ JS.nl.

Definition codeBlockMessage (maxCharacterLength : nat) (b : CodeBlock) : Message :=
  let rendered := clampResult maxCharacterLength (formatExecutionResult (result b)) in
  mkMessage user (codeMessageHead +:+ code b +:+ codeMessageMid +:+ rendered).

Definition formatIteration (iteration : RLMIteration) (maxCharacterLength : nat)
  : list Message :=
  mkMessage assistant (iterResponse iteration)
  :: (codeBlockMessage maxCharacterLength <$> codeBlocks iteration).

(** The default of [formatIteration]'s second parameter *)
Definition defaultMaxCharacterLength : nat := Z.to_nat 20000.

(** [replace(/^["']|["']$/g, "")] on the trimmed argument of FINAL_VAR: one
    leading quote and one trailing quote go, each on its own. *)
Definition isQuote (c : ascii) : bool :=
  Ascii.eqb c JS.DQ || Ascii.eqb c "'"%char.

Fixpoint dropTrailingQuote (s : string) : string :=
  match s with
  | EmptyString => EmptyString
  | String c EmptyString => if isQuote c then EmptyString else s
  | String c s' => String c (dropTrailingQuote s')
  end.

Definition stripQuotes (s : string) : string :=
  match s with
  | String c s' => if isQuote c then dropTrailingQuote s' else dropTrailingQuote s
  | EmptyString => EmptyString
  end.

(** [JSON.stringify] of a string *)
Definition hexDigit (n : N) : ascii :=
  if (n <? 10)%N then ascii_of_N (48 + n) else ascii_of_N (87 + n).

Definition escapeChar (c : ascii) : string :=
  let n := JS.code c in
  if (n =? 34)%N then "\" +:+ JS.dq
  else if (n =? 92)%N then "\\"
  else if (n =? 8)%N then "\b"
  else if (n =? 12)%N then "\f"
  else if (n =? 10)%N then "\n"
  else if (n =? 13)%N then "\r"
  else if (n =? 9)%N then "\t"
  else if (n <? 32)%N
       then "\u00" +:+ String (hexDigit (n / 16)) (String (hexDigit (n mod 16)) "")
       else String c "".

Fixpoint escapeString (s : string) : string :=
  match s with
  | EmptyString => EmptyString
  | String c s' => escapeChar c +:+ escapeString s'
  end.

Definition JSON_stringify_string (s : string) : string :=
  JS.dq +:+ escapeString s +:+ JS.dq.

(** The program [findFinalAnswer] hands to the sandbox *)
Definition finalVarProgram (variableName : string) : string :=
  "print(FINAL_VAR(" +:+ JSON_stringify_string variableName +:+ "))".

(* ===================================================================== *)
(** ** utils/helpers.ts *)
(* ===================================================================== *)

Section Helpers.
Context {V : Type}.

(** One round of the loop of [filterSensitiveKeys] *)
Definition filterStep (key : string) (value : V) (filtered : gmap string V)
  : gmap string V :=
  let lower := JS.toLowerCase key in
  if JS.includes lower "api" && JS.includes lower "key" then filtered
  else if JS.includes lower "secret" then filtered
  else if JS.includes lower "token" && JS.includes lower "auth" then filtered
  else <[key := value]> filtered.

(** The configuration bag is a finite map from property names to values;
    [filtered[key] = value] is an insertion. *)
Definition filterSensitiveKeys (kwargs : gmap string V) : gmap string V :=
  map_fold filterStep ∅ kwargs.
End Helpers.

(* ===================================================================== *)
(** ** Results and exceptions *)
(* ===================================================================== *)

Inductive Outcome (A : Type) : Type :=
| Ok (a : A)
| Throw (e : string).
Arguments Ok {A}.
Arguments Throw {A}.

(* ===================================================================== *)
(** ** JSON text and string conversion *)
(* ===================================================================== *)

(** [JSON.stringify(v)] without indentation *)
Fixpoint JSON_stringify (v : JSON) : string :=
  match v with
  | JNull => "null"
  | JBool b => if b then "true" else "false"
  | JNum t => t
  | JStr s => JSON_stringify_string s
  | JArr items => "[" +:+ JS.join "," (List.map JSON_stringify items) +:+ "]"
  | JObj fields =>
      "{" +:+
      JS.join ","
        (List.map (λ kv, match kv with
                         | (k, x) => JSON_stringify_string k +:+ ":" +:+ JSON_stringify x
                         end) fields)
      +:+ "}"
  end.

(** [String(v)] *)
Fixpoint JS_String (v : JSON) : string :=
  match v with
  | JNull => "null"
  | JBool b => if b then "true" else "false"
  | JNum t => t
  | JStr s => s
  | JArr items =>
      JS.join "," (List.map (λ x, match x with
                                  | JNull => EmptyString
                                  | _ => JS_String x
                                  end) items)
  | JObj _ => "[object Object]"
  end.

(** [o[key]] on the properties of an object; [None] is [undefined] *)
Fixpoint lookupField (key : string) (fields : list (string * JSON)) : option JSON :=
  match fields with
  | [] => None
  | (k, v) :: rest => if String.eqb k key then Some v else lookupField key rest
  end.

(** [item.content], which throws on [null] *)
Definition getContent (item : JSON) : Outcome (option JSON) :=
  match item with
  | JNull => Throw "TypeError: Cannot read properties of null (reading 'content')"
  | JObj fields => Ok (lookupField "content" fields)
  | _ => Ok None
  end.

(** [String(item.content ?? "").length] for each item *)
Fixpoint contentLengths (items : list JSON) : Outcome (list nat) :=
  match items with
  | [] => Ok []
  | item :: rest =>
      match getContent item with
      | Throw e => Throw e
      | Ok c =>
          let text := match c with
                      | None | Some JNull => EmptyString
                      | Some v => JS_String v
                      end in
          match contentLengths rest with
          | Throw e => Throw e
          | Ok ls => Ok (String.length text :: ls)
          end
      end
  end.

Definition valueLength (v : JSON) : nat :=
  match v with
  | JStr s => String.length s
  | _ => String.length (JSON_stringify v)
  end.

Definition sum (ls : list nat) : nat := foldl Nat.add 0 ls.

Definition hasContentProperty (v : JSON) : bool :=
  match v with
  | JObj fields => bool_decide (is_Some (lookupField "content" fields))
  | _ => false
  end.

Definition buildQueryMetadata (payload : ContextPayload) : Outcome QueryMetadata :=
  match payload with
  | CtxText s => Ok (mkQueryMetadata [String.length s] (String.length s) "string")
  | CtxList [] => Ok (mkQueryMetadata [0] 0 "list")
  | CtxList ((first :: _) as items) =>
      if String.eqb (typeof first) "object" && negb (isNull first)
         && hasContentProperty first
      then match contentLengths items with
           | Throw e => Throw e
           | Ok lengths => Ok (mkQueryMetadata lengths (sum lengths) "list")
           end
      else let lengths := valueLength <$> items in
           Ok (mkQueryMetadata lengths (sum lengths) "list")
  | CtxDict fields =>
      let lengths := (λ kv, valueLength (snd kv)) <$> fields in
      Ok (mkQueryMetadata lengths (sum lengths) "dict")
  end.

(* ===================================================================== *)
(** ** utils/prompts.ts *)
(* ===================================================================== *)

Definition numbersToJSON (ls : list nat) : string :=
  "[" +:+ JS.join "," (JS.numberToString <$> ls) +:+ "]".

Definition buildRlmSystemPrompt (systemPrompt : string) (q : QueryMetadata)
  : list Message :=
  let contextLengthsStr :=
    if 100 <? length (contextLengths q)
    then numbersToJSON (take 100 (contextLengths q)) +:+ "... [" +:+
         JS.numberToString (length (contextLengths q) - 100) +:+ " others]"
    else numbersToJSON (contextLengths q) in
  let metadataPrompt :=
    "Your context is a " +:+ contextType q +:+ " with " +:+
    JS.numberToString (contextTotalLength q) +:+
    " total characters, and is broken up into chunks of char lengths: " +:+
    contextLengthsStr +:+ "." in
  [ mkMessage system systemPrompt; mkMessage assistant metadataPrompt ].

Definition USER_PROMPT_TAIL : string :=
  "." +:+ JS.nl +:+ JS.nl +:+
  "Continue using the REPL environment, which has the `context` variable, and querying sub-LLMs by writing to ```repl``` tags, and determine your answer. Your next action:".

Definition USER_PROMPT : string :=
  "Think step-by-step on what to do using the REPL environment (which contains the context) to answer the prompt" +:+
  USER_PROMPT_TAIL.

Definition USER_PROMPT_WITH_ROOT : string :=
  "Think step-by-step on what to do using the REPL environment (which contains the context) to answer the original prompt: " +:+
  JS.dq +:+ "{rootPrompt}" +:+ JS.dq +:+ USER_PROMPT_TAIL.

(** The first occurrence of [pat] in [s]: what precedes and what follows it *)
Fixpoint splitAtFirst (pat s : string) : option (string * string) :=
  if JS.startsWith s pat
  then Some (EmptyString, String.substring (String.length pat)
                            (String.length s - String.length pat) s)
  else match s with
       | EmptyString => None
       | String c s' =>
           match splitAtFirst pat s' with
           | Some (before, after) => Some (String c before, after)
           | None => None
           end
       end.

(** The replacement text of [String.prototype.replace] for a string
    pattern: [$$], [$&], [$`] and [$'] are expanded. *)
Fixpoint getSubstitution (matched before after replacement : string) : string :=
  match replacement with
  | EmptyString => EmptyString
  | String c rest =>
      if Ascii.eqb c "$"%char then
        match rest with
        | String d rest' =>
            if Ascii.eqb d "$"%char
            then "$" +:+ getSubstitution matched before after rest'
            else if Ascii.eqb d "&"%char
            then matched +:+ getSubstitution matched before after rest'
            else if Ascii.eqb d "`"%char
            then before +:+ getSubstitution matched before after rest'
            else if Ascii.eqb d "'"%char
            then after +:+ getSubstitution matched before after rest'
            else String c (getSubstitution matched before after rest)
        | EmptyString => String c EmptyString
        end
      else String c (getSubstitution matched before after rest)
  end.

(** [s.replace(pat, replacement)] with a string pattern *)
Definition replaceFirst (s pat replacement : string) : string :=
  match splitAtFirst pat s with
  | Some (before, after) =>
      before +:+ getSubstitution pat before after replacement +:+ after
  | None => s
  end.

Definition buildUserPrompt (rootPrompt : option string)
           (iteration contextCount historyCount : nat) : Message :=
  let body :=
    match rootPrompt with
    | Some r => if JS.truthy r
                then replaceFirst USER_PROMPT_WITH_ROOT "{rootPrompt}" r
                else USER_PROMPT
    | None => USER_PROMPT
    end in
  let prompt0 :=
    if iteration =? 0
    then "You have not interacted with the REPL environment or seen your prompt / context yet. Your next action should be to look through and figure out how to answer the prompt, so don't just provide a final answer yet." +:+
         JS.nl +:+ JS.nl +:+ body
    else "The history before is your previous interactions with the REPL environment. " +:+ body in
  let prompt1 :=
    if 1 <? contextCount
    then prompt0 +:+ JS.nl +:+ JS.nl +:+ "Note: You have " +:+
         JS.numberToString contextCount +:+
         " contexts available (context_0 through context_" +:+
         JS.numberToString (contextCount - 1) +:+ ")."
    else prompt0 in
  let prompt2 :=
    if 0 <? historyCount then
      if historyCount =? 1
      then prompt1 +:+ JS.nl +:+ JS.nl +:+
           "Note: You have 1 prior conversation history available in the `history` variable."
      else prompt1 +:+ JS.nl +:+ JS.nl +:+ "Note: You have " +:+
           JS.numberToString historyCount +:+
           " prior conversation histories available (history_0 through history_" +:+
           JS.numberToString (historyCount - 1) +:+ ")."
    else prompt1 in
  mkMessage user prompt2.

(* ===================================================================== *)
(** ** The LM adapter (AI SDK) *)
(* ===================================================================== *)

(** A [LanguageModelV1] handle: what identifies the adapter. *)
Record LanguageModelV1 : Type := mkModel { provider : string; modelId : string }.

Record TokenUsage : Type := mkTokens {
  promptTokens : option nat;
  completionTokens : option nat
}.

Record GenerateResult : Type := mkGenerated {
  text : string;
  usage : option TokenUsage
}.

(** [generateText({ model, messages })].  The adapter is outside the
    repository: it is an oracle that sees how many calls were made before,
    and either answers or throws. *)
Definition LM : Type :=
  nat → LanguageModelV1 → list Message → Outcome GenerateResult.

(** [result.usage?.promptTokens ?? 0] and its sibling *)
Definition inputTokensOf (r : GenerateResult) : nat :=
  match usage r with
  | Some u => default 0 (promptTokens u)
  | None => 0
  end.

Definition outputTokensOf (r : GenerateResult) : nat :=
  match usage r with
  | Some u => default 0 (completionTokens u)
  | None => 0
  end.

(* ===================================================================== *)
(** ** core/lm-handler.ts: state *)
(* ===================================================================== *)

Module UsageTracker.

Record t : Type := mk {
  callCounts : gmap string nat;
  inputTokens : gmap string nat;
  outputTokens : gmap string nat;
  lastInputTokens : nat;
  lastOutputTokens : nat
}.

(** [new UsageTracker()] *)
Definition new : t := mk ∅ ∅ ∅ 0 0.

Definition track (model : string) (input output : nat) (u : t) : t :=
  mk (<[model := default 0 (callCounts u !! model) + 1]> (callCounts u))
     (<[model := default 0 (inputTokens u !! model) + input]> (inputTokens u))
     (<[model := default 0 (outputTokens u !! model) + output]> (outputTokens u))
     input output.

Definition getUsageSummary (u : t) : UsageSummary :=
  mkUsage
    (map_imap (λ model _,
       Some (mkModelUsage (default 0 (callCounts u !! model))
                          (default 0 (inputTokens u !! model))
                          (default 0 (outputTokens u !! model))))
       (callCounts u)).

Definition getLastUsage (u : t) : ModelUsageSummary :=
  mkModelUsage 1 (lastInputTokens u) (lastOutputTokens u).

End UsageTracker.

Record Address : Type := mkAddress { host : string; port : nat }.

Module LMHandler.

Record t : Type := mk {
  defaultModel : LanguageModelV1;
  subModel : option LanguageModelV1;
  models : gmap string LanguageModelV1;
  tracker : UsageTracker.t;
  listening : bool;
  address : Address
}.

Definition registerModel (name : string) (model : LanguageModelV1) (h : t) : t :=
  mk (defaultModel h) (subModel h) (<[name := model]> (models h))
     (tracker h) (listening h) (address h).

(** [new LMHandler(defaultModel, { subModel })]; the host defaults to
    127.0.0.1 and the port to 0 *)
Definition new (defaultModel : LanguageModelV1) (subModel : option LanguageModelV1) : t :=
  registerModel (modelId defaultModel) defaultModel
    (mk defaultModel subModel ∅ UsageTracker.new false (mkAddress "127.0.0.1" 0)).

(** [getModel(modelName?, depth = 0)] *)
Definition getModel (h : t) (modelName : option string) (depth : nat)
  : LanguageModelV1 :=
  let named :=
    match modelName with
    | Some name => if JS.truthy name then models h !! name else None
    | None => None
    end in
  match named with
  | Some m => m
  | None =>
      if depth =? 1 then
        match subModel h with
        | Some s => s
        | None => defaultModel h
        end
      else defaultModel h
  end.

Definition withTracker (u : UsageTracker.t) (h : t) : t :=
  mk (defaultModel h) (subModel h) (models h) u (listening h) (address h).

(** [start()]: the port is the one the operating system hands out *)
Definition start (osPort : nat) (h : t) : t :=
  if listening h then h
  else mk (defaultModel h) (subModel h) (models h) (tracker h) true
          (mkAddress (host (address h)) osPort).

Definition stop (h : t) : t :=
  mk (defaultModel h) (subModel h) (models h) (tracker h) false (address h).

Definition normalisePrompt (p : Prompt) : list Message :=
  match p with
  | PromptText s => [mkMessage user s]
  | PromptMessages ms => ms
  | PromptOther v => [mkMessage user (JSON_stringify v)]
  end.

Definition getUsageSummary (h : t) : UsageSummary :=
  UsageTracker.getUsageSummary (tracker h).

Definition getLastUsage (h : t) : ModelUsageSummary :=
  UsageTracker.getLastUsage (tracker h).

End LMHandler.

(* ===================================================================== *)
(** ** logger/rlm-logger.ts and logger/verbose.ts: state *)
(* ===================================================================== *)

(** A line of the log file, before its JSON rendering. *)
Inductive LogEntry : Type :=
| MetadataEntry (m : RLMMetadata)
| IterationEntry (iteration : nat) (it : RLMIteration).

Module RLMLogger.

Record t : Type := mk {
  entries : list LogEntry;
  iterationCount : nat;
  metadataLogged : bool
}.

Definition new : t := mk [] 0 false.

Definition logMetadata (m : RLMMetadata) (l : t) : t :=
  if metadataLogged l then l
  else mk (entries l ++ [MetadataEntry m]) (iterationCount l) true.

Definition log (it : RLMIteration) (l : t) : t :=
  mk (entries l ++ [IterationEntry (S (iterationCount l)) it])
     (S (iterationCount l)) (metadataLogged l).

Definition getIterationCount (l : t) : nat := iterationCount l.

End RLMLogger.

(** What the verbose printer has put on the console, as events. *)
Inductive PrintEvent : Type :=
| PrintedMetadata (m : RLMMetadata)
| PrintedIteration (it : RLMIteration) (iterationNum : nat)
| PrintedFinalAnswer (answer : string)
| PrintedSummary (totalIterations : nat) (u : UsageSummary).

(* ===================================================================== *)
(** ** sandboxes/base.ts: the session contract *)
(* ===================================================================== *)

(** [executeCode] returns a result or a promise of one. *)
Inductive ExecReturn : Type :=
| Sync (r : REPLResult)
| Async (r : REPLResult).

Definition awaited (e : ExecReturn) : REPLResult :=
  match e with Sync r | Async r => r end.

Record SandboxOptions : Type := mkSandboxOptions {
  optKwargs : gmap string JSON;
  optLmHandlerAddress : Address;
  optContextPayload : ContextPayload;
  optDepth : nat
}.

(** A sandbox backend over its session state [SB]: the [Sandbox] interface
    with the factory [createSandbox], and the [SupportsPersistence]
    extension behind the type guard [supportsPersistence]. *)
Record SandboxImpl (SB : Type) : Type := mkSandboxImpl {
  createSandbox : SandboxType → SandboxOptions → Outcome SB;
  executeCode : SB → string → ExecReturn * SB;
  cleanup : SB → SB;
  supportsPersistence : SB → bool;
  updateHandlerAddress : SB → Address → SB;
  addContext : SB → ContextPayload → SB;
  getContextCount : SB → nat;
  addHistory : SB → list Message → SB;
  getHistoryCount : SB → nat
}.
Arguments createSandbox {SB}.
Arguments executeCode {SB}.
Arguments cleanup {SB}.
Arguments supportsPersistence {SB}.
Arguments updateHandlerAddress {SB}.
Arguments addContext {SB}.
Arguments getContextCount {SB}.
Arguments addHistory {SB}.
Arguments getHistoryCount {SB}.

(* ===================================================================== *)
(** ** The world the driver runs in *)
(* ===================================================================== *)

(** Everything mutable that outlives an expression: the trace of adapter
    invocations, the router and the sandbox the running completion holds,
    whether [RLM.persistentSandbox] refers to that sandbox, the logger
    object, and the console. *)
Record World (SB : Type) : Type := mkWorld {
  lmCalls : list (LanguageModelV1 * list Message);
  router : option LMHandler.t;
  sandbox : option SB;
  persistentSandbox : bool;
  logger : RLMLogger.t;
  console : list PrintEvent
}.
Arguments mkWorld {SB}.
Arguments lmCalls {SB}.
Arguments router {SB}.
Arguments sandbox {SB}.
Arguments persistentSandbox {SB}.
Arguments logger {SB}.
Arguments console {SB}.

Definition M (SB A : Type) : Type := World SB → Outcome A * World SB.

Global Instance M_ret {SB} : MRet (M SB) := λ A a w, (Ok a, w).

Global Instance M_bind {SB} : MBind (M SB) := λ A B f m w,
  match m w with
  | (Ok a, w') => f a w'
  | (Throw e, w') => (Throw e, w')
  end.

Section WorldOps.
Context {SB : Type}.

Definition throw {A} (e : string) : M SB A := λ w, (Throw e, w).

(** [try { body } finally { fin }] *)
Definition tryFinally {A} (body : M SB A) (fin : M SB unit) : M SB A := λ w,
  match body w with
  | (r, w1) =>
      match fin w1 with
      | (Ok _, w2) => (r, w2)
      | (Throw e, w2) => (Throw e, w2)
      end
  end.

Definition modify (f : World SB → World SB) : M SB unit := λ w, (Ok (), f w).

Definition withLmCalls (f : list (LanguageModelV1 * list Message) →
                            list (LanguageModelV1 * list Message))
           (w : World SB) : World SB :=
  mkWorld (f (lmCalls w)) (router w) (sandbox w) (persistentSandbox w)
          (logger w) (console w).

Definition withRouter (r : option LMHandler.t) (w : World SB) : World SB :=
  mkWorld (lmCalls w) r (sandbox w) (persistentSandbox w) (logger w) (console w).

Definition withSandbox (s : option SB) (w : World SB) : World SB :=
  mkWorld (lmCalls w) (router w) s (persistentSandbox w) (logger w) (console w).

Definition withPersistentSandbox (b : bool) (w : World SB) : World SB :=
  mkWorld (lmCalls w) (router w) (sandbox w) b (logger w) (console w).

Definition withLogger (f : RLMLogger.t → RLMLogger.t) (w : World SB) : World SB :=
  mkWorld (lmCalls w) (router w) (sandbox w) (persistentSandbox w)
          (f (logger w)) (console w).

Definition print (e : PrintEvent) (w : World SB) : World SB :=
  mkWorld (lmCalls w) (router w) (sandbox w) (persistentSandbox w)
          (logger w) (console w ++ [e]).

(** One invocation of the adapter, with its outcome as a value: the promise
    [generateText] returns *)
Definition invoke (lm : LM) (model : LanguageModelV1) (messages : list Message)
  : M SB (Outcome GenerateResult) := λ w,
  (Ok (lm (length (lmCalls w)) model messages),
   withLmCalls (λ calls, calls ++ [(model, messages)]) w).

(** [await generateText({ model, messages })] *)
Definition generateText (lm : LM) (model : LanguageModelV1) (messages : list Message)
  : M SB GenerateResult := λ w,
  (lm (length (lmCalls w)) model messages,
   withLmCalls (λ calls, calls ++ [(model, messages)]) w).

(** The handler object of the running completion *)
Definition theRouter : M SB LMHandler.t := λ w,
  match router w with
  | Some h => (Ok h, w)
  | None => (Throw "no LM handler", w)
  end.

(** The sandbox object of the running completion *)
Definition theSandbox : M SB SB := λ w,
  match sandbox w with
  | Some s => (Ok s, w)
  | None => (Throw "no sandbox", w)
  end.

Definition track (modelId : string) (input output : nat) : M SB unit :=
  h ← theRouter;
  modify (withRouter (Some (LMHandler.withTracker
                              (UsageTracker.track modelId input output
                                 (LMHandler.tracker h)) h))).
End WorldOps.

(* ===================================================================== *)
(** ** core/lm-handler.ts: the request paths *)
(* ===================================================================== *)

Record SingleRequest : Type := mkSingleRequest {
  reqPrompt : Prompt;
  reqModel : option string;
  reqDepth : option nat
}.

Record BatchedRequest : Type := mkBatchedRequest {
  reqPrompts : list Prompt;
  reqBatchModel : option string;
  reqBatchDepth : option nat
}.

Definition singleCallRecord (modelId : string) (p : Prompt) (r : GenerateResult)
  : RLMChatCompletion Prompt :=
  mkCompletion modelId p (text r)
    (mkUsage {[ modelId := mkModelUsage 1 (inputTokensOf r) (outputTokensOf r) ]}).

Section Router.
Context {SB : Type} (lm : LM).

(** The model a hook request is served with: [getModel(data.model,
    data.depth ?? 0)] *)
Definition hookModel (h : LMHandler.t) (modelName : option string)
           (depth : option nat) : LanguageModelV1 :=
  LMHandler.getModel h modelName (default 0 depth).

(** POST /llm_query *)
Definition handleSingle (data : SingleRequest)
  : M SB (string * RLMChatCompletion Prompt) :=
  h ← theRouter;
  let model := hookModel h (reqModel data) (reqDepth data) in
  let messages := LMHandler.normalisePrompt (reqPrompt data) in
  result ← generateText lm model messages;
  let modelId := default (modelId model) (reqModel data) in
  _ ← track modelId (inputTokensOf result) (outputTokensOf result);
  mret (text result, singleCallRecord modelId (reqPrompt data) result).

(** [Promise.all(prompts.map(...))]: every prompt is dispatched, in order,
    whatever becomes of the others; the batch fails when one of them does. *)
Fixpoint dispatchAll (model : LanguageModelV1) (prompts : list Prompt)
  : M SB (list (Outcome GenerateResult)) :=
  match prompts with
  | [] => mret []
  | p :: rest =>
      r ← invoke lm model (LMHandler.normalisePrompt p);
      rs ← dispatchAll model rest;
      mret (r :: rs)
  end.

Fixpoint allSettled (outcomes : list (Outcome GenerateResult))
  : Outcome (list GenerateResult) :=
  match outcomes with
  | [] => Ok []
  | Throw e :: _ => Throw e
  | Ok r :: rest =>
      match allSettled rest with
      | Ok rs => Ok (r :: rs)
      | Throw e => Throw e
      end
  end.

Definition generateAll (model : LanguageModelV1) (prompts : list Prompt)
  : M SB (list GenerateResult) :=
  outcomes ← dispatchAll model prompts;
  match allSettled outcomes with
  | Ok rs => mret rs
  | Throw e => throw e
  end.

Fixpoint trackAll (modelId : string) (prs : list (Prompt * GenerateResult))
  : M SB (list (string * RLMChatCompletion Prompt)) :=
  match prs with
  | [] => mret []
  | (p, r) :: rest =>
      _ ← track modelId (inputTokensOf r) (outputTokensOf r);
      out ← trackAll modelId rest;
      mret ((text r, singleCallRecord modelId p r) :: out)
  end.

(** POST /llm_query_batched *)
Definition handleBatched (data : BatchedRequest)
  : M SB (list string * list (RLMChatCompletion Prompt)) :=
  h ← theRouter;
  let model := hookModel h (reqBatchModel data) (reqBatchDepth data) in
  results ← generateAll model (reqPrompts data);
  let modelId := default (modelId model) (reqBatchModel data) in
  out ← trackAll modelId (zip (reqPrompts data) results);
  mret (fst <$> out, snd <$> out).

(** The model of the direct path: [getModel(modelName)], depth defaulted *)
Definition directModel (h : LMHandler.t) (modelName : option string)
  : LanguageModelV1 :=
  LMHandler.getModel h modelName 0.

(** [completion(prompt, modelName?)], the direct path of the driver *)
Definition handlerCompletion (p : Prompt) (modelName : option string)
  : M SB string :=
  h ← theRouter;
  let model := directModel h modelName in
  result ← generateText lm model (LMHandler.normalisePrompt p);
  let modelId := default (modelId model) modelName in
  _ ← track modelId (inputTokensOf result) (outputTokensOf result);
  mret (text result).
End Router.

(* ===================================================================== *)
(** ** utils/parsing.ts: findFinalAnswer *)
(* ===================================================================== *)

Section FinalAnswer.
Context {SB : Type} (sbx : SandboxImpl SB).

(** [sandbox.executeCode(code)] on the sandbox of the running completion *)
Definition sandboxExecute (code : string) : M SB ExecReturn :=
  sb ← theSandbox;
  match executeCode sbx sb code with
  | (ret, sb') =>
      _ ← modify (withSandbox (Some sb'));
      mret ret
  end.

(** The FINAL_VAR branch, entered with capture group 1 of the match *)
Definition finalVarAnswer (captured : string) (hasSandbox : bool)
  : M SB (option string) :=
  let variableName := stripQuotes (JS.trim captured) in
  if hasSandbox then
    ret ← sandboxExecute (finalVarProgram variableName);
    match ret with
    | Sync syncResult =>
        let finalAnswer := JS.trim (stdout syncResult) in
        if String.eqb finalAnswer ""
        then mret (Some (JS.orElse (JS.trim (stderr syncResult)) ""))
        else mret (Some finalAnswer)
    | Async _ => mret None
    end
  else mret None.

(** The FINAL branch *)
Definition finalAnswerOf (text : string) : option string :=
  match Regex.exec finalPattern None text with
  | Some (captured, _, _) => Some (JS.trim captured)
  | None => None
  end.

(** [findFinalAnswer(text, sandbox?)]; [hasSandbox] tells whether the
    second argument is given. *)
Definition findFinalAnswer (text : string) (hasSandbox : bool)
  : M SB (option string) :=
  match Regex.exec finalVarPattern None text with
  | Some (captured, _, _) => finalVarAnswer captured hasSandbox
  | None => mret (finalAnswerOf text)
  end.
End FinalAnswer.

(* ===================================================================== *)
(** ** core/rlm.ts *)
(* ===================================================================== *)

(** [config.logger], when given, is the logger object of the world. *)
Record RLMConfig : Type := mkConfig {
  cfgModel : LanguageModelV1;
  cfgSubModel : option LanguageModelV1;
  cfgSandbox : option SandboxType;
  cfgSandboxKwargs : option (gmap string JSON);
  cfgDepth : option nat;
  cfgMaxDepth : option nat;
  cfgMaxIterations : option nat;
  cfgCustomSystemPrompt : option string;
  cfgLogger : bool;
  cfgVerbose : option bool;
  cfgPersistent : option bool
}.

Definition epilogueRequest : Message :=
  mkMessage assistant
    "Please provide a final answer to the user's question based on the information provided.".

Module RLM.

Record t : Type := mk {
  model : LanguageModelV1;
  subModel : option LanguageModelV1;
  sandboxType : SandboxType;
  sandboxKwargs : gmap string JSON;
  depth : nat;
  maxDepth : nat;
  maxIterations : nat;
  systemPrompt : string;
  hasLogger : bool;
  verbose : bool;
  persistent : bool
}.

(** How the loop of [completion] ends: by a [return] from inside, or by
    running out of iterations with the history it has built. *)
Inductive LoopExit : Type :=
| Returned (c : RLMChatCompletion ContextPayload)
| Exhausted (messageHistory : list Message).

Section Driver.
Context {SB : Type}.
Variable lm : LM.
Variable sbx : SandboxImpl SB.
(** the port the operating system assigns to the router *)
Variable osPort : nat.
(** the published system prompt text *)
Variable RLM_SYSTEM_PROMPT : string.

(** The methods of [VerbosePrinter] return at once when disabled. *)
Definition verbosePrint (this : t) (e : PrintEvent) : M SB unit :=
  if verbose this then modify (print e) else mret ().

Definition loggerLog (this : t) (it : RLMIteration) : M SB unit :=
  if hasLogger this then modify (withLogger (RLMLogger.log it)) else mret ().

Definition validatePersistentSupport (this : t) : M SB unit :=
  if bool_decide (sandboxType this ∈ [local]) then mret ()
  else throw "persistent=true is not supported for this sandbox type".

Definition metadataOf (this : t) : RLMMetadata :=
  mkMetadata (modelId (model this)) (maxDepth this) (maxIterations this)
    (sandboxType this) (filterSensitiveKeys (sandboxKwargs this))
    (match subModel this with
     | Some s => Some [modelId s]
     | None => None
     end).

(** [new RLM(config)] *)
Definition new (config : RLMConfig) : M SB t :=
  let this :=
    mk (cfgModel config) (cfgSubModel config)
       (default local (cfgSandbox config))
       (default ∅ (cfgSandboxKwargs config))
       (default 0 (cfgDepth config))
       (default 1 (cfgMaxDepth config))
       (default 30 (cfgMaxIterations config))
       (default RLM_SYSTEM_PROMPT (cfgCustomSystemPrompt config))
       (cfgLogger config)
       (default false (cfgVerbose config))
       (default false (cfgPersistent config)) in
  _ ← modify (withPersistentSandbox false);
  _ ← (if persistent this then validatePersistentSupport this else mret ());
  _ ← (if hasLogger this || default false (cfgVerbose config) then
         let metadata := metadataOf this in
         _ ← (if hasLogger this
              then modify (withLogger (RLMLogger.logMetadata metadata))
              else mret ());
         verbosePrint this (PrintedMetadata metadata)
       else mret ());
  mret this.

(** [fallbackAnswer]: a plain call of the root model *)
Definition fallbackAnswer (this : t) (message : ContextPayload)
  : M SB (RLMChatCompletion ContextPayload) :=
  let messages :=
    match message with
    | CtxText s => [mkMessage user s]
    | CtxList items => [mkMessage user (JSON_stringify (JArr items))]
    | CtxDict fields => [mkMessage user (JSON_stringify (JObj fields))]
    end in
  result ← generateText lm (model this) messages;
  mret (mkCompletion (modelId (model this)) message (text result)
          (mkUsage {[ modelId (model this) :=
                        mkModelUsage 1 (inputTokensOf result)
                                     (outputTokensOf result) ]})).

(** The loop of [completionTurn] over the code blocks *)
Fixpoint executeBlocks (codeBlockStrs : list string) : M SB (list CodeBlock) :=
  match codeBlockStrs with
  | [] => mret []
  | codeStr :: rest =>
      ret ← sandboxExecute sbx codeStr;
      blocks ← executeBlocks rest;
      mret (mkCodeBlock codeStr (awaited ret) :: blocks)
  end.

Definition completionTurn (prompt : list Message) : M SB RLMIteration :=
  response ← handlerCompletion lm (PromptMessages prompt) None;
  codeBlocks ← executeBlocks (findCodeBlocks response);
  mret (mkIteration prompt response codeBlocks None).

Definition defaultAnswer (this : t) (messageHistory : list Message)
  : M SB string :=
  let currentPrompt := messageHistory ++ [epilogueRequest] in
  response ← handlerCompletion lm (PromptMessages currentPrompt) None;
  _ ← loggerLog this (mkIteration currentPrompt response [] (Some response));
  mret response.

(** [if (this.persistent && supportsPersistence(sandbox))
      sandbox.addHistory(messageHistory)] *)
Definition storeHistory (this : t) (messageHistory : list Message) : M SB unit :=
  sb ← theSandbox;
  if persistent this && supportsPersistence sbx sb
  then modify (withSandbox (Some (addHistory sbx sb messageHistory)))
  else mret ().

(** The [for] loop of [completion]: [remaining] rounds are left and the
    loop variable is [i]. *)
Fixpoint iterate (this : t) (payload : ContextPayload)
         (rootPrompt : option string) (remaining i : nat)
         (messageHistory : list Message) : M SB LoopExit :=
  match remaining with
  | 0 => mret (Exhausted messageHistory)
  | S remaining' =>
      sb ← theSandbox;
      let contextCount :=
        if supportsPersistence sbx sb then getContextCount sbx sb else 1 in
      let historyCount :=
        if supportsPersistence sbx sb then getHistoryCount sbx sb else 0 in
      let currentPrompt :=
        messageHistory ++ [buildUserPrompt rootPrompt i contextCount historyCount] in
      turn ← completionTurn currentPrompt;
      finalAnswer ← findFinalAnswer sbx (iterResponse turn) true;
      let iteration :=
        mkIteration (prompt turn) (iterResponse turn) (codeBlocks turn) finalAnswer in
      _ ← loggerLog this iteration;
      _ ← verbosePrint this (PrintedIteration iteration (i + 1));
      match finalAnswer with
      | Some answer =>
          h ← theRouter;
          let usage := LMHandler.getUsageSummary h in
          _ ← verbosePrint this (PrintedFinalAnswer answer);
          _ ← verbosePrint this (PrintedSummary (i + 1) usage);
          _ ← storeHistory this messageHistory;
          mret (Returned (mkCompletion (modelId (model this)) payload answer usage))
      | None =>
          iterate this payload rootPrompt remaining' (S i)
            (messageHistory ++ formatIteration iteration defaultMaxCharacterLength)
      end
  end.

(** The [try] block of [completion] *)
Definition completionBody (this : t) (payload : ContextPayload)
           (rootPrompt : option string)
  : M SB (RLMChatCompletion ContextPayload) :=
  match buildQueryMetadata payload with
  | Throw e => throw e
  | Ok queryMetadata =>
      let messageHistory := buildRlmSystemPrompt (systemPrompt this) queryMetadata in
      exit ← iterate this payload rootPrompt (maxIterations this) 0 messageHistory;
      match exit with
      | Returned c => mret c
      | Exhausted messageHistory =>
          finalAnswer ← defaultAnswer this messageHistory;
          h ← theRouter;
          let usage := LMHandler.getUsageSummary h in
          _ ← verbosePrint this (PrintedFinalAnswer finalAnswer);
          _ ← verbosePrint this (PrintedSummary (maxIterations this) usage);
          _ ← storeHistory this messageHistory;
          mret (mkCompletion (modelId (model this)) payload finalAnswer usage)
      end
  end.

(** The [finally] block of [completion] *)
Definition completionFinally (this : t) : M SB unit :=
  h ← theRouter;
  _ ← modify (withRouter (Some (LMHandler.stop h)));
  if persistent this then mret ()
  else sb ← theSandbox; modify (withSandbox (Some (cleanup sbx sb))).

(** Create or reuse the sandbox *)
Definition acquireSandbox (this : t) (payload : ContextPayload)
           (handlerAddress : Address) : M SB unit := λ w,
  if persistent this && persistentSandbox w then
    (sb ← theSandbox;
     modify (withSandbox
               (Some (addContext sbx (updateHandlerAddress sbx sb handlerAddress)
                                 payload)))) w
  else
    match createSandbox sbx (sandboxType this)
            (mkSandboxOptions (sandboxKwargs this) handlerAddress payload
                              (depth this + 1)) with
    | Throw e => (Throw e, w)
    | Ok sb =>
        (_ ← modify (withSandbox (Some sb));
         if persistent this && supportsPersistence sbx sb
         then modify (withPersistentSandbox true)
         else mret ()) w
    end.

(** [completion(prompt, rootPrompt?)] *)
Definition completion (this : t) (payload : ContextPayload)
           (rootPrompt : option string)
  : M SB (RLMChatCompletion ContextPayload) :=
  if maxDepth this <=? depth this then fallbackAnswer this payload
  else
    let lmHandler := LMHandler.new (model this) (subModel this) in
    let lmHandler :=
      match subModel this with
      | Some s => LMHandler.registerModel (modelId s) s lmHandler
      | None => lmHandler
      end in
    let lmHandler := LMHandler.start osPort lmHandler in
    _ ← modify (withRouter (Some lmHandler));
    _ ← acquireSandbox this payload (LMHandler.address lmHandler);
    tryFinally (completionBody this payload rootPrompt) (completionFinally this).

(** [close()] *)
Definition close : M SB unit := λ w,
  if persistentSandbox w then
    (sb ← theSandbox;
     _ ← modify (withSandbox (Some (cleanup sbx sb)));
     modify (withPersistentSandbox false)) w
  else (Ok (), w).
End Driver.

End RLM.

(** A world in which nothing has happened yet. *)
Definition initialWorld {SB : Type} : World SB :=
  mkWorld [] None None false RLMLogger.new [].

(* ===================================================================== *)
(** ** JSON.parse *)
(* ===================================================================== *)

(** The result of reading text the child process printed: a value, a
    failure ([JSON.parse] or a later property access throws), or a value
    this embedding has no place for (a code unit above 255, a property name
    that is an array index and so changes the order of the properties, a
    field whose type is not the declared one). *)
Inductive Decode (A : Type) : Type :=
| Decoded (a : A)
| Fails
| OutsideModel.
Arguments Decoded {A}.
Arguments Fails {A}.
Arguments OutsideModel {A}.

Definition decodeBind {A B} (d : Decode A) (k : A → Decode B) : Decode B :=
  match d with
  | Decoded a => k a
  | Fails => Fails
  | OutsideModel => OutsideModel
  end.

Module JSONText.

Definition isJsonSpace (c : ascii) : bool :=
  let n := JS.code c in ((n =? 32) || (n =? 9) || (n =? 10) || (n =? 13))%N.

Definition isDigit (c : ascii) : bool :=
  let n := JS.code c in ((48 <=? n) && (n <=? 57))%N.

Fixpoint skipSpace (s : string) : string :=
  match s with
  | String c s' => if isJsonSpace c then skipSpace s' else s
  | EmptyString => EmptyString
  end.

Definition hexValue (c : ascii) : option N :=
  let n := JS.code c in
  if ((48 <=? n) && (n <=? 57))%N then Some (n - 48)%N
  else if ((65 <=? n) && (n <=? 70))%N then Some (n - 55)%N
  else if ((97 <=? n) && (n <=? 102))%N then Some (n - 87)%N
  else None.

Definition unicodeEscape (h1 h2 h3 h4 : ascii) : Decode ascii :=
  match hexValue h1, hexValue h2, hexValue h3, hexValue h4 with
  | Some a, Some b, Some c, Some d =>
      if ((a =? 0) && (b =? 0))%N then Decoded (ascii_of_N (16 * c + d))
      else OutsideModel
  | _, _, _, _ => Fails
  end.

Definition simpleEscape (e : ascii) : option ascii :=
  let n := JS.code e in
  if (n =? 34)%N then Some e
  else if (n =? 92)%N then Some e
  else if (n =? 47)%N then Some e
  else if (n =? 98)%N then Some (ascii_of_N 8)
  else if (n =? 102)%N then Some (ascii_of_N 12)
  else if (n =? 110)%N then Some (ascii_of_N 10)
  else if (n =? 114)%N then Some (ascii_of_N 13)
  else if (n =? 116)%N then Some (ascii_of_N 9)
  else None.

(** The characters of a string literal after its opening quote *)
Fixpoint stringBody (s : string) : Decode (string * string) :=
  match s with
  | EmptyString => Fails
  | String c rest =>
      let n := JS.code c in
      if (n =? 34)%N then Decoded (EmptyString, rest)
      else if (n =? 92)%N then
        match rest with
        | EmptyString => Fails
        | String e rest' =>
            if Ascii.eqb e "u"%char then
              match rest' with
              | String h1 (String h2 (String h3 (String h4 rest''))) =>
                  decodeBind (unicodeEscape h1 h2 h3 h4) (λ ch,
                  decodeBind (stringBody rest'') (λ r,
                  Decoded (String ch (fst r), snd r)))
              | _ => Fails
              end
            else
              match simpleEscape e with
              | Some ch =>
                  decodeBind (stringBody rest') (λ r,
                  Decoded (String ch (fst r), snd r))
              | None => Fails
              end
        end
      else if (n <? 32)%N then Fails
      else decodeBind (stringBody rest) (λ r, Decoded (String c (fst r), snd r))
  end.

Fixpoint spanDigits (s : string) : string * string :=
  match s with
  | String c s' =>
      if isDigit c then
        match spanDigits s' with (ds, rest) => (String c ds, rest) end
      else (EmptyString, s)
  | EmptyString => (EmptyString, EmptyString)
  end.

Definition fraction (s : string) : option (string * string) :=
  match s with
  | String c s' =>
      if Ascii.eqb c "."%char then
        match spanDigits s' with
        | (EmptyString, _) => None
        | (ds, rest) => Some (String c ds, rest)
        end
      else Some (EmptyString, s)
  | EmptyString => Some (EmptyString, s)
  end.

Definition exponent (s : string) : option (string * string) :=
  match s with
  | String c s' =>
      if Ascii.eqb c "e"%char || Ascii.eqb c "E"%char then
        let '(sign, s'') :=
          match s' with
          | String g t =>
              if Ascii.eqb g "+"%char || Ascii.eqb g "-"%char
              then (String g EmptyString, t) else (EmptyString, s')
          | EmptyString => (EmptyString, s')
          end in
        match spanDigits s'' with
        | (EmptyString, _) => None
        | (ds, rest) => Some (String c (sign +:+ ds), rest)
        end
      else Some (EmptyString, s)
  | EmptyString => Some (EmptyString, s)
  end.

(** A number literal: its text and what follows it *)
Definition number (s : string) : option (string * string) :=
  let '(sign, s1) :=
    match s with
    | String c t => if Ascii.eqb c "-"%char then (String c EmptyString, t)
                    else (EmptyString, s)
    | EmptyString => (EmptyString, s)
    end in
  match spanDigits s1 with
  | (EmptyString, _) => None
  | (String d ds as int, s2) =>
      if Ascii.eqb d "0"%char && JS.truthy ds then None
      else
        match fraction s2 with
        | None => None
        | Some (fr, s3) =>
            match exponent s3 with
            | None => None
            | Some (ex, s4) => Some (sign +:+ int +:+ fr +:+ ex, s4)
            end
        end
  end.

Fixpoint allDigits (s : string) : bool :=
  match s with
  | EmptyString => true
  | String c s' => isDigit c && allDigits s'
  end.

(** [o[key] = value] while an object literal is read: a repeated name
    keeps its place and takes the later value *)
Fixpoint setField (key : string) (v : JSON) (fields : list (string * JSON))
  : list (string * JSON) :=
  match fields with
  | [] => [(key, v)]
  | (k, x) :: rest =>
      if String.eqb k key then (k, v) :: rest else (k, x) :: setField key v rest
  end.

Definition dropChar (s : string) : string :=
  match s with String _ s' => s' | EmptyString => EmptyString end.

Fixpoint value (fuel : nat) (s : string) : Decode (JSON * string) :=
  match fuel with
  | 0 => OutsideModel
  | S fuel' =>
      match skipSpace s with
      | EmptyString => Fails
      | String c rest as s0 =>
          if Ascii.eqb c "{"%char then
            match skipSpace rest with
            | String d rest' as r =>
                if Ascii.eqb d "}"%char then Decoded (JObj [], rest')
                else members fuel' r []
            | EmptyString => Fails
            end
          else if Ascii.eqb c "["%char then
            match skipSpace rest with
            | String d rest' as r =>
                if Ascii.eqb d "]"%char then Decoded (JArr [], rest')
                else elements fuel' r []
            | EmptyString => Fails
            end
          else if Ascii.eqb c JS.DQ then
            decodeBind (stringBody rest) (λ r, Decoded (JStr (fst r), snd r))
          else if JS.startsWith s0 "true" then
            Decoded (JBool true, String.substring 4 (String.length s0 - 4) s0)
          else if JS.startsWith s0 "false" then
            Decoded (JBool false, String.substring 5 (String.length s0 - 5) s0)
          else if JS.startsWith s0 "null" then
            Decoded (JNull, String.substring 4 (String.length s0 - 4) s0)
          else
            match number s0 with
            | Some (lexeme, rest') => Decoded (JNum lexeme, rest')
            | None => Fails
            end
      end
  end
with elements (fuel : nat) (s : string) (acc : list JSON) : Decode (JSON * string) :=
  match fuel with
  | 0 => OutsideModel
  | S fuel' =>
      decodeBind (value fuel' s) (λ r,
        match skipSpace (snd r) with
        | String c rest =>
            if Ascii.eqb c ","%char then elements fuel' rest (acc ++ [fst r])
            else if Ascii.eqb c "]"%char then Decoded (JArr (acc ++ [fst r]), rest)
            else Fails
        | EmptyString => Fails
        end)
  end
with members (fuel : nat) (s : string) (acc : list (string * JSON))
     : Decode (JSON * string) :=
  match fuel with
  | 0 => OutsideModel
  | S fuel' =>
      match skipSpace s with
      | String q rest =>
          if Ascii.eqb q JS.DQ then
            decodeBind (stringBody rest) (λ k,
              if allDigits (fst k) && JS.truthy (fst k) then OutsideModel
              else
                match skipSpace (snd k) with
                | String c rest' =>
                    if Ascii.eqb c ":"%char then
                      decodeBind (value fuel' rest') (λ r,
                        match skipSpace (snd r) with
                        | String e rest'' =>
                            if Ascii.eqb e ","%char
                            then members fuel' rest'' (setField (fst k) (fst r) acc)
                            else if Ascii.eqb e "}"%char
                            then Decoded (JObj (setField (fst k) (fst r) acc), rest'')
                            else Fails
                        | EmptyString => Fails
                        end)
                    else Fails
                | EmptyString => Fails
                end)
          else Fails
      | EmptyString => Fails
      end
  end.

(** [JSON.parse(text)] *)
Definition parse (text : string) : Decode JSON :=
  decodeBind (value (2 * String.length text + 2) text) (λ r,
    match skipSpace (snd r) with
    | EmptyString => Decoded (fst r)
    | _ => Fails
    end).

End JSONText.

Global Instance Decode_ret : MRet Decode := λ A a, Decoded a.
Global Instance Decode_bind : MBind Decode := λ A B k d, decodeBind d k.

(* ===================================================================== *)
(** ** Property access on parsed values *)
(* ===================================================================== *)

(** [v[name]] for a name that is no index and no built-in: [null] throws, an
    object answers, anything else has no such property. *)
Definition getProp (v : JSON) (name : string) : Decode (option JSON) :=
  match v with
  | JNull => Fails
  | JObj fields => Decoded (lookupField name fields)
  | _ => Decoded None
  end.

(** A number literal denotes zero when its digits before the exponent are
    all [0]. *)
Fixpoint zeroMantissa (s : string) : bool :=
  match s with
  | EmptyString => true
  | String c s' =>
      if Ascii.eqb c "e"%char || Ascii.eqb c "E"%char then true
      else if JSONText.isDigit c then Ascii.eqb c "0"%char && zeroMantissa s'
      else zeroMantissa s'
  end.

(** JavaScript truthiness *)
Definition truthyJSON (v : JSON) : bool :=
  match v with
  | JNull => false
  | JBool b => b
  | JNum t => negb (zeroMantissa t)
  | JStr s => JS.truthy s
  | JArr _ | JObj _ => true
  end.

(** [a ?? b] *)
Definition nullish (v : option JSON) (d : JSON) : JSON :=
  match v with
  | None | Some JNull => d
  | Some x => x
  end.

Fixpoint indexed (i : nat) (items : list JSON) : list (string * JSON) :=
  match items with
  | [] => []
  | x :: rest => (JS.numberToString i, x) :: indexed (S i) rest
  end.

Fixpoint chars (s : string) : list JSON :=
  match s with
  | EmptyString => []
  | String c s' => JStr (String c EmptyString) :: chars s'
  end.

(** [Object.entries(v)] *)
Definition Object_entries (v : JSON) : list (string * JSON) :=
  match v with
  | JObj fields => fields
  | JArr items => indexed 0 items
  | JStr s => indexed 0 (chars s)
  | _ => []
  end.

(** The declared types of the record, read off dynamic values *)
Definition asString (v : option JSON) : Decode string :=
  match v with
  | Some (JStr s) => Decoded s
  | _ => OutsideModel
  end.

Definition asStringOr (v : option JSON) (d : string) : Decode string :=
  match v with
  | None | Some JNull => Decoded d
  | Some (JStr s) => Decoded s
  | Some _ => OutsideModel
  end.

Definition asCount (v : option JSON) : Decode nat :=
  match v with
  | Some (JNum t) =>
      if JSONText.allDigits t then
        match NilEmpty.uint_of_string t with
        | Some u => Decoded (Nat.of_uint u)
        | None => OutsideModel
        end
      else OutsideModel
  | _ => OutsideModel
  end.

Definition asPrompt (v : option JSON) : Decode Prompt :=
  match v with
  | Some (JStr s) => Decoded (PromptText s)
  | Some x => Decoded (PromptOther x)
  | None => OutsideModel
  end.

(* ===================================================================== *)
(** ** sandboxes/local.ts: executeCode *)
(* ===================================================================== *)

Module LocalSandbox.

(** What [execSync] did with the child interpreter: it returned the
    child's stdout, or it threw an error carrying the captured stdout and
    stderr, each possibly missing. *)
Inductive ExecSync : Type :=
| Exited (out : string)
| Failed (out err : option string).

(** [stdout] and [stderr] after the first [try]/[catch] *)
Definition captured (r : ExecSync) : string * string :=
  match r with
  | Exited out => (out, EmptyString)
  | Failed out err => (default EmptyString out, default EmptyString err)
  end.

(** [lines[lines.length - 1] ?? ""] of [stdout.trimEnd().split("\n")] *)
Definition lastLine (stdout : string) : string :=
  List.last (JS.splitLines (JS.trimEnd stdout)) EmptyString.

(** One entry of [model_usage_summaries] *)
Definition decodeUsage (entry : string * JSON)
  : Decode (string * ModelUsageSummary) :=
  let '(model, usage) := entry in
  c ← getProp usage "total_calls";
  i ← getProp usage "total_input_tokens";
  o ← getProp usage "total_output_tokens";
  c' ← asCount c;
  i' ← asCount i;
  o' ← asCount o;
  mret (model, mkModelUsage c' i' o').

Fixpoint decodeAll {A B} (f : A → Decode B) (xs : list A) : Decode (list B) :=
  match xs with
  | [] => mret []
  | x :: rest =>
      y ← f x;
      ys ← decodeAll f rest;
      mret (y :: ys)
  end.

(** The callback of [data.rlm_calls.map] *)
Definition decodeCall (call : JSON) : Decode (RLMChatCompletion Prompt) :=
  rootModel ← getProp call "root_model";
  prompt ← getProp call "prompt";
  response ← getProp call "response";
  summary ← getProp call "usage_summary";
  summaries ←
    match summary with
    | None | Some JNull => mret None
    | Some s => getProp s "model_usage_summaries"
    end;
  usages ← decodeAll decodeUsage (Object_entries (nullish summaries (JObj [])));
  rootModel' ← asString rootModel;
  prompt' ← asPrompt prompt;
  response' ← asString response;
  mret (mkCompletion rootModel' prompt' response' (mkUsage (list_to_map usages))).

(** The second [try] block: parse the last line and build the result *)
Definition tryBlock (lastLine stderr : string) : Decode REPLResult :=
  data ← JSONText.parse lastLine;
  calls ← getProp data "rlm_calls";
  rlmCalls ←
    match calls with
    | Some v =>
        if truthyJSON v then
          match v with
          | JArr items => decodeAll decodeCall items
          | _ => Fails
          end
        else mret []
    | None => mret []
    end;
  out ← getProp data "stdout";
  err ← getProp data "stderr";
  loc ← getProp data "locals";
  out' ← asStringOr out EmptyString;
  err' ← asStringOr err EmptyString;
  mret (mkREPLResult out' (err' +:+ stderr)
          (Object_entries (nullish loc (JObj []))) rlmCalls).

(** The result of the [catch] block *)
Definition parseErrorResult (stdout stderr : string) : REPLResult :=
  mkREPLResult stdout (JS.orElse stderr "Parse error") [] [].

(** [executeCode(code)] from the point where the child has run.  [None]:
    the child printed a record this embedding has no place for. *)
Definition executeCode (r : ExecSync) : option REPLResult :=
  let '(stdout, stderr) := captured r in
  match tryBlock (lastLine stdout) stderr with
  | Decoded res => Some res
  | Fails => Some (parseErrorResult stdout stderr)
  | OutsideModel => None
  end.

End LocalSandbox.


(* ===================================================================== *)
(** ** core/types.ts: the dictionary forms of the usage records *)
(* ===================================================================== *)






(* ===================================================================== *)
(** ** core/lm-handler.ts: handleRequest *)
(* ===================================================================== *)

(** What [handleRequest] resolves to.  The text of the error of a request
    that failed is [Request failed: ] followed by the engine's rendering of
    the [SyntaxError] of [JSON.parse], which is left out. *)
Inductive HookReply : Type :=
| SingleReply (response : string) (rlm_call : RLMChatCompletion Prompt)
| BatchedReply (responses : list string) (rlm_calls : list (RLMChatCompletion Prompt))
| UnknownEndpoint (error : string)
| RequestFailed.

(** A message read off a parsed value, for a prompt that is an array *)
Definition asRole (v : option JSON) : Decode Role :=
  match v with
  | Some (JStr "system") => Decoded system
  | Some (JStr "user") => Decoded user
  | Some (JStr "assistant") => Decoded assistant
  | _ => OutsideModel
  end.

(** An object with the two properties of a message and no other *)
Definition asMessage (v : JSON) : Decode Message :=
  match v with
  | JObj [(k1, v1); (k2, v2)] =>
      if String.eqb k1 "role" && String.eqb k2 "content" then
        r ← asRole (Some v1); c ← asString (Some v2); mret (mkMessage r c)
      else if String.eqb k1 "content" && String.eqb k2 "role" then
        r ← asRole (Some v2); c ← asString (Some v1); mret (mkMessage r c)
      else OutsideModel
  | _ => OutsideModel
  end.

(** [data.prompt as string | ChatMessage[]], as [normalisePrompt] will
    take it: a missing prompt has no JSON text. *)
Definition asHookPrompt (v : option JSON) : Decode Prompt :=
  match v with
  | Some (JStr s) => Decoded (PromptText s)
  | Some (JArr items) =>
      ms ← LocalSandbox.decodeAll asMessage items;
      mret (PromptMessages ms)
  | Some x => Decoded (PromptOther x)
  | None => OutsideModel
  end.

(** [data.model as string | undefined]; [null] is what the runner script
    sends for no model. *)
Definition asModelName (v : option JSON) : Decode (option string) :=
  match v with
  | None | Some JNull => Decoded None
  | Some (JStr s) => Decoded (Some s)
  | Some _ => OutsideModel
  end.

(** [(data.depth as number) ?? 0], before the default is taken *)
Definition asDepth (v : option JSON) : Decode (option nat) :=
  match v with
  | None | Some JNull => Decoded None
  | Some x => n ← asCount (Some x); mret (Some n)
  end.

(** The fields [handleSingle] reads off the parsed body; reading a property
    of [null] throws. *)
Definition decodeSingle (data : JSON) : Decode SingleRequest :=
  prompt ← getProp data "prompt";
  model ← getProp data "model";
  depth ← getProp data "depth";
  prompt' ← asHookPrompt prompt;
  model' ← asModelName model;
  depth' ← asDepth depth;
  mret (mkSingleRequest prompt' model' depth').

Definition decodeBatched (data : JSON) : Decode BatchedRequest :=
  prompts ← getProp data "prompts";
  model ← getProp data "model";
  depth ← getProp data "depth";
  prompts' ← match prompts with
              | Some (JArr items) =>
                  LocalSandbox.decodeAll (λ p, asHookPrompt (Some p)) items
              | _ => OutsideModel
              end;
  model' ← asModelName model;
  depth' ← asDepth depth;
  mret (mkBatchedRequest prompts' model' depth').

Section HandleRequest.
Context {SB : Type} (lm : LM).

(** [handleRequest(url, body)].  [None]: the body is outside the
    embedding.  The promises of [handleSingle] and [handleBatched] are
    returned without being awaited, so what they throw passes the [catch]
    block by; only the error of [JSON.parse] is caught in it. *)
Definition handleRequest (url body : string)
  : World SB → option (Outcome HookReply * World SB) := λ w,
  match JSONText.parse body with
  | OutsideModel => None
  | Fails => Some (Ok RequestFailed, w)
  | Decoded data =>
      if String.eqb url "/llm_query" then
        match decodeSingle data with
        | OutsideModel => None
        | Fails =>
            Some (Throw "TypeError: Cannot read properties of null (reading 'prompt')", w)
        | Decoded request =>
            Some ((reply ← handleSingle lm request;
                   mret (SingleReply reply.1 reply.2)) w)
        end
      else if String.eqb url "/llm_query_batched" then
        match decodeBatched data with
        | OutsideModel => None
        | Fails =>
            Some (Throw "TypeError: Cannot read properties of null (reading 'prompts')", w)
        | Decoded request =>
            Some ((reply ← handleBatched lm request;
                   mret (BatchedReply reply.1 reply.2)) w)
        end
      else Some (Ok (UnknownEndpoint ("Unknown endpoint: " +:+ url)), w)
  end.
End HandleRequest.

(* ===================================================================== *)
(** ** sandboxes/local.ts: the session state *)
(* ===================================================================== *)

(** The [LocalSandbox] object.  The file system and the child interpreter
    are outside the repository; what the object does to them is kept as a
    trace: the files it writes, and its calls of [executeCode], each with
    the proxy url the script is built with (writing the script file and
    running it are one event; the result of the run is not used by the
    methods below). *)
Module LocalSession.

Inductive Effect : Type :=
| WroteFile (path content : string)
| Ran (proxyUrl code : string).

Record t : Type := mk {
  lmHandlerAddress : option Address;
  tempDir : string;
  depth : nat;
  contextCount : nat;
  historyCount : nat;
  effects : list Effect
}.

Record Options : Type := mkOptions {
  optLmHandlerAddress : option Address;
  optContextPayload : option ContextPayload;
  optSetupCode : option string;
  optDepth : option nat
}.

(** [path.join(this.tempDir, name)], for the directory [mkdtempSync]
    returns *)
Definition pathJoin (dir name : string) : string := dir +:+ "/" +:+ name.

Definition statePath (s : t) : string := pathJoin (tempDir s) "state.json".

Definition emit (es : list Effect) (s : t) : t :=
  mk (lmHandlerAddress s) (tempDir s) (depth s) (contextCount s) (historyCount s)
     (effects s ++ es).

Definition proxyUrl (s : t) : string :=
  match lmHandlerAddress s with
  | Some a => "http://" +:+ host a +:+ ":" +:+ JS.numberToString (port a)
  | None => ""
  end.

(** [executeCode(code)], as far as the session goes *)
Definition executeCode (code : string) (s : t) : t :=
  emit [Ran (proxyUrl s) code] s.

Definition payloadJSON (payload : ContextPayload) : JSON :=
  match payload with
  | CtxText s => JStr s
  | CtxList items => JArr items
  | CtxDict fields => JObj fields
  end.

(** [addContext(contextPayload, contextIndex?)]: the index used and the
    session after it *)
Definition addContext (contextPayload : ContextPayload) (contextIndex : option nat)
           (s : t) : nat * t :=
  let idx := default (contextCount s) contextIndex in
  let varName := "context_" +:+ JS.numberToString idx in
  let s1 :=
    match contextPayload with
    | CtxText text =>
        let contextPath := pathJoin (tempDir s) (varName +:+ ".txt") in
        executeCode ("with open(r'" +:+ contextPath +:+ "', 'r') as f:" +:+ JS.nl +:+
                     "    " +:+ varName +:+ " = f.read()")
          (emit [WroteFile contextPath text] s)
    | _ =>
        let contextPath := pathJoin (tempDir s) (varName +:+ ".json") in
        executeCode ("import json" +:+ JS.nl +:+
                     "with open(r'" +:+ contextPath +:+ "', 'r') as f:" +:+ JS.nl +:+
                     "    " +:+ varName +:+ " = json.load(f)")
          (emit [WroteFile contextPath (JSON_stringify (payloadJSON contextPayload))] s)
    end in
  let s2 := if idx =? 0 then executeCode ("context = " +:+ varName) s1 else s1 in
  (idx, mk (lmHandlerAddress s2) (tempDir s2) (depth s2)
           (Nat.max (contextCount s2) (idx + 1)) (historyCount s2) (effects s2)).

Definition loadContext (contextPayload : ContextPayload) (s : t) : t :=
  (addContext contextPayload (Some 0) s).2.

Definition getContextCount (s : t) : nat := contextCount s.

Definition updateHandlerAddress (address : Address) (s : t) : t :=
  mk (Some address) (tempDir s) (depth s) (contextCount s) (historyCount s) (effects s).

Definition roleName (r : Role) : string :=
  match r with
  | system => "system"
  | user => "user"
  | assistant => "assistant"
  end.

Definition messageJSON (m : Message) : JSON :=
  JObj [("role", JStr (roleName (role m))); ("content", JStr (content m))].

(** [addHistory(messageHistory, historyIndex?)] *)
Definition addHistory (messageHistory : list Message) (historyIndex : option nat)
           (s : t) : nat * t :=
  let idx := default (historyCount s) historyIndex in
  let varName := "history_" +:+ JS.numberToString idx in
  let historyPath := pathJoin (tempDir s) (varName +:+ ".json") in
  let s1 :=
    executeCode ("import json" +:+ JS.nl +:+
                 "with open(r'" +:+ historyPath +:+ "', 'r') as f:" +:+ JS.nl +:+
                 "    " +:+ varName +:+ " = json.load(f)")
      (emit [WroteFile historyPath
               (JSON_stringify (JArr (messageJSON <$> messageHistory)))] s) in
  let s2 := if idx =? 0 then executeCode ("history = " +:+ varName) s1 else s1 in
  (idx, mk (lmHandlerAddress s2) (tempDir s2) (depth s2) (contextCount s2)
           (Nat.max (historyCount s2) (idx + 1)) (effects s2)).

Definition getHistoryCount (s : t) : nat := historyCount s.

(** [new LocalSandbox(options)], in the directory [mkdtempSync] made *)
Definition new (dir : string) (options : Options) : t :=
  let s0 := mk (optLmHandlerAddress options) dir (default 1 (optDepth options)) 0 0 [] in
  let s1 := emit [WroteFile (statePath s0) "{}"] s0 in
  let s2 := match optContextPayload options with
            | Some payload => loadContext payload s1
            | None => s1
            end in
  match optSetupCode options with
  | Some code => if JS.truthy code then executeCode code s2 else s2
  | None => s2
  end.

End LocalSession.
(* ===================================================================== *)
(** * Notions the properties are stated with, and example inputs *)
(* ===================================================================== *)


(** No registered model answers to the name a request carries: it carries
    none, or the empty name, or a name nothing is registered under. *)
Definition noRegisteredName (h : LMHandler.t) (modelName : option string) : Prop :=
  match modelName with
  | Some name => name = "" ∨ LMHandler.models h !! name = None
  | None => True
  end.

(** A sub-model registered under the empty name, as [completion] registers
    a sub-model under its [modelId] *)
Definition rootAdapter : LanguageModelV1 := mkModel "openai" "gpt-root".
Definition namelessAdapter : LanguageModelV1 := mkModel "custom" "".
Definition namelessRouter : LMHandler.t :=
  LMHandler.registerModel (modelId namelessAdapter) namelessAdapter
    (LMHandler.new rootAdapter (Some namelessAdapter)).


(** [c.repeat(n)] *)
Fixpoint repeatChar (n : nat) (c : ascii) : string :=
  match n with
  | 0 => EmptyString
  | S n' => String c (repeatChar n' c)
  end.

(** A code block whose source has [codeLength] characters and whose run
    printed [printed] characters *)
Definition noisyBlock (codeLength printed : nat) : CodeBlock :=
  mkCodeBlock (repeatChar codeLength "a")
              (mkREPLResult (repeatChar printed "x") "" [] []).

(** A response carries no terminating marker when neither pattern of
    [findFinalAnswer] finds a match in it. *)
Definition noMarker (response : string) : Prop :=
  Regex.exec finalVarPattern None response = None
  ∧ Regex.exec finalPattern None response = None.

(** The LM always answers, and never with a terminating marker. *)
Definition neverEmitsMarker (lm : LM) : Prop :=
  ∀ k model messages, ∃ r, lm k model messages = Ok r ∧ noMarker (text r).

(** The iteration entries of a log, in order *)
Fixpoint iterationEntries (es : list LogEntry) : list RLMIteration :=
  match es with
  | [] => []
  | IterationEntry _ it :: rest => it :: iterationEntries rest
  | MetadataEntry _ :: rest => iterationEntries rest
  end.

(** The metadata entries of a log, in order *)
Fixpoint metadataEntries (es : list LogEntry) : list RLMMetadata :=
  match es with
  | [] => []
  | MetadataEntry m :: rest => m :: metadataEntries rest
  | IterationEntry _ _ :: rest => metadataEntries rest
  end.

(** The iterations and the metadata records the console shows, in order *)
Fixpoint printedIterations (ps : list PrintEvent) : list RLMIteration :=
  match ps with
  | [] => []
  | PrintedIteration it _ :: rest => it :: printedIterations rest
  | _ :: rest => printedIterations rest
  end.

Fixpoint printedMetadata (ps : list PrintEvent) : list RLMMetadata :=
  match ps with
  | [] => []
  | PrintedMetadata m :: rest => m :: printedMetadata rest
  | _ :: rest => printedMetadata rest
  end.

(** The address the router of a completion listens on *)
Definition routerAddress (osPort : nat) : Address := mkAddress "127.0.0.1" osPort.

(** A sandbox can be had for a completion: the persistent one is still
    held, or the factory succeeds. *)
Definition sandboxReady {SB : Type} (sbx : SandboxImpl SB) (this : RLM.t)
           (payload : ContextPayload) (osPort : nat) (w : World SB) : Prop :=
  if RLM.persistent this && persistentSandbox w
  then is_Some (sandbox w)
  else ∃ sb,
      createSandbox sbx (RLM.sandboxType this)
        (mkSandboxOptions (RLM.sandboxKwargs this) (routerAddress osPort) payload
                          (RLM.depth this + 1)) = Ok sb.

(** What [formatIteration] appends to the history for an iteration *)
Definition render (it : RLMIteration) : list Message :=
  formatIteration it defaultMaxCharacterLength.

(** The record [defaultAnswer] logs for the epilogue call *)
Definition epilogueRecord (history : list Message) (answer : string) : RLMIteration :=
  mkIteration (history ++ [epilogueRequest]) answer [] (Some answer).

(** A sandbox for examples: it remembers the code it was given and prints
    a line for each run. *)
Definition echoSandbox : SandboxImpl (list string) :=
  mkSandboxImpl (list string)
    (λ _ _, Ok [])
    (λ sb code, (Sync (mkREPLResult ("ran " +:+ code) "" [] []), sb ++ [code]))
    (λ sb, sb)
    (λ _, false)
    (λ sb _, sb)
    (λ sb _, sb)
    (λ _, 1)
    (λ sb _, sb)
    (λ _, 0).

(** An LM for examples: it never concludes. *)
Definition ponderingLM : LM := λ _ _ _, Ok (mkGenerated "Let me think." None).

(** Drivers for examples: two iterations, with and without observers *)
Definition observedConfig : RLMConfig :=
  mkConfig rootAdapter None None None None None (Some 2) None true (Some true) None.

Definition unobservedConfig : RLMConfig :=
  mkConfig rootAdapter None None None None None (Some 2) None false None None.

(** Construct a driver in a fresh world and run one completion. *)
Definition constructAndComplete (lm : LM) (config : RLMConfig)
  : Outcome (RLMChatCompletion ContextPayload) * World (list string) :=
  (this ← RLM.new "system prompt" config;
   RLM.completion lm echoSandbox 4096 this (CtxText "hello") (Some "Say bye"))
    initialWorld.

(** What a stretch of a run may do to the world, as far as the router, the
    adapter invocations, the log and the console go: the router keeps its
    default model [root]; adapter invocations are only added, and while the
    router stands they go to [root]; log entries and console events are only
    added, and none of them is a metadata record. *)
Definition routerOf {SB : Type} (root : LanguageModelV1) (w : World SB) : Prop :=
  ∃ h, router w = Some h ∧ LMHandler.defaultModel h = root.

Definition advances {SB : Type} (root : LanguageModelV1) (w w' : World SB) : Prop :=
  (routerOf root w → routerOf root w')
  ∧ (∃ calls, lmCalls w' = lmCalls w ++ calls
              ∧ (routerOf root w → Forall (λ c, c.1 = root) calls))
  ∧ (∃ es, RLMLogger.entries (logger w') = RLMLogger.entries (logger w) ++ es
           ∧ metadataEntries es = [])
  ∧ (∃ ps, console w' = console w ++ ps ∧ printedMetadata ps = []).

(** A computation all of whose runs, finished or thrown, advance the world *)
Definition safe {SB A : Type} (root : LanguageModelV1) (m : M SB A) : Prop :=
  ∀ w r w', m w = (r, w') → advances root w w'.

(** The driver [new RLM(observedConfig)] builds *)
Definition observedDriver : RLM.t :=
  RLM.mk rootAdapter None local ∅ 0 1 2 "system prompt" true true false.

(** Construct a driver in a fresh world and run two completions on it. *)
Definition constructAndCompleteTwice (lm : LM) (config : RLMConfig)
  : Outcome (RLMChatCompletion ContextPayload) * World (list string) :=
  (this ← RLM.new "system prompt" config;
   _ ← RLM.completion lm echoSandbox 4096 this (CtxText "hello") (Some "Say bye");
   RLM.completion lm echoSandbox 4097 this (CtxText "again") (Some "Say hi"))
    initialWorld.

(** The metadata records a world shows to any observer *)
Definition emittedMetadata {SB : Type} (w : World SB) : list RLMMetadata :=
  metadataEntries (RLMLogger.entries (logger w)) ++ printedMetadata (console w).

(** Every code unit of a string is in a class. *)
Fixpoint allChars (cls : ascii → bool) (s : string) : bool :=
  match s with
  | EmptyString => true
  | String c s' => cls c && allChars cls s'
  end.

(** The code unit a position has before it, after reading [s] from a
    position that had [prev] before it *)
Fixpoint lastCodeUnit (prev : option ascii) (s : string) : option ascii :=
  match s with
  | EmptyString => prev
  | String c s' => lastCodeUnit (Some c) s'
  end.

(** What comes [before] ends a line: it is empty or ends in a line
    terminator. *)
Definition endsLine (before : string) : Prop :=
  Regex.atLineStart (lastCodeUnit None before) = true.

(** The text has a line whose leading non-whitespace is [FINAL_VAR(...)]. *)
Definition hasFinalVarLine (text : string) : Prop :=
  ∃ before indent argument after,
    text = before +:+ indent +:+ "FINAL_VAR(" +:+ argument +:+ ")" +:+ after
    ∧ endsLine before
    ∧ allChars JS.isWhiteSpace indent = true
    ∧ allChars Regex.notLineTerminator argument = true.

(** The text has a line matching [FINAL(...)]: the marker at the start of
    the line after whitespace, its closing parenthesis at the end of a line
    before whitespace. *)
Definition hasFinalLine (text : string) : Prop :=
  ∃ before indent answer trailing after,
    text = before +:+ indent +:+ "FINAL(" +:+ answer +:+ ")" +:+ trailing +:+ after
    ∧ endsLine before
    ∧ allChars JS.isWhiteSpace indent = true
    ∧ allChars JS.isWhiteSpace trailing = true
    ∧ Regex.atLineEnd after = true.

(** A fenced block tagged [repl]: the tag, whitespace, a line break, the
    content, a line break, the closing fence. *)
Definition closingFence : string := JS.nl +:+ BT3.

Definition fence (tagSpace content : string) : string :=
  "```repl" +:+ tagSpace +:+ JS.nl +:+ content +:+ closingFence.

(** A fenced block with the text before it *)
Record FencedBlock : Type := mkFenced {
  noiseBefore : string;
  tagSpace : string;
  inner : string
}.

(** The text made of fenced blocks, each after its noise, and a last
    stretch of noise *)
Fixpoint document (blocks : list FencedBlock) (tail : string) : string :=
  match blocks with
  | [] => tail
  | b :: rest =>
      noiseBefore b +:+ fence (tagSpace b) (inner b) +:+ document rest tail
  end.

(** No [```repl] tag begins in the noise, not even one that would run on
    into the tag of the fence after it. *)
Definition quiet (noise : string) : Prop :=
  JS.includes (noise +:+ "```rep") "```repl" = false.

(** The content of a fence: some character of it is not whitespace, and no
    line of it after the first begins with three backticks. *)
Definition plainContent (content : string) : Prop :=
  allChars JS.isWhiteSpace content = false
  ∧ JS.includes content closingFence = false.

Definition wellFormed (b : FencedBlock) : Prop :=
  quiet (noiseBefore b)
  ∧ allChars JS.isWhiteSpace (tagSpace b) = true
  ∧ plainContent (inner b).

(** The part of a string after its last line feed, when it has one *)
Fixpoint afterLastLF (s : string) : option string :=
  match s with
  | EmptyString => None
  | String c s' =>
      match afterLastLF s' with
      | Some u => Some u
      | None => if Ascii.eqb c JS.LF then Some s' else None
      end
  end.

(** Two fences, the first with an empty line for content *)
Definition blankThenCode : string :=
  fence "" "" +:+ JS.nl +:+ fence "" "x = 1".

(** The router a completion starts: the sub-model registered under its
    name, listening on the port the operating system assigned *)
Definition freshRouter (osPort : nat) (this : RLM.t) : LMHandler.t :=
  LMHandler.start osPort
    (match RLM.subModel this with
     | Some s => LMHandler.registerModel (modelId s) s
                   (LMHandler.new (RLM.model this) (RLM.subModel this))
     | None => LMHandler.new (RLM.model this) (RLM.subModel this)
     end).

(** What follows the tag and its whitespace in the pattern *)
Definition afterTag : Regex.pattern :=
  [ Regex.Lit JS.nl; Regex.Rep true false Regex.any; Regex.Lit closingFence ].

Definition backtick : ascii := "`"%char.

(** A continuation of the matcher that never gives back more text than it
    was given *)
Definition shrinking (k : option ascii → string → string → option Regex.found) : Prop :=
  ∀ prev s cap captured prev' rest,
    k prev s cap = Some (captured, prev', rest) → String.length rest ≤ String.length s.

(** One call of [UsageTracker.track] *)
Record TrackedCall : Type := mkTracked {
  tcModel : string;
  tcInput : nat;
  tcOutput : nat
}.

(** A tracker after a run of [track] calls *)
Definition trackCalls (calls : list TrackedCall) (u : UsageTracker.t) : UsageTracker.t :=
  foldl (λ u c, UsageTracker.track (tcModel c) (tcInput c) (tcOutput c) u) u calls.


(** One call of a method of [RLMLogger] *)
Inductive LoggerCall : Type :=
| CallLogMetadata (m : RLMMetadata)
| CallLog (it : RLMIteration).

Definition callLogger (l : RLMLogger.t) (c : LoggerCall) : RLMLogger.t :=
  match c with
  | CallLogMetadata m => RLMLogger.logMetadata m l
  | CallLog it => RLMLogger.log it l
  end.

Definition loggedIterations (calls : list LoggerCall) : list RLMIteration :=
  omap (λ c, match c with CallLog it => Some it | _ => None end) calls.

Definition loggedMetadata (calls : list LoggerCall) : list RLMMetadata :=
  omap (λ c, match c with CallLogMetadata m => Some m | _ => None end) calls.

(** The [iteration] numbers of the iteration entries of a log, in order *)
Fixpoint iterationNumbers (es : list LogEntry) : list nat :=
  match es with
  | [] => []
  | IterationEntry n _ :: rest => n :: iterationNumbers rest
  | MetadataEntry _ :: rest => iterationNumbers rest
  end.



(** The adapter invocations a batch of prompts makes on a model *)
Definition batchCalls (model : LanguageModelV1) (prompts : list Prompt)
  : list (LanguageModelV1 * list Message) :=
  (λ p, (model, LMHandler.normalisePrompt p)) <$> prompts.

(** What the adapter answers to the prompts of a batch dispatched after
    [before] earlier invocations *)
Definition batchOutcomes (lm : LM) (before : nat) (model : LanguageModelV1)
           (prompts : list Prompt) : list (Outcome GenerateResult) :=
  imap (λ i p, lm (before + i) model (LMHandler.normalisePrompt p)) prompts.

(** The [track] call made for a result *)
Definition trackedAs (modelId : string) (r : GenerateResult) : TrackedCall :=
  mkTracked modelId (inputTokensOf r) (outputTokensOf r).

(** The router of a world with another tracker *)
Definition routerTracking {SB : Type} (h : LMHandler.t) (u : UsageTracker.t)
           (w : World SB) : World SB :=
  withRouter (Some (LMHandler.withTracker u h)) w.

(** The one message [fallbackAnswer] sends for a payload *)
Definition fallbackMessages (payload : ContextPayload) : list Message :=
  [mkMessage user
     match payload with
     | CtxText s => s
     | CtxList items => JSON_stringify (JArr items)
     | CtxDict fields => JSON_stringify (JObj fields)
     end].

(** The options [completion] creates a sandbox with *)
Definition sandboxOptionsOf (this : RLM.t) (payload : ContextPayload) (osPort : nat)
  : SandboxOptions :=
  mkSandboxOptions (RLM.sandboxKwargs this) (routerAddress osPort) payload
                   (RLM.depth this + 1).

(** A backend for examples whose factory throws *)
Definition unavailableSandbox : SandboxImpl (list string) :=
  mkSandboxImpl (list string)
    (λ _ _, Throw "docker: not found")
    (executeCode echoSandbox) (cleanup echoSandbox) (supportsPersistence echoSandbox)
    (updateHandlerAddress echoSandbox) (addContext echoSandbox)
    (getContextCount echoSandbox) (addHistory echoSandbox)
    (getHistoryCount echoSandbox).

(** The router and the sandbox of the running completion are there. *)
Definition standing {SB : Type} (w : World SB) : Prop :=
  is_Some (router w) ∧ is_Some (sandbox w).

(** A computation none of whose runs, finished or thrown, loses the router
    or the sandbox *)
Definition keeps {SB A : Type} (m : M SB A) : Prop :=
  ∀ w r w', m w = (r, w') → standing w → standing w'.







(** What may stand between the parentheses of a FINAL_VAR marker: no
    closing parenthesis and no line terminator *)
Definition argumentChar (c : ascii) : bool :=
  Regex.notLineTerminator c && negb (Ascii.eqb c ")").

(** The first and the last code unit of a string are no quotes. *)
Definition unquoted (s : string) : Prop :=
  match s with
  | String c _ => isQuote c = false
  | EmptyString => True
  end
  ∧ match lastCodeUnit None s with
    | Some c => isQuote c = false
    | None => True
    end.

(** The answer [findFinalAnswer] reads off what the sandbox returned for
    the FINAL_VAR program *)
Definition answerOf (ret : ExecReturn) : option string :=
  match ret with
  | Sync res =>
      Some (if String.eqb (JS.trim (stdout res)) ""
            then JS.trim (stderr res)
            else JS.trim (stdout res))
  | Async _ => None
  end.




(** A property name the reader of object literals takes as it stands:
    no escape in it, and not an array index *)
Definition plainKey (key : string) : Prop :=
  (∀ rest, JSONText.stringBody (key +:+ JS.dq +:+ rest) = Decoded (key, rest))
  ∧ JSONText.allDigits key && JS.truthy key = false.

(** What the reader of object literals does after a member *)
Definition afterMember (fuel : nat) (key : string) (v : JSON)
           (acc : list (string * JSON)) (s : string) : Decode (JSON * string) :=
  match JSONText.skipSpace s with
  | String e rest =>
      if Ascii.eqb e ","%char
      then JSONText.members fuel rest (JSONText.setField key v acc)
      else if Ascii.eqb e "}"%char
           then Decoded (JObj (JSONText.setField key v acc), rest)
           else Fails
  | EmptyString => Fails
  end.

(** Python's [json.dumps] of a string with its default [ensure_ascii]: the
    escapes of [JSON.stringify], and every code unit from 0x7f on written
    as a [\u00XX] escape. *)
Definition dumpsChar (c : ascii) : string :=
  let n := JS.code c in
  if (127 <=? n)%N
  then "\u00" +:+ String (hexDigit (n / 16)) (String (hexDigit (n mod 16)) "")
  else escapeChar c.

Fixpoint dumpsBody (s : string) : string :=
  match s with
  | EmptyString => EmptyString
  | String c s' => dumpsChar c +:+ dumpsBody s'
  end.

Definition json_dumps_string (s : string) : string :=
  JS.dq +:+ dumpsBody s +:+ JS.dq.

(** The JSON text of the request the runner script posts for
    [llm_query(prompt)] at depth 1: [{"prompt": prompt, "model": null,
    "depth": 1}] *)
Definition queryBody (prompt : string) : string :=
  "{" +:+ JS.dq +:+ "prompt" +:+ JS.dq +:+ ": " +:+ json_dumps_string prompt
  +:+ ", " +:+ JS.dq +:+ "model" +:+ JS.dq +:+ ": null, "
  +:+ JS.dq +:+ "depth" +:+ JS.dq +:+ ": 1}".

(** The model that serves sub-LM calls: the sub-model when the driver has
    one, else the root model *)
Definition subLM (this : RLM.t) : LanguageModelV1 :=
  default (RLM.model this) (RLM.subModel this).

(** One call of a method of a [LocalSandbox], the indices left to the
    sandbox *)
Inductive SessionCall : Type :=
| CallAddContext (payload : ContextPayload)
| CallAddHistory (messageHistory : list Message)
| CallExecuteCode (code : string)
| CallUpdateHandlerAddress (address : Address).

Definition callSession (s : LocalSession.t) (c : SessionCall) : LocalSession.t :=
  match c with
  | CallAddContext payload => (LocalSession.addContext payload None s).2
  | CallAddHistory ms => (LocalSession.addHistory ms None s).2
  | CallExecuteCode code => LocalSession.executeCode code s
  | CallUpdateHandlerAddress a => LocalSession.updateHandlerAddress a s
  end.

Definition contextsAdded (calls : list SessionCall) : list ContextPayload :=
  omap (λ c, match c with CallAddContext p => Some p | _ => None end) calls.

Definition historiesAdded (calls : list SessionCall) : list (list Message) :=
  omap (λ c, match c with CallAddHistory ms => Some ms | _ => None end) calls.

(** The number of runs in a trace that bind the plain name [var] to
    [var_0] *)
Fixpoint aliasRuns (var : string) (es : list LocalSession.Effect) : nat :=
  match es with
  | [] => 0
  | LocalSession.Ran _ code :: rest =>
      (if String.eqb code (var +:+ " = " +:+ var +:+ "_0") then 1 else 0)
      + aliasRuns var rest
  | LocalSession.WroteFile _ _ :: rest => aliasRuns var rest
  end.

(** The calls of the persistence protocol: no code of the caller's is run *)
Definition protocolCall (c : SessionCall) : Prop :=
  match c with
  | CallExecuteCode _ => False
  | _ => True
  end.

(** The contexts a sandbox holds after its construction *)
Definition initialContexts (options : LocalSession.Options) : nat :=
  match LocalSession.optContextPayload options with
  | Some _ => 1
  | None => 0
  end.

(** A computation none of whose runs, finished or thrown, changes whether
    the driver holds a persistent sandbox *)
Definition steady {SB A : Type} (m : M SB A) : Prop :=
  ∀ w r w', m w = (r, w') → persistentSandbox w' = persistentSandbox w.


(** A sandbox for examples that supports persistence: like [echoSandbox],
    and it remembers the contexts it was given. *)
Definition keepingSandbox : SandboxImpl (list string) :=
  mkSandboxImpl (list string)
    (λ _ _, Ok [])
    (λ sb code, (Sync (mkREPLResult ("ran " +:+ code) "" [] []), sb ++ [code]))
    (λ sb, sb)
    (λ _, true)
    (λ sb _, sb)
    (λ sb _, sb ++ ["context"])
    (λ sb, length (filter (λ line, line = "context") sb))
    (λ sb _, sb)
    (λ _, 0).

(** A persistent driver for examples *)
Definition persistentDriver : RLM.t :=
  RLM.mk rootAdapter None local ∅ 0 1 2 "system prompt" true true true.

(** A world in which a driver holds the sandbox of an earlier completion *)
Definition holdingWorld : World (list string) :=
  withPersistentSandbox true (withSandbox (Some ["x = 1"]) initialWorld).
(* ===================================================================== *)
(** * Properties *)
(* ===================================================================== *)

(** ** Strings *)

Section StringFacts.

Lemma app_nil_l_str (s : string) : "" +:+ s = s.
Proof. reflexivity. Qed.

Lemma app_cons_str (c : ascii) (s t : string) :
  String c s +:+ t = String c (s +:+ t).
Proof. reflexivity. Qed.

Lemma app_nil_r_str (s : string) : s +:+ "" = s.
Proof. induction s as [|c s IH]; [done|]. by rewrite app_cons_str, IH. Qed.

Lemma app_assoc_str (s t u : string) : (s +:+ t) +:+ u = s +:+ t +:+ u.
Proof.
  induction s as [|c s IH]; [done|]. by rewrite !app_cons_str, IH.
Qed.

Lemma length_app_str (s t : string) :
  String.length (s +:+ t) = String.length s + String.length t.
Proof.
  induction s as [|c s IH]; [done|]. rewrite app_cons_str. simpl. by rewrite IH.
Qed.

Lemma length_slice0 (n : nat) (s : string) :
  n ≤ String.length s → String.length (JS.slice0 n s) = n.
Proof.
  revert s. induction n as [|n IH]; intros [|c s] Hn; simpl in *; try done; try lia.
  rewrite IH; [done|lia].
Qed.

Lemma slice0_app (s t : string) : JS.slice0 (String.length s) (s +:+ t) = s.
Proof.
  induction s as [|c s IH]; [by destruct t|].
  rewrite app_cons_str. simpl. by rewrite IH.
Qed.

End StringFacts.

(** ** C8: the sensitive-key filter *)




(** The bag of scenario S5 *)
Example filterSensitiveKeys_scenario :
  filterSensitiveKeys
    (<["image" := JStr "x"]> (<["api_key" := JStr "k"]>
       (<["AUTH_TOKEN" := JStr "t"]> (<["note" := JStr "ok"]> ∅))))
  = <["image" := JStr "x"]> (<["note" := JStr "ok"]> ∅).
Proof. by vm_compute. Qed.

(** ** C9: the last usage of a fresh tracker *)

(** C9.  On a router that has tracked no call, [getLastUsage] answers one
    call with zero input and zero output tokens: the very summary it
    answers after a call that consumed no tokens, whatever was tracked
    before and whatever the model was. *)
Theorem getLastUsage_before_any_call
        (defaultModel : LanguageModelV1) (subModel : option LanguageModelV1)
        (model : string) (u : UsageTracker.t) :
  LMHandler.getLastUsage (LMHandler.new defaultModel subModel) = mkModelUsage 1 0 0
  ∧ UsageTracker.getLastUsage (UsageTracker.track model 0 0 u)
    = LMHandler.getLastUsage (LMHandler.new defaultModel subModel)
  ∧ modelUsageSummaries
      (LMHandler.getUsageSummary (LMHandler.new defaultModel subModel)) = ∅.
Proof. done. Qed.

(** ** C5: the model of a hook request *)


Lemma handleSingle_invokes (SB : Type) (lm : LM) (data : SingleRequest)
      (w : World SB) (h : LMHandler.t) :
  router w = Some h →
  lmCalls (handleSingle lm data w).2
  = lmCalls w ++ [(hookModel h (reqModel data) (reqDepth data),
                   LMHandler.normalisePrompt (reqPrompt data))].
Proof.
  intros Hr. unfold handleSingle, mbind, M_bind, theRouter, generateText.
  rewrite Hr. simpl.
  destruct (lm _ _ _) as [res|e]; [|done].
  unfold track, mbind, M_bind, theRouter. simpl. rewrite Hr. done.
Qed.


(** C5, as stated, fails: a model registered under the empty name is not
    the one a request naming it is served with. *)
Lemma empty_model_name_is_not_looked_up :
  ¬ (∀ (h : LMHandler.t) (name : string) (depth : option nat) (m : LanguageModelV1),
       LMHandler.models h !! name = Some m →
       hookModel h (Some name) depth = m).
Proof.
  intros claim.
  specialize (claim namelessRouter "" (Some 0) namelessAdapter eq_refl).
  vm_compute in claim. discriminate claim.
Qed.

(** C5, amended.  A hook request is served with: the model registered
    under the name it carries, when that name is not empty and a model is
    registered under it; otherwise the sub-model, when the request's depth
    is 1 and the driver supplied a sub-model; otherwise the default model.
    [handleSingle] invokes the adapter so selected. *)
Theorem hook_model_selection (SB : Type) (lm : LM) (h : LMHandler.t)
        (data : SingleRequest) (w : World SB) :
  let chosen := hookModel h (reqModel data) (reqDepth data) in
  (∀ name m, reqModel data = Some name → name ≠ "" →
             LMHandler.models h !! name = Some m → chosen = m)
  ∧ (∀ s, noRegisteredName h (reqModel data) → reqDepth data = Some 1 →
          LMHandler.subModel h = Some s → chosen = s)
  ∧ (noRegisteredName h (reqModel data) →
     reqDepth data ≠ Some 1 ∨ LMHandler.subModel h = None →
     chosen = LMHandler.defaultModel h)
  ∧ (router w = Some h →
     lmCalls (handleSingle lm data w).2
     = lmCalls w ++ [(chosen, LMHandler.normalisePrompt (reqPrompt data))]).
Proof.
  cbv zeta. unfold hookModel, LMHandler.getModel, noRegisteredName.
  repeat split.
  - intros name m -> Hne Hm. destruct name; [done|]. simpl. by rewrite Hm.
  - intros s Hno -> Hs. simpl. rewrite Hs.
    destruct (reqModel data) as [name|]; [|done].
    destruct Hno as [->|Hno]; [done|]. rewrite Hno. by destruct (JS.truthy name).
  - intros Hno Hd.
    assert ((match reqModel data with
             | Some name => if JS.truthy name then LMHandler.models h !! name else None
             | None => None
             end) = None) as ->.
    { destruct (reqModel data) as [name|]; [|done].
      destruct Hno as [->|Hno]; [done|]. rewrite Hno. by destruct (JS.truthy name). }
    destruct Hd as [Hd| ->].
    + destruct (reqDepth data) as [[|[|d]]|]; simpl; try done.
    + by destruct (default 0 (reqDepth data) =? 1).
  - apply handleSingle_invokes.
Qed.

(** ** C3: the result of a failed parse *)




(** ** C2: the clamp of a rendered execution result *)

Lemma length_repeatChar (n : nat) (c : ascii) : String.length (repeatChar n c) = n.
Proof. induction n as [|n IH]; simpl; [done|by rewrite IH]. Qed.

Lemma length_codeMessageHead : String.length codeMessageHead = 25.
Proof. reflexivity. Qed.

Lemma length_codeMessageMid : String.length codeMessageMid = 19.
Proof. reflexivity. Qed.

Lemma length_elidedSuffix (n : nat) :
  String.length (elidedSuffix n) = 17 + String.length (JS.numberToString n).
Proof.
  unfold elidedSuffix. rewrite !length_app_str.
  change (String.length "... + [") with 7.
  change (String.length " chars...]") with 10. lia.
Qed.

Lemma clampResult_cuts (maxCharacterLength : nat) (rendered : string) :
  maxCharacterLength < String.length rendered →
  clampResult maxCharacterLength rendered
  = JS.slice0 maxCharacterLength rendered +:+
    elidedSuffix (String.length rendered - maxCharacterLength).
Proof.
  intros Hlt. unfold clampResult.
  by destruct (Nat.ltb_spec maxCharacterLength (String.length rendered)); [|lia].
Qed.

Lemma length_clamped_message (maxCharacterLength : nat) (b : CodeBlock) :
  maxCharacterLength < String.length (formatExecutionResult (result b)) →
  String.length (content (codeBlockMessage maxCharacterLength b))
  = maxCharacterLength
    + (String.length (code b) + 61
       + String.length (JS.numberToString
           (String.length (formatExecutionResult (result b)) - maxCharacterLength))).
Proof.
  intros Hlt. unfold codeBlockMessage. cbn [content].
  rewrite clampResult_cuts by done.
  rewrite !length_app_str, length_slice0 by lia.
  rewrite length_elidedSuffix, length_codeMessageHead, length_codeMessageMid. lia.
Qed.

Lemma formatExecutionResult_noisy (codeLength printed : nat) :
  formatExecutionResult (result (noisyBlock codeLength (S printed)))
  = JS.nl +:+ repeatChar (S printed) "x".
Proof. reflexivity. Qed.

(** C2, as stated, fails: the user-role message also carries the source of
    the code block, so no constant bounds its length beyond the 20 000
    characters kept of the rendering. *)
Lemma clamped_message_has_no_constant_bound :
  ¬ (∃ suffix : nat, ∀ b : CodeBlock,
       defaultMaxCharacterLength < String.length (formatExecutionResult (result b)) →
       String.length (content (codeBlockMessage defaultMaxCharacterLength b))
       ≤ defaultMaxCharacterLength + suffix).
Proof.
  intros [suffix claim].
  assert (Hmax : ∃ n, defaultMaxCharacterLength = S n).
  { exists (Z.to_nat 19999). unfold defaultMaxCharacterLength. lia. }
  destruct Hmax as [n Hn].
  pose (b := noisyBlock suffix defaultMaxCharacterLength).
  assert (Hlen : String.length (formatExecutionResult (result b))
                 = S defaultMaxCharacterLength).
  { unfold b. rewrite Hn, formatExecutionResult_noisy, length_app_str.
    by rewrite length_repeatChar. }
  assert (Hlt : defaultMaxCharacterLength
                < String.length (formatExecutionResult (result b))) by lia.
  specialize (claim b Hlt).
  rewrite length_clamped_message in claim by done.
  assert (String.length (code b) = suffix) by apply length_repeatChar.
  lia.
Qed.

(** C2, amended.  For every executed code block whose rendered result
    exceeds 20 000 characters, the user-role message of [formatIteration] is
    the fixed framing around the block's source, then the first 20 000
    characters of the rendering, then the suffix [... + [N chars...]] where
    [N], in decimal, is the number of characters cut off.  Its length is
    20 000 plus the length of the source, 61 and the number of digits of
    [N]. *)
Theorem formatIteration_clamps_rendering
        (iteration : RLMIteration) (i : nat) (b : CodeBlock) :
  codeBlocks iteration !! i = Some b →
  defaultMaxCharacterLength < String.length (formatExecutionResult (result b)) →
  let rendered := formatExecutionResult (result b) in
  let elided := String.length rendered - defaultMaxCharacterLength in
  ∃ message,
    formatIteration iteration defaultMaxCharacterLength !! S i = Some message
    ∧ role message = user
    ∧ content message
      = codeMessageHead +:+ code b +:+ codeMessageMid +:+
        JS.slice0 defaultMaxCharacterLength rendered +:+
        "... + [" +:+ JS.numberToString elided +:+ " chars...]"
    ∧ String.length (content message)
      = defaultMaxCharacterLength
        + (String.length (code b) + 61 + String.length (JS.numberToString elided)).
Proof.
  intros Hb Hlt. cbv zeta.
  exists (codeBlockMessage defaultMaxCharacterLength b). repeat split.
  - unfold formatIteration. simpl. by rewrite list_lookup_fmap, Hb.
  - unfold codeBlockMessage. cbn [content]. by rewrite clampResult_cuts.
  - by apply length_clamped_message.
Qed.

Lemma formatIteration_clamps_rendering_witness :
  let b := noisyBlock 3 (S defaultMaxCharacterLength) in
  let iteration := mkIteration [] "thinking" [b] None in
  let rendered := formatExecutionResult (result b) in
  let elided := String.length rendered - defaultMaxCharacterLength in
  ∃ message,
    formatIteration iteration defaultMaxCharacterLength !! 1 = Some message
    ∧ role message = user
    ∧ content message
      = codeMessageHead +:+ code b +:+ codeMessageMid +:+
        JS.slice0 defaultMaxCharacterLength rendered +:+
        "... + [" +:+ JS.numberToString elided +:+ " chars...]"
    ∧ String.length (content message)
      = defaultMaxCharacterLength
        + (String.length (code b) + 61 + String.length (JS.numberToString elided)).
Proof.
  intros b iteration.
  apply (formatIteration_clamps_rendering iteration 0 b).
  - reflexivity.
  - unfold b. rewrite formatExecutionResult_noisy, length_app_str, length_repeatChar.
    change (String.length JS.nl) with 1. lia.
Defined.

(** ** The driver: traces *)

Section Traces.

Lemma iterationEntries_app (es1 es2 : list LogEntry) :
  iterationEntries (es1 ++ es2) = iterationEntries es1 ++ iterationEntries es2.
Proof.
  induction es1 as [|[m|n it] es1 IH]; simpl; [done|done|by rewrite IH].
Qed.

Lemma metadataEntries_app (es1 es2 : list LogEntry) :
  metadataEntries (es1 ++ es2) = metadataEntries es1 ++ metadataEntries es2.
Proof.
  induction es1 as [|[m|n it] es1 IH]; simpl; [done|by rewrite IH|done].
Qed.

Lemma printedMetadata_app (ps1 ps2 : list PrintEvent) :
  printedMetadata (ps1 ++ ps2) = printedMetadata ps1 ++ printedMetadata ps2.
Proof.
  induction ps1 as [|[] ps1 IH]; simpl; rewrite ?IH; done.
Qed.

Lemma printedIterations_app (ps1 ps2 : list PrintEvent) :
  printedIterations (ps1 ++ ps2) = printedIterations ps1 ++ printedIterations ps2.
Proof.
  induction ps1 as [|[] ps1 IH]; simpl; rewrite ?IH; done.
Qed.

Lemma printedIterations_imap (f : nat → nat) (its : list RLMIteration) :
  printedIterations (imap (λ k it, PrintedIteration it (f k)) its) = its.
Proof.
  revert f. induction its as [|it its IH]; intros f; [done|].
  simpl. f_equal. apply (IH (f ∘ S)).
Qed.

Lemma printedMetadata_imap (f : nat → nat) (its : list RLMIteration) :
  printedMetadata (imap (λ k it, PrintedIteration it (f k)) its) = [].
Proof.
  revert f. induction its as [|it its IH]; intros f; [done|].
  simpl. apply (IH (f ∘ S)).
Qed.

Lemma entries_log (it : RLMIteration) (l : RLMLogger.t) :
  RLMLogger.entries (RLMLogger.log it l)
  = RLMLogger.entries l ++ [IterationEntry (S (RLMLogger.iterationCount l)) it].
Proof. reflexivity. Qed.

Lemma count_log (it : RLMIteration) (l : RLMLogger.t) :
  RLMLogger.getIterationCount (RLMLogger.log it l) = S (RLMLogger.getIterationCount l).
Proof. reflexivity. Qed.

Lemma entries_foldl_log (its : list RLMIteration) (l : RLMLogger.t) :
  iterationEntries (RLMLogger.entries (foldl (λ l it, RLMLogger.log it l) l its))
  = iterationEntries (RLMLogger.entries l) ++ its
  ∧ metadataEntries (RLMLogger.entries (foldl (λ l it, RLMLogger.log it l) l its))
    = metadataEntries (RLMLogger.entries l)
  ∧ RLMLogger.getIterationCount (foldl (λ l it, RLMLogger.log it l) l its)
    = RLMLogger.getIterationCount l + length its.
Proof.
  revert l. induction its as [|it its IH]; intros l; simpl.
  - rewrite app_nil_r. split; [done|split; [done|lia]].
  - destruct (IH (RLMLogger.log it l)) as (H1 & H2 & H3). rewrite H1, H2, H3.
    rewrite entries_log, count_log, iterationEntries_app, metadataEntries_app. simpl.
    rewrite <- app_assoc, app_nil_r. split; [done|split; [done|lia]].
Qed.

End Traces.

(** ** The driver: running the monad *)
Section RunLemmas.
Context {SB : Type}.

Lemma bind_run {A B} (m : M SB A) (f : A → M SB B) (w : World SB) :
  (m ≫= f) w = match m w with
               | (Ok a, w') => f a w'
               | (Throw e, w') => (Throw e, w')
               end.
Proof. reflexivity. Qed.

Lemma bind_ok {A B} (m : M SB A) (f : A → M SB B) (w w' : World SB) (a : A) :
  m w = (Ok a, w') → (m ≫= f) w = f a w'.
Proof. intros H. by rewrite bind_run, H. Qed.

Variable lm : LM.
Variable sbx : SandboxImpl SB.

Lemma handlerCompletion_ok (ms : list Message) (w : World SB) (h : LMHandler.t)
      (r : GenerateResult) :
  router w = Some h →
  lm (length (lmCalls w)) (LMHandler.defaultModel h) ms = Ok r →
  handlerCompletion lm (PromptMessages ms) None w
  = (Ok (text r),
     withRouter
       (Some (LMHandler.withTracker
                (UsageTracker.track (modelId (LMHandler.defaultModel h))
                   (inputTokensOf r) (outputTokensOf r) (LMHandler.tracker h)) h))
       (withLmCalls (λ calls, calls ++ [(LMHandler.defaultModel h, ms)]) w)).
Proof.
  intros Hr Hlm. unfold handlerCompletion.
  rewrite (bind_ok _ _ w w h) by (unfold theRouter; by rewrite Hr).
  unfold directModel, LMHandler.getModel. simpl.
  rewrite bind_run. unfold generateText at 1. simpl. rewrite Hlm.
  rewrite bind_run. unfold track. rewrite bind_run. unfold theRouter. simpl.
  rewrite Hr. reflexivity.
Qed.

Lemma executeBlocks_ok (codes : list string) (w : World SB) (sb : SB) :
  sandbox w = Some sb →
  ∃ blocks sb',
    RLM.executeBlocks sbx codes w = (Ok blocks, withSandbox (Some sb') w)
    ∧ length blocks = length codes.
Proof.
  revert w sb. induction codes as [|c codes IH]; intros w sb Hsb.
  - exists [], sb. split; [|done]. simpl. unfold mret, M_ret.
    destruct w; simpl in *; by subst.
  - simpl. unfold sandboxExecute.
    destruct (executeCode sbx sb c) as [ret sb1] eqn:Hexec.
    destruct (IH (withSandbox (Some sb1) w) sb1 eq_refl) as (blocks & sb' & Hrun & Hlen).
    exists (mkCodeBlock c (awaited ret) :: blocks), sb'. split; [|simpl; by rewrite Hlen].
    rewrite bind_run, bind_run. unfold theSandbox at 1. rewrite Hsb, Hexec.
    rewrite bind_run. simpl. rewrite bind_run, Hrun. reflexivity.
Qed.

Lemma findFinalAnswer_noMarker (response : string) (b : bool) (w : World SB) :
  noMarker response → findFinalAnswer sbx response b w = (Ok None, w).
Proof.
  intros [Hv Hf]. unfold findFinalAnswer, finalAnswerOf. by rewrite Hv, Hf.
Qed.
End RunLemmas.

Section LoopRun.
Context {SB : Type}.
Variable lm : LM.
Variable sbx : SandboxImpl SB.
Variable this : RLM.t.
Variable payload : ContextPayload.
Variable rootPrompt : option string.




Lemma iterate_without_marker (n i : nat) (hist : list Message) (w : World SB)
      (h : LMHandler.t) (sb : SB) :
  neverEmitsMarker lm → router w = Some h → sandbox w = Some sb →
  ∃ (its : list RLMIteration) (w' : World SB) (h' : LMHandler.t) (sb' : SB),
    RLM.iterate lm sbx this payload rootPrompt n i hist w
    = (Ok (RLM.Exhausted (hist ++ concat (render <$> its))), w')
    ∧ length its = n
    ∧ router w' = Some h'
    ∧ LMHandler.defaultModel h' = LMHandler.defaultModel h
    ∧ sandbox w' = Some sb'
    ∧ persistentSandbox w' = persistentSandbox w
    ∧ logger w' = (if RLM.hasLogger this
                   then foldl (λ l it, RLMLogger.log it l) (logger w) its
                   else logger w)
    ∧ console w' = console w ++
                   (if RLM.verbose this
                    then imap (λ k it, PrintedIteration it (i + k + 1)) its
                    else [])
    ∧ lmCalls w' = lmCalls w ++ ((λ it, (LMHandler.defaultModel h, prompt it)) <$> its)
    ∧ (∀ k it, its !! k = Some it →
         finalAnswer it = None ∧
         ∃ r, lm (length (lmCalls w) + k) (LMHandler.defaultModel h) (prompt it) = Ok r
              ∧ iterResponse it = text r).
Proof.
  intros Hlm. revert i hist w h sb.
  induction n as [|n IH]; intros i hist w h sb Hr Hsb.
  - exists [], w, h, sb. simpl. rewrite !app_nil_r.
    split; [done|]. split; [done|]. split; [done|]. split; [done|].
    split; [done|]. split; [done|].
    split; [by destruct (RLM.hasLogger this)|].
    split; [destruct (RLM.verbose this); by rewrite app_nil_r|].
    split; [done|]. intros k it Hk. by rewrite lookup_nil in Hk.
  - set (cc := if supportsPersistence sbx sb then getContextCount sbx sb else 1).
    set (hc := if supportsPersistence sbx sb then getHistoryCount sbx sb else 0).
    set (turnPrompt := hist ++ [buildUserPrompt rootPrompt i cc hc]).
    destruct (Hlm (length (lmCalls w)) (LMHandler.defaultModel h) turnPrompt)
      as (r & Hcall & Hno).
    pose proof (handlerCompletion_ok lm turnPrompt w h r Hr Hcall) as Hcompl.
    set (w1 := withRouter _ _) in Hcompl.
    destruct (executeBlocks_ok sbx (findCodeBlocks (text r)) w1 sb Hsb)
      as (blocks & sb1 & Hblocks & _).
    set (it := mkIteration turnPrompt (text r) blocks None).
    set (w2 := withSandbox (Some sb1) w1) in Hblocks.
    set (w3 := if RLM.hasLogger this then withLogger (RLMLogger.log it) w2 else w2).
    set (w4 := if RLM.verbose this
               then print (PrintedIteration it (i + 1)) w3 else w3).
    assert (Hstep : RLM.iterate lm sbx this payload rootPrompt (S n) i hist w
                    = RLM.iterate lm sbx this payload rootPrompt n (S i)
                        (hist ++ render it) w4).
    { cbn [RLM.iterate].
      rewrite (bind_ok _ _ w w sb) by (unfold theSandbox; by rewrite Hsb).
      fold cc hc turnPrompt.
      unfold RLM.completionTurn.
      rewrite bind_run, bind_run, Hcompl, bind_run, Hblocks.
      cbn [mret M_ret]. cbn [iterResponse prompt codeBlocks].
      rewrite bind_run, findFinalAnswer_noMarker by done.
      fold it.
      rewrite bind_run. unfold RLM.loggerLog, RLM.verbosePrint.
      assert ((if RLM.hasLogger this
               then modify (withLogger (RLMLogger.log it)) else mret ()) w2
              = (Ok (), w3)) as ->.
      { unfold w3. by destruct (RLM.hasLogger this). }
      rewrite bind_run.
      assert ((if RLM.verbose this
               then modify (print (PrintedIteration it (i + 1))) else mret ()) w3
              = (Ok (), w4)) as ->.
      { unfold w4. by destruct (RLM.verbose this). }
      reflexivity. }
    assert (Hr4 : router w4 = router w1).
    { unfold w4, w3, w2. by destruct (RLM.verbose this), (RLM.hasLogger this). }
    assert (Hs4 : sandbox w4 = Some sb1).
    { unfold w4, w3, w2. by destruct (RLM.verbose this), (RLM.hasLogger this). }
    assert (Hp4 : persistentSandbox w4 = persistentSandbox w).
    { unfold w4, w3, w2, w1. by destruct (RLM.verbose this), (RLM.hasLogger this). }
    assert (Hc4 : lmCalls w4 = lmCalls w ++ [(LMHandler.defaultModel h, turnPrompt)]).
    { unfold w4, w3, w2, w1. by destruct (RLM.verbose this), (RLM.hasLogger this). }
    assert (Hl4 : logger w4 = if RLM.hasLogger this
                              then RLMLogger.log it (logger w) else logger w).
    { unfold w4, w3, w2, w1. by destruct (RLM.verbose this), (RLM.hasLogger this). }
    assert (Hk4 : console w4 = console w ++
                  if RLM.verbose this then [PrintedIteration it (i + 1)] else []).
    { unfold w4, w3, w2, w1.
      destruct (RLM.verbose this), (RLM.hasLogger this); simpl;
        by rewrite ?app_nil_r. }
    unfold w1 in Hr4. simpl in Hr4.
    destruct (IH (S i) (hist ++ render it) w4 _ sb1 Hr4 Hs4)
      as (its & w' & h' & sb' & Hrun & Hlen & Hr' & Hd' & Hs' & Hp' & Hl'
          & Hk' & Hc' & Hresp).
    exists (it :: its), w', h', sb'.
    split; [|split; [|split; [|split; [|split; [|split; [|split; [|split;
            [|split]]]]]]]].
    + rewrite Hstep, Hrun, <- app_assoc. reflexivity.
    + simpl. by rewrite Hlen.
    + done.
    + by rewrite Hd'.
    + done.
    + by rewrite Hp'.
    + rewrite Hl', Hl4. by destruct (RLM.hasLogger this).
    + rewrite Hk', Hk4, <- app_assoc. f_equal.
      destruct (RLM.verbose this); [|done]. simpl.
      rewrite Nat.add_0_r. f_equal. apply imap_ext. intros k x _. simpl.
      f_equal. lia.
    + rewrite Hc', Hc4, <- app_assoc. done.
    + intros [|k] x Hx.
      * simpl in Hx. injection Hx as <-. split; [done|].
        exists r. by rewrite Nat.add_0_r.
      * simpl in Hx. destruct (Hresp k x Hx) as [Hfin (r' & Hr'' & Ht)].
        split; [done|]. exists r'. split; [|done].
        rewrite Hc4, length_app in Hr''. simpl in Hr''.
        by replace (length (lmCalls w) + S k) with (length (lmCalls w) + 1 + k) by lia.
Qed.
End LoopRun.

Section ExhaustedRun.
Context {SB : Type}.
Variable lm : LM.
Variable sbx : SandboxImpl SB.
Variable osPort : nat.
Variable this : RLM.t.
Variable payload : ContextPayload.
Variable rootPrompt : option string.

Lemma freshRouter_defaultModel :
  LMHandler.defaultModel (freshRouter osPort this) = RLM.model this.
Proof. unfold freshRouter. by destruct (RLM.subModel this). Qed.

Lemma freshRouter_address :
  LMHandler.address (freshRouter osPort this) = routerAddress osPort.
Proof. unfold freshRouter. by destruct (RLM.subModel this). Qed.

Lemma acquireSandbox_ready (w : World SB) (h : LMHandler.t) :
  sandboxReady sbx this payload osPort w →
  ∃ w1 sb,
    RLM.acquireSandbox sbx this payload (routerAddress osPort) (withRouter (Some h) w)
    = (Ok (), w1)
    ∧ router w1 = Some h ∧ sandbox w1 = Some sb
    ∧ lmCalls w1 = lmCalls w ∧ logger w1 = logger w ∧ console w1 = console w.
Proof.
  unfold sandboxReady, RLM.acquireSandbox. simpl.
  destruct (RLM.persistent this && persistentSandbox w) eqn:Hp.
  - intros [sb Hsb]. eexists _, _. rewrite bind_run. unfold theSandbox. simpl.
    rewrite Hsb. simpl. repeat split.
  - intros [sb ->]. rewrite bind_run. simpl.
    destruct (RLM.persistent this && supportsPersistence sbx sb);
      eexists _, sb; repeat split.
Qed.

Lemma storeHistory_ok (hist : list Message) (w : World SB) (sb : SB) :
  sandbox w = Some sb →
  ∃ w', RLM.storeHistory sbx this hist w = (Ok (), w')
        ∧ router w' = router w ∧ is_Some (sandbox w')
        ∧ lmCalls w' = lmCalls w ∧ logger w' = logger w ∧ console w' = console w.
Proof.
  intros Hsb. unfold RLM.storeHistory. rewrite bind_run. unfold theSandbox. rewrite Hsb.
  destruct (RLM.persistent this && supportsPersistence sbx sb); eexists; repeat split;
    simpl; by rewrite ?Hsb.
Qed.

Lemma completionFinally_ok (w : World SB) (h : LMHandler.t) (sb : SB) :
  router w = Some h → sandbox w = Some sb →
  ∃ w', RLM.completionFinally sbx this w = (Ok (), w')
        ∧ lmCalls w' = lmCalls w ∧ logger w' = logger w ∧ console w' = console w.
Proof.
  intros Hr Hsb. unfold RLM.completionFinally. rewrite bind_run.
  unfold theRouter. rewrite Hr. rewrite bind_run. simpl.
  destruct (RLM.persistent this); [by eexists|].
  rewrite bind_run. unfold theSandbox. simpl. rewrite Hsb. by eexists.
Qed.


(** C1, amended.  If the LM never emits a terminating marker, a completion
    started below max depth (with a sandbox to be had and a payload whose
    metadata can be built) runs [maxIterations] iterations, each emitted to
    the observers with no final answer; it then makes exactly one more LM
    call, on the root model, with the accumulated history followed by one
    assistant-role message asking for a final answer, and returns that
    call's text as the response.  The verbose printer is shown the
    [maxIterations] iteration records; a logger, when configured, is handed
    those and then one further iteration record for the epilogue call, whose
    final answer is the epilogue text: [maxIterations + 1] in all. *)
Theorem budget_exhaustion (w : World SB) (q : QueryMetadata) :
  RLM.depth this < RLM.maxDepth this →
  neverEmitsMarker lm →
  sandboxReady sbx this payload osPort w →
  buildQueryMetadata payload = Ok q →
  ∃ (its : list RLMIteration) (epilogue : GenerateResult)
    (c : RLMChatCompletion ContextPayload) (w' : World SB),
    let history := buildRlmSystemPrompt (RLM.systemPrompt this) q
                   ++ concat (render <$> its) in
    RLM.completion lm sbx osPort this payload rootPrompt w = (Ok c, w')
    ∧ length its = RLM.maxIterations this
    ∧ lmCalls w' = lmCalls w ++ ((λ it, (RLM.model this, prompt it)) <$> its)
                   ++ [(RLM.model this, history ++ [epilogueRequest])]
    ∧ lm (length (lmCalls w) + RLM.maxIterations this) (RLM.model this)
         (history ++ [epilogueRequest]) = Ok epilogue
    ∧ response c = text epilogue
    ∧ (∀ it, it ∈ its → finalAnswer it = None)
    ∧ iterationEntries (RLMLogger.entries (logger w'))
      = iterationEntries (RLMLogger.entries (logger w))
        ++ (if RLM.hasLogger this
            then its ++ [epilogueRecord history (text epilogue)] else [])
    ∧ RLMLogger.getIterationCount (logger w')
      = RLMLogger.getIterationCount (logger w)
        + (if RLM.hasLogger this then RLM.maxIterations this + 1 else 0)
    ∧ printedIterations (console w')
      = printedIterations (console w) ++ (if RLM.verbose this then its else []).
Proof.
  intros Hdepth Hlm Hready Hq.
  destruct (acquireSandbox_ready w (freshRouter osPort this) Hready)
    as (w1 & sb & Hacq & Hr1 & Hs1 & Hc1 & Hl1 & Hk1).
  set (hist0 := buildRlmSystemPrompt (RLM.systemPrompt this) q).
  destruct (iterate_without_marker lm sbx this payload rootPrompt
              (RLM.maxIterations this) 0 hist0 w1 (freshRouter osPort this) sb Hlm Hr1 Hs1)
    as (its & w2 & h2 & sb2 & Hrun & Hlen & Hr2 & Hd2 & Hs2 & Hp2 & Hl2 & Hk2
        & Hc2 & Hresp).
  rewrite freshRouter_defaultModel in *.
  set (history := hist0 ++ concat (render <$> its)) in *.
  destruct (Hlm (length (lmCalls w2)) (RLM.model this) (history ++ [epilogueRequest]))
    as (epilogue & Hep & _).
  assert (Hcompl := handlerCompletion_ok lm (history ++ [epilogueRequest]) w2 h2 epilogue Hr2).
  rewrite Hd2 in Hcompl. specialize (Hcompl Hep).
  set (w3 := withRouter _ _) in Hcompl.
  set (w4 := if RLM.hasLogger this
             then withLogger (RLMLogger.log (epilogueRecord history (text epilogue))) w3
             else w3).
  set (w5 := if RLM.verbose this then print (PrintedFinalAnswer (text epilogue)) w4 else w4).
  set (usage := LMHandler.getUsageSummary
                  (LMHandler.withTracker
                     (UsageTracker.track (modelId (RLM.model this))
                        (inputTokensOf epilogue) (outputTokensOf epilogue)
                        (LMHandler.tracker h2)) h2)).
  set (w6 := if RLM.verbose this
             then print (PrintedSummary (RLM.maxIterations this) usage) w5 else w5).
  assert (Hs6 : sandbox w6 = Some sb2).
  { unfold w6, w5, w4, w3. by destruct (RLM.verbose this), (RLM.hasLogger this). }
  destruct (storeHistory_ok history w6 sb2 Hs6)
    as (w7 & Hstore & Hr7 & [sb7 Hs7] & Hc7 & Hl7 & Hk7).
  assert (Hr6 : router w6 = Some (LMHandler.withTracker
                     (UsageTracker.track (modelId (RLM.model this))
                        (inputTokensOf epilogue) (outputTokensOf epilogue)
                        (LMHandler.tracker h2)) h2)).
  { unfold w6, w5, w4, w3. by destruct (RLM.verbose this), (RLM.hasLogger this). }
  rewrite Hr6 in Hr7.
  destruct (completionFinally_ok w7 _ sb7 Hr7 Hs7) as (w8 & Hfin & Hc8 & Hl8 & Hk8).
  exists its, epilogue,
    (mkCompletion (modelId (RLM.model this)) payload (text epilogue) usage), w8.
  cbv zeta. fold hist0. fold history.
  assert (Hbody : RLM.completionBody lm sbx this payload rootPrompt w1
                  = (Ok (mkCompletion (modelId (RLM.model this)) payload
                           (text epilogue) usage), w7)).
  { unfold RLM.completionBody. rewrite Hq. fold hist0.
    rewrite bind_run, Hrun. fold history.
    rewrite bind_run. unfold RLM.defaultAnswer. rewrite bind_run, Hcompl.
    rewrite bind_run. unfold RLM.loggerLog.
    assert ((if RLM.hasLogger this
             then modify (withLogger
                            (RLMLogger.log
                               (mkIteration (history ++ [epilogueRequest])
                                  (text epilogue) [] (Some (text epilogue)))))
             else mret ()) w3 = (Ok (), w4)) as ->.
    { unfold w4, epilogueRecord. by destruct (RLM.hasLogger this). }
    cbn [mret M_ret].
    assert (Hr4 : router w4 = router w3).
    { unfold w4. by destruct (RLM.hasLogger this). }
    rewrite bind_run. unfold theRouter at 1. rewrite Hr4. unfold w3 at 1.
    cbn [router withRouter withLmCalls]. fold usage.
    unfold RLM.verbosePrint.
    rewrite bind_run.
    assert ((if RLM.verbose this
             then modify (print (PrintedFinalAnswer (text epilogue))) else mret ()) w4
            = (Ok (), w5)) as ->.
    { unfold w5. by destruct (RLM.verbose this). }
    rewrite bind_run.
    assert ((if RLM.verbose this
             then modify (print (PrintedSummary (RLM.maxIterations this) usage))
             else mret ()) w5 = (Ok (), w6)) as ->.
    { unfold w6. by destruct (RLM.verbose this). }
    rewrite bind_run, Hstore. reflexivity. }
  split.
  { unfold RLM.completion.
    destruct (Nat.leb_spec (RLM.maxDepth this) (RLM.depth this)) as [?|_]; [lia|].
    fold (freshRouter osPort this).
    rewrite bind_run. cbn [modify]. rewrite freshRouter_address.
    rewrite bind_run, Hacq.
    unfold tryFinally. by rewrite Hbody, Hfin. }
  split; [done|].
  split.
  { rewrite Hc8, Hc7. unfold w6, w5, w4, w3.
    destruct (RLM.verbose this), (RLM.hasLogger this); simpl;
      rewrite Hc2, Hc1, <- app_assoc; done. }
  split.
  { rewrite <- Hep. f_equal. rewrite Hc2, Hc1, length_app, length_fmap. lia. }
  split; [done|].
  split.
  { intros it [k Hk]%list_elem_of_lookup. by destruct (Hresp k it Hk). }
  assert (Hlog : logger w8 = if RLM.hasLogger this
                             then RLMLogger.log (epilogueRecord history (text epilogue))
                                    (foldl (λ l it, RLMLogger.log it l) (logger w) its)
                             else logger w).
  { rewrite Hl8, Hl7. unfold w6, w5, w4, w3.
    destruct (RLM.verbose this), (RLM.hasLogger this); simpl; rewrite Hl2, Hl1; done. }
  destruct (entries_foldl_log its (logger w)) as (Hit & _ & Hcount).
  split.
  { rewrite Hlog. destruct (RLM.hasLogger this); [|by rewrite app_nil_r].
    rewrite entries_log, iterationEntries_app, Hit. simpl.
    by rewrite <- app_assoc. }
  split.
  { rewrite Hlog. destruct (RLM.hasLogger this); [|lia].
    rewrite count_log, Hcount. lia. }
  rewrite Hk8, Hk7. unfold w6, w5, w4, w3.
  destruct (RLM.verbose this) eqn:Hv, (RLM.hasLogger this); simpl;
    rewrite Hk2, Hk1, ?printedIterations_app; simpl;
    rewrite ?printedIterations_imap, ?app_nil_r; done.
Qed.
End ExhaustedRun.

Section Frame.
Context {SB : Type}.
Variable root : LanguageModelV1.

Lemma advances_refl (w : World SB) : advances root w w.
Proof.
  repeat split; [done|..]; exists []; by rewrite app_nil_r.
Qed.



Lemma advances_trans (w1 w2 w3 : World SB) :
  advances root w1 w2 → advances root w2 w3 → advances root w1 w3.
Proof.
  intros (Hr1 & (c1 & Hc1 & Hf1) & (e1 & He1 & Hm1) & (p1 & Hp1 & Hn1))
         (Hr2 & (c2 & Hc2 & Hf2) & (e2 & He2 & Hm2) & (p2 & Hp2 & Hn2)).
  split; [auto|]. split; [|split].
  - exists (c1 ++ c2). split; [by rewrite Hc2, Hc1, app_assoc|].
    intros Hr. apply Forall_app; auto.
  - exists (e1 ++ e2). split; [by rewrite He2, He1, app_assoc|].
    by rewrite metadataEntries_app, Hm1, Hm2.
  - exists (p1 ++ p2). split; [by rewrite Hp2, Hp1, app_assoc|].
    by rewrite printedMetadata_app, Hn1, Hn2.
Qed.

Lemma safe_ret {A} (a : A) : safe (SB:=SB) root (mret a).
Proof. intros w r w' [= <- <-]. apply advances_refl. Qed.

Lemma safe_throw {A} (e : string) : safe (SB:=SB) (A:=A) root (throw e).
Proof. intros w r w' [= <- <-]. apply advances_refl. Qed.

Lemma safe_bind {A B} (m : M SB A) (f : A → M SB B) :
  safe root m → (∀ a, safe root (f a)) → safe root (m ≫= f).
Proof.
  intros Hm Hf w r w'. rewrite bind_run.
  destruct (m w) as [[a|e] w1] eqn:Hmw.
  - intros Hfa. eapply advances_trans; [by eapply Hm|by eapply Hf].
  - intros [= <- <-]. by eapply Hm.
Qed.

Lemma safe_if {A} (b : bool) (m1 m2 : M SB A) :
  safe root m1 → safe root m2 → safe root (if b then m1 else m2).
Proof. by destruct b. Qed.

Lemma safe_theRouter : safe (SB:=SB) root theRouter.
Proof.
  intros w r w'. unfold theRouter.
  destruct (router w); intros [= <- <-]; apply advances_refl.
Qed.

Lemma safe_theSandbox : safe (SB:=SB) root theSandbox.
Proof.
  intros w r w'. unfold theSandbox.
  destruct (sandbox w); intros [= <- <-]; apply advances_refl.
Qed.

Lemma safe_withSandbox (s : option SB) : safe root (modify (withSandbox s)).
Proof.
  intros w r w' [= <- <-].
  repeat split; [done|..]; exists []; by rewrite app_nil_r.
Qed.

Lemma safe_withPersistentSandbox (b : bool) :
  safe (SB:=SB) root (modify (withPersistentSandbox b)).
Proof.
  intros w r w' [= <- <-].
  repeat split; [done|..]; exists []; by rewrite app_nil_r.
Qed.

Lemma safe_log (it : RLMIteration) :
  safe (SB:=SB) root (modify (withLogger (RLMLogger.log it))).
Proof.
  intros w r w' [= <- <-].
  split; [done|]. split; [exists []; by rewrite app_nil_r|]. split.
  - by eexists [_].
  - exists []. by rewrite app_nil_r.
Qed.

Lemma safe_print (e : PrintEvent) :
  printedMetadata [e] = [] → safe (SB:=SB) root (modify (print e)).
Proof.
  intros He w r w' [= <- <-].
  split; [done|]. split; [exists []; by rewrite app_nil_r|]. split.
  - exists []. by rewrite app_nil_r.
  - by exists [e].
Qed.

Lemma safe_setRouter (h : LMHandler.t) :
  LMHandler.defaultModel h = root →
  safe (SB:=SB) root (modify (withRouter (Some h))).
Proof.
  intros Hh w r w' [= <- <-].
  split; [intros _; by exists h|].
  repeat split; exists []; by rewrite app_nil_r.
Qed.

Lemma safe_track (modelId : string) (i o : nat) : safe (SB:=SB) root (track modelId i o).
Proof.
  unfold track. intros w r w'. rewrite bind_run. unfold theRouter.
  destruct (router w) as [h|] eqn:Hr; intros [= <- <-]; [|apply advances_refl].
  split.
  - intros (h0 & Hr0 & Hd). rewrite Hr in Hr0. injection Hr0 as <-. by eexists.
  - repeat split; exists []; by rewrite app_nil_r.
Qed.

Variable lm : LM.

Lemma safe_handlerCompletion (ms : list Message) :
  safe (SB:=SB) root (handlerCompletion lm (PromptMessages ms) None).
Proof.
  unfold handlerCompletion. intros w r w'. rewrite bind_run. unfold theRouter at 1.
  destruct (router w) as [h|] eqn:Hr; [|intros [= <- <-]; apply advances_refl].
  rewrite bind_run. unfold generateText at 1.
  set (w1 := withLmCalls _ w).
  assert (Hw1 : advances root w w1).
  { split; [done|]. split; [|split; exists []; by rewrite app_nil_r].
    eexists [_]. split; [done|].
    intros (h0 & Hr0 & Hd). rewrite Hr in Hr0. injection Hr0 as <-.
    constructor; [done|constructor]. }
  destruct (lm _ _ _) as [res|e]; [|intros [= <- <-]; done].
  intros Hrest. eapply advances_trans; [exact Hw1|].
  revert Hrest. apply safe_bind; [apply safe_track|intros; apply safe_ret].
Qed.

Variable sbx : SandboxImpl SB.

Lemma safe_sandboxExecute (code : string) : safe root (sandboxExecute sbx code).
Proof.
  unfold sandboxExecute. apply safe_bind; [apply safe_theSandbox|]. intros sb.
  destruct (executeCode sbx sb code) as [ret sb'].
  apply safe_bind; [apply safe_withSandbox|intros; apply safe_ret].
Qed.

Lemma safe_executeBlocks (codes : list string) : safe root (RLM.executeBlocks sbx codes).
Proof.
  induction codes as [|c codes IH]; simpl; [apply safe_ret|].
  apply safe_bind; [apply safe_sandboxExecute|]. intros ret.
  apply safe_bind; [apply IH|intros; apply safe_ret].
Qed.

Lemma safe_findFinalAnswer (response : string) (b : bool) :
  safe root (findFinalAnswer sbx response b).
Proof.
  unfold findFinalAnswer.
  destruct (Regex.exec finalVarPattern None response) as [[[cap ?] ?]|];
    [|apply safe_ret].
  unfold finalVarAnswer. destruct b; [|apply safe_ret].
  apply safe_bind; [apply safe_sandboxExecute|]. intros [res|res]; [|apply safe_ret].
  destruct (String.eqb _ _); apply safe_ret.
Qed.

Variable this : RLM.t.

Lemma safe_loggerLog (it : RLMIteration) : safe (SB:=SB) root (RLM.loggerLog this it).
Proof. apply safe_if; [apply safe_log|apply safe_ret]. Qed.

Lemma safe_verbosePrint (e : PrintEvent) :
  printedMetadata [e] = [] → safe (SB:=SB) root (RLM.verbosePrint this e).
Proof. intros He. apply safe_if; [by apply safe_print|apply safe_ret]. Qed.

Lemma safe_storeHistory (hist : list Message) : safe root (RLM.storeHistory sbx this hist).
Proof.
  unfold RLM.storeHistory. apply safe_bind; [apply safe_theSandbox|]. intros sb.
  apply safe_if; [apply safe_withSandbox|apply safe_ret].
Qed.

Lemma safe_completionTurn (ms : list Message) : safe root (RLM.completionTurn lm sbx ms).
Proof.
  unfold RLM.completionTurn.
  apply safe_bind; [apply safe_handlerCompletion|]. intros response.
  apply safe_bind; [apply safe_executeBlocks|intros; apply safe_ret].
Qed.

Variable payload : ContextPayload.
Variable rootPrompt : option string.

Lemma safe_iterate (n i : nat) (hist : list Message) :
  safe root (RLM.iterate lm sbx this payload rootPrompt n i hist).
Proof.
  revert i hist. induction n as [|n IH]; intros i hist; [apply safe_ret|].
  cbn [RLM.iterate].
  apply safe_bind; [apply safe_theSandbox|]. intros sb.
  apply safe_bind; [apply safe_completionTurn|]. intros turn.
  apply safe_bind; [apply safe_findFinalAnswer|]. intros fa.
  apply safe_bind; [apply safe_loggerLog|]. intros _.
  apply safe_bind; [by apply safe_verbosePrint|]. intros _.
  destruct fa as [answer|]; [|apply IH].
  apply safe_bind; [apply safe_theRouter|]. intros h.
  apply safe_bind; [by apply safe_verbosePrint|]. intros _.
  apply safe_bind; [by apply safe_verbosePrint|]. intros _.
  apply safe_bind; [apply safe_storeHistory|intros; apply safe_ret].
Qed.

Lemma safe_completionBody : safe root (RLM.completionBody lm sbx this payload rootPrompt).
Proof.
  unfold RLM.completionBody.
  destruct (buildQueryMetadata payload) as [q|e]; [|apply safe_throw].
  apply safe_bind; [apply safe_iterate|]. intros [c|hist]; [apply safe_ret|].
  apply safe_bind.
  { unfold RLM.defaultAnswer.
    apply safe_bind; [apply safe_handlerCompletion|]. intros response.
    apply safe_bind; [apply safe_loggerLog|intros; apply safe_ret]. }
  intros answer.
  apply safe_bind; [apply safe_theRouter|]. intros h.
  apply safe_bind; [by apply safe_verbosePrint|]. intros _.
  apply safe_bind; [by apply safe_verbosePrint|]. intros _.
  apply safe_bind; [apply safe_storeHistory|intros; apply safe_ret].
Qed.

Lemma safe_completionFinally : safe root (RLM.completionFinally sbx this).
Proof.
  unfold RLM.completionFinally.
  intros w r w'. rewrite bind_run. unfold theRouter at 1.
  destruct (router w) as [h|] eqn:Hr; [|intros [= <- <-]; apply advances_refl].
  rewrite bind_run. cbn [modify].
  set (w1 := withRouter _ w).
  assert (Hw1 : advances root w w1).
  { split.
    - intros (h0 & Hr0 & Hd). rewrite Hr in Hr0. injection Hr0 as <-. by eexists.
    - repeat split; exists []; by rewrite app_nil_r. }
  intros Hrest. eapply advances_trans; [exact Hw1|]. revert Hrest.
  apply safe_if; [apply safe_ret|].
  apply safe_bind; [apply safe_theSandbox|intros; apply safe_withSandbox].
Qed.

Lemma safe_tryFinally {A} (body : M SB A) (fin : M SB unit) :
  safe root body → safe root fin → safe root (tryFinally body fin).
Proof.
  intros Hb Hf w r w'. unfold tryFinally.
  destruct (body w) as [rb w1] eqn:Hbw.
  destruct (fin w1) as [[[]|e] w2] eqn:Hfw; intros [= <- <-];
    (eapply advances_trans; [by eapply Hb|by eapply Hf]).
Qed.

Lemma safe_acquireSandbox (addr : Address) :
  safe root (RLM.acquireSandbox sbx this payload addr).
Proof.
  intros w. unfold RLM.acquireSandbox.
  destruct (RLM.persistent this && persistentSandbox w).
  - apply (safe_bind theSandbox); [apply safe_theSandbox|intros; apply safe_withSandbox].
  - destruct (createSandbox sbx _ _) as [sb|e].
    + apply (safe_bind (modify (withSandbox (Some sb)))); [apply safe_withSandbox|].
      intros _. apply safe_if; [apply safe_withPersistentSandbox|apply safe_ret].
    + intros r w' [= <- <-]. apply advances_refl.
Qed.
End Frame.

Section Completion.
Context {SB : Type}.
Variable lm : LM.
Variable sbx : SandboxImpl SB.
Variable osPort : nat.
Variable this : RLM.t.
Variable payload : ContextPayload.
Variable rootPrompt : option string.

(** Every run of [completion], finished or thrown: adapter invocations go to
    the root model; the log and the console gain no metadata record. *)
Lemma completion_advances (w w' : World SB) (r : Outcome (RLMChatCompletion ContextPayload)) :
  RLM.completion lm sbx osPort this payload rootPrompt w = (r, w') →
  (∃ calls, lmCalls w' = lmCalls w ++ calls
            ∧ Forall (λ c, c.1 = RLM.model this) calls)
  ∧ (∃ es, RLMLogger.entries (logger w') = RLMLogger.entries (logger w) ++ es
           ∧ metadataEntries es = [])
  ∧ (∃ ps, console w' = console w ++ ps ∧ printedMetadata ps = []).
Proof.
  unfold RLM.completion.
  destruct (RLM.maxDepth this <=? RLM.depth this).
  - unfold RLM.fallbackAnswer. rewrite bind_run. unfold generateText.
    destruct (lm _ _ _) as [res|e]; intros [= <- <-]; simpl;
      (split; [eexists [_]; split; [done|by repeat constructor]|]);
      split; exists []; by rewrite app_nil_r.
  - fold (freshRouter osPort this). intros Hrun.
    rewrite bind_run in Hrun. cbn [modify] in Hrun.
    set (w0 := withRouter _ w) in Hrun.
    assert (Hrest : advances (RLM.model this) w0 w').
    { revert Hrun. apply safe_bind; [apply safe_acquireSandbox|]. intros _.
      apply safe_tryFinally; [apply safe_completionBody|apply safe_completionFinally]. }
    destruct Hrest as (_ & (calls & Hc & Hf) & He & Hp).
    split; [|split; [exact He|exact Hp]].
    exists calls. split; [exact Hc|]. apply Hf.
    exists (freshRouter osPort this). split; [done|apply freshRouter_defaultModel].
Qed.
End Completion.


(** ** C1: the witness and the failure of the claim as stated *)

Lemma ponderingLM_neverEmitsMarker : neverEmitsMarker ponderingLM.
Proof. intros k model messages. exists (mkGenerated "Let me think." None). by vm_compute. Qed.

Lemma echoSandbox_ready (this : RLM.t) (payload : ContextPayload) (osPort : nat) :
  sandboxReady echoSandbox this payload osPort initialWorld.
Proof.
  unfold sandboxReady. simpl. rewrite andb_false_r. by exists [].
Qed.

Lemma budget_exhaustion_witness :
  ∃ (its : list RLMIteration) (epilogue : GenerateResult)
    (c : RLMChatCompletion ContextPayload) (w' : World (list string)),
    RLM.completion ponderingLM echoSandbox 4096 observedDriver
                   (CtxText "hello") (Some "Say bye") initialWorld = (Ok c, w')
    ∧ length its = 2
    ∧ response c = text epilogue
    ∧ RLMLogger.getIterationCount (logger w') = 3
    ∧ printedIterations (console w') = its.
Proof.
  destruct (budget_exhaustion ponderingLM echoSandbox 4096 observedDriver
              (CtxText "hello") (Some "Say bye") initialWorld
              (mkQueryMetadata [5] 5 "string"))
    as (its & epilogue & c & w' & Hrun & Hlen & _ & _ & Hresp & _ & _ & Hcount & Hprint).
  - simpl. lia.
  - apply ponderingLM_neverEmitsMarker.
  - apply echoSandbox_ready.
  - reflexivity.
  - exists its, epilogue, c, w'. repeat split; done.
Defined.

(** C1, as stated, fails: a logger configured on the driver is handed one
    iteration record more than [maxIterations], the record of the epilogue
    call. *)
Lemma logger_counts_the_epilogue :
  ¬ (∀ (lm : LM) (this : RLM.t) (w w' : World (list string))
       (r : Outcome (RLMChatCompletion ContextPayload)),
       RLM.depth this < RLM.maxDepth this →
       neverEmitsMarker lm →
       RLM.hasLogger this = true →
       RLM.completion lm echoSandbox 4096 this (CtxText "hello") (Some "Say bye") w
       = (r, w') →
       length (iterationEntries (RLMLogger.entries (logger w')))
       = length (iterationEntries (RLMLogger.entries (logger w)))
         + RLM.maxIterations this).
Proof.
  intros claim.
  pose (run := RLM.completion ponderingLM echoSandbox 4096 observedDriver
                 (CtxText "hello") (Some "Say bye") initialWorld).
  specialize (claim ponderingLM observedDriver initialWorld run.2 run.1).
  assert (H : 3 = 2); [|discriminate H].
  apply claim; [simpl; lia|apply ponderingLM_neverEmitsMarker|done|apply surjective_pairing].
Qed.

(** ** C4: the metadata record *)

Section Construction.
Context {SB : Type}.
Variable RLM_SYSTEM_PROMPT : string.

(** What the constructor emits: one metadata record to the logger, when a
    logger is given and it has logged no metadata yet, and one to the
    console, when verbose output is on. *)
Lemma new_emits_metadata (config : RLMConfig) (w w1 : World SB) (this : RLM.t) :
  RLM.new RLM_SYSTEM_PROMPT config w = (Ok this, w1) →
  RLMLogger.entries (logger w1)
  = RLMLogger.entries (logger w)
    ++ (if cfgLogger config && negb (RLMLogger.metadataLogged (logger w))
        then [MetadataEntry (RLM.metadataOf this)] else [])
  ∧ console w1
    = console w ++ (if default false (cfgVerbose config)
                    then [PrintedMetadata (RLM.metadataOf this)] else [])
  ∧ lmCalls w1 = lmCalls w.
Proof.
  unfold RLM.new. cbv zeta. rewrite bind_run. cbn [modify].
  set (this0 := RLM.mk _ _ _ _ _ _ _ _ _ _ _).
  set (w0 := withPersistentSandbox false w).
  rewrite bind_run.
  assert (Hval : ∃ o, (if RLM.persistent this0
                       then RLM.validatePersistentSupport this0 else mret ()) w0
                      = (o, w0)).
  { destruct (RLM.persistent this0); [|by eexists].
    unfold RLM.validatePersistentSupport. case_bool_decide; by eexists. }
  destruct Hval as [[[]|e] ->]; [|done].
  rewrite bind_run. unfold RLM.verbosePrint, RLMLogger.logMetadata.
  cbn [RLM.hasLogger RLM.verbose this0].
  destruct (cfgLogger config), (default false (cfgVerbose config)),
    (RLMLogger.metadataLogged (logger w)) eqn:Hm;
    simpl; rewrite ?Hm; simpl; intros [= <- <-]; simpl; rewrite ?Hm, ?app_nil_r; done.
Qed.
End Construction.

(** C4, amended.  The metadata record is emitted by the constructor, not by
    the completion call: one to the logger when a (fresh) logger is
    configured, one to the console when verbose output is on, and none when
    the driver has neither observer.  A completion call, however it ends,
    adds only iteration records and other non-metadata events after it; so
    a metadata record, where there is one, comes before every iteration
    record of the completion. *)
Theorem metadata_comes_from_the_constructor
        {SB : Type} (lm : LM) (sbx : SandboxImpl SB) (osPort : nat)
        (RLM_SYSTEM_PROMPT : string) (config : RLMConfig)
        (payload : ContextPayload) (rootPrompt : option string)
        (w w1 w2 : World SB) (this : RLM.t)
        (r : Outcome (RLMChatCompletion ContextPayload)) :
  RLMLogger.metadataLogged (logger w) = false →
  RLM.new RLM_SYSTEM_PROMPT config w = (Ok this, w1) →
  RLM.completion lm sbx osPort this payload rootPrompt w1 = (r, w2) →
  ∃ (es : list LogEntry) (ps : list PrintEvent),
    RLMLogger.entries (logger w2)
    = RLMLogger.entries (logger w)
      ++ (if cfgLogger config then [MetadataEntry (RLM.metadataOf this)] else [])
      ++ es
    ∧ metadataEntries es = []
    ∧ console w2
      = console w
        ++ (if default false (cfgVerbose config)
            then [PrintedMetadata (RLM.metadataOf this)] else [])
        ++ ps
    ∧ printedMetadata ps = [].
Proof.
  intros Hfresh Hnew Hrun.
  destruct (new_emits_metadata _ _ _ _ _ Hnew) as (Hlog & Hcon & _).
  destruct (completion_advances _ _ _ _ _ _ _ _ _ Hrun)
    as (_ & (es & Hes & Hnone) & (ps & Hps & Hnone')).
  exists es, ps. rewrite Hes, Hps, Hlog, Hcon, Hfresh, andb_true_r, <- !app_assoc.
  done.
Qed.

Lemma metadata_comes_from_the_constructor_witness :
  ∃ (es : list LogEntry) (ps : list PrintEvent),
    RLMLogger.entries (logger (constructAndComplete ponderingLM observedConfig).2)
    = [MetadataEntry (RLM.metadataOf observedDriver)] ++ es
    ∧ metadataEntries es = []
    ∧ console (constructAndComplete ponderingLM observedConfig).2
      = [PrintedMetadata (RLM.metadataOf observedDriver)] ++ ps
    ∧ printedMetadata ps = [].
Proof.
  pose (built := RLM.new (SB:=list string) "system prompt" observedConfig initialWorld).
  pose (ran := RLM.completion ponderingLM echoSandbox 4096 observedDriver
                 (CtxText "hello") (Some "Say bye") built.2).
  exact (metadata_comes_from_the_constructor ponderingLM echoSandbox 4096
           "system prompt" observedConfig (CtxText "hello") (Some "Say bye")
           initialWorld built.2 ran.2 observedDriver ran.1
           eq_refl eq_refl (surjective_pairing ran)).
Defined.

(** C4, as stated, fails: a driver built with no logger and without verbose
    output runs its completion below max depth and no metadata record is
    emitted to any observer. *)
Lemma unobserved_driver_emits_no_metadata :
  ¬ (∀ (lm : LM) (config : RLMConfig),
       default 0 (cfgDepth config) < default 1 (cfgMaxDepth config) →
       length (emittedMetadata (constructAndComplete lm config).2) = 1).
Proof.
  intros claim.
  assert (H : 0 = 1); [|discriminate H].
  apply (claim ponderingLM unobservedConfig). simpl. lia.
Qed.

(** A second completion on an observed driver adds iteration records and no
    metadata record: the log holds one metadata record for two completions. *)
Example metadata_is_per_driver :
  length (metadataEntries
            (RLMLogger.entries
               (logger (constructAndCompleteTwice ponderingLM observedConfig).2))) = 1
  ∧ length (iterationEntries
              (RLMLogger.entries
                 (logger (constructAndCompleteTwice ponderingLM observedConfig).2))) = 6.
Proof. by vm_compute. Qed.

(** ** C10: the model of the direct path *)

(** C10.  The direct completion path resolves the model at depth 0: with no
    model name, as the driver calls it, it invokes the default model,
    whether or not a sub-model was supplied; so every adapter invocation a
    completion of the driver makes goes to the root model.  A model other
    than the default is selected only for a non-empty registered name, or
    for depth 1 when it is the sub-model. *)
Theorem direct_path_uses_the_default_model
        {SB : Type} (lm : LM) (sbx : SandboxImpl SB) (osPort : nat) (this : RLM.t)
        (payload : ContextPayload) (rootPrompt : option string)
        (w : World SB) (h : LMHandler.t) (p : Prompt)
        (modelName : option string) (depth : nat) :
  directModel h modelName = LMHandler.getModel h modelName 0
  ∧ directModel h None = LMHandler.defaultModel h
  ∧ (router w = Some h →
     lmCalls (handlerCompletion lm p None w).2
     = lmCalls w ++ [(LMHandler.defaultModel h, LMHandler.normalisePrompt p)])
  ∧ (∃ calls,
       lmCalls (RLM.completion lm sbx osPort this payload rootPrompt w).2
       = lmCalls w ++ calls
       ∧ Forall (λ c, c.1 = RLM.model this) calls)
  ∧ (LMHandler.getModel h modelName depth ≠ LMHandler.defaultModel h →
     (∃ name, modelName = Some name ∧ name ≠ ""
              ∧ LMHandler.models h !! name
                = Some (LMHandler.getModel h modelName depth))
     ∨ (depth = 1
        ∧ LMHandler.subModel h = Some (LMHandler.getModel h modelName depth))).
Proof.
  split; [done|]. split; [done|]. split; [|split].
  - intros Hr. unfold handlerCompletion. rewrite bind_run. unfold theRouter at 1.
    rewrite Hr. rewrite bind_run. unfold generateText at 1. cbn [fst snd].
    destruct (lm _ _ _) as [res|e]; [|done].
    rewrite bind_run. unfold track. rewrite bind_run. unfold theRouter. simpl.
    by rewrite Hr.
  - destruct (RLM.completion lm sbx osPort this payload rootPrompt w) as [r w'] eqn:Hrun.
    by destruct (completion_advances _ _ _ _ _ _ _ _ _ Hrun) as (Hcalls & _).
  - unfold LMHandler.getModel.
    destruct modelName as [name|].
    + destruct (JS.truthy name) eqn:Hname.
      * destruct (LMHandler.models h !! name) as [m|] eqn:Hm.
        -- intros _. left. exists name. split; [done|]. split; [|done].
           intros ->. done.
        -- destruct (Nat.eqb_spec depth 1) as [->|]; [|done].
           destruct (LMHandler.subModel h); [|done]. intros _. by right.
      * destruct (Nat.eqb_spec depth 1) as [->|]; [|done].
        destruct (LMHandler.subModel h); [|done]. intros _. by right.
    + destruct (Nat.eqb_spec depth 1) as [->|]; [|done].
      destruct (LMHandler.subModel h); [|done]. intros _. by right.
Qed.

(** ** The matcher *)

Section RegexFacts.

Lemma eatLit_app (l : string) (prev : option ascii) (rest : string) :
  Regex.eatLit l prev (l +:+ rest) = Some (lastCodeUnit prev l, rest).
Proof.
  revert prev. induction l as [|a l IH]; intros prev; [done|].
  rewrite app_cons_str. simpl. rewrite Ascii.eqb_refl. apply IH.
Qed.

(** A greedy star can always stop where it stands. *)
Lemma repLoop_greedy_falls_back (captured : bool) (cls : ascii → bool)
      (k : option ascii → string → string → option Regex.found)
      (prev : option ascii) (s cap : string) :
  is_Some (k prev s cap) → is_Some (Regex.repLoop captured true cls k prev s cap).
Proof.
  intros Hk. destruct s as [|c s]; simpl; [done|].
  destruct (cls c); [|done].
  by destruct (Regex.repLoop captured true cls k (Some c) s _).
Qed.

(** A greedy, uncaptured star gets past a run of its class when what
    follows matches there. *)
Lemma repLoop_greedy_passes (cls : ascii → bool)
      (k : option ascii → string → string → option Regex.found)
      (run rest cap : string) (prev : option ascii) :
  allChars cls run = true →
  is_Some (k (lastCodeUnit prev run) rest cap) →
  is_Some (Regex.repLoop false true cls k prev (run +:+ rest) cap).
Proof.
  revert prev. induction run as [|c run IH]; intros prev Hrun Hk.
  - by apply repLoop_greedy_falls_back.
  - simpl in Hrun. apply andb_true_iff in Hrun as [Hc Hrun].
    rewrite app_cons_str. simpl. rewrite Hc.
    destruct (IH (Some c) Hrun Hk) as [r ->]. done.
Qed.

(** A lazy star first tries what follows it. *)
Lemma repLoop_lazy_tries_first (captured : bool) (cls : ascii → bool)
      (k : option ascii → string → string → option Regex.found)
      (prev : option ascii) (s cap : string) :
  is_Some (k prev s cap) → is_Some (Regex.repLoop captured false cls k prev s cap).
Proof.
  intros [r Hk]. destruct s as [|c s]; simpl; [by rewrite Hk|].
  destruct (cls c); by rewrite Hk.
Qed.

(** A lazy star over a class reaches a literal that follows a run of the
    class, unless it has found the literal earlier. *)
Lemma repLoop_lazy_reaches (captured : bool) (cls : ascii → bool) (l : string)
      (p : Regex.pattern) (run rest : string) :
  allChars cls run = true →
  (∀ prev cap, is_Some (Regex.matchHere p prev rest cap)) →
  ∀ prev cap,
    is_Some (Regex.repLoop captured false cls (Regex.matchHere (Regex.Lit l :: p))
                           prev (run +:+ l +:+ rest) cap).
Proof.
  intros Hrun Hp.
  assert (Hend : ∀ prev cap,
             is_Some (Regex.matchHere (Regex.Lit l :: p) prev (l +:+ rest) cap)).
  { intros prev cap. cbn [Regex.matchHere]. rewrite eatLit_app. apply Hp. }
  induction run as [|c run IH]; intros prev cap.
  - rewrite app_nil_l_str. apply repLoop_lazy_tries_first, Hend.
  - simpl in Hrun. apply andb_true_iff in Hrun as [Hc Hrun].
    rewrite app_cons_str. simpl. rewrite Hc.
    destruct (match Regex.eatLit l prev (String c (run +:+ l +:+ rest)) with
              | Some (prev', s') => Regex.matchHere p prev' s' cap
              | None => None
              end); [done|].
    apply (IH Hrun).
Qed.

(** [exec] finds a match when there is one at some position. *)
Lemma exec_finds (p : Regex.pattern) (before rest : string) (prev : option ascii) :
  is_Some (Regex.matchHere p (lastCodeUnit prev before) rest "") →
  is_Some (Regex.exec p prev (before +:+ rest)).
Proof.
  revert prev. induction before as [|c before IH]; intros prev Hm.
  - rewrite app_nil_l_str. destruct Hm as [r Hr].
    destruct rest; simpl in *; by rewrite Hr.
  - rewrite app_cons_str. simpl.
    destruct (Regex.matchHere p prev _ _); [done|]. by apply IH.
Qed.

Lemma finalVarPattern_finds (text : string) :
  hasFinalVarLine text → is_Some (Regex.exec finalVarPattern None text).
Proof.
  intros (before & indent & argument & after & -> & Hline & Hindent & Harg).
  apply exec_finds. unfold finalVarPattern. cbn [Regex.matchHere].
  rewrite Hline. apply repLoop_greedy_passes; [done|].
  cbn [Regex.matchHere]. rewrite eatLit_app.
  apply (repLoop_lazy_reaches true Regex.notLineTerminator ")" [] argument after Harg).
  intros prev cap. by eexists.
Qed.

End RegexFacts.

(** ** C7: FINAL_VAR before FINAL *)

(** C7.  For every response that has both a line whose leading
    non-whitespace is [FINAL_VAR(...)] and a line matching [FINAL(...)],
    [findFinalAnswer] takes the FINAL_VAR branch: its result is that of the
    branch entered with the argument the FINAL_VAR pattern captured, and the
    FINAL pattern plays no part.  In particular, without a sandbox no answer
    is produced, the [FINAL(...)] line notwithstanding. *)
Theorem final_var_takes_precedence
        {SB : Type} (sbx : SandboxImpl SB) (text : string) (hasSandbox : bool)
        (w : World SB) :
  hasFinalVarLine text →
  hasFinalLine text →
  ∃ captured prev rest,
    Regex.exec finalVarPattern None text = Some (captured, prev, rest)
    ∧ findFinalAnswer sbx text hasSandbox w = finalVarAnswer sbx captured hasSandbox w
    ∧ findFinalAnswer sbx text false w = (Ok None, w).
Proof.
  intros Hvar _. destruct (finalVarPattern_finds text Hvar) as [[[captured prev] rest] Hexec].
  exists captured, prev, rest. unfold findFinalAnswer. rewrite Hexec. done.
Qed.

Lemma final_var_takes_precedence_witness :
  ∃ captured prev rest,
    Regex.exec finalVarPattern None ("FINAL_VAR(x)" +:+ JS.nl +:+ "FINAL(y)")
    = Some (captured, prev, rest)
    ∧ findFinalAnswer echoSandbox ("FINAL_VAR(x)" +:+ JS.nl +:+ "FINAL(y)") true
                      (withSandbox (Some []) initialWorld)
      = finalVarAnswer echoSandbox captured true (withSandbox (Some []) initialWorld)
    ∧ findFinalAnswer echoSandbox ("FINAL_VAR(x)" +:+ JS.nl +:+ "FINAL(y)") false
                      (withSandbox (Some []) initialWorld)
      = (Ok None, withSandbox (Some []) initialWorld).
Proof.
  apply (final_var_takes_precedence echoSandbox
           ("FINAL_VAR(x)" +:+ JS.nl +:+ "FINAL(y)") true
           (withSandbox (Some []) initialWorld)).
  - exists "", "", "x", (JS.nl +:+ "FINAL(y)"). by vm_compute.
  - exists ("FINAL_VAR(x)" +:+ JS.nl), "", "y", "", "". by vm_compute.
Defined.

(** Alone, the [FINAL(...)] line gives its answer; beside a [FINAL_VAR(...)]
    line it gives way to what the sandbox prints for the variable. *)
Example final_alone_and_beside_final_var :
  (findFinalAnswer echoSandbox "FINAL(y)" true (withSandbox (Some []) initialWorld)).1
  = Ok (Some "y")
  ∧ (findFinalAnswer echoSandbox ("FINAL_VAR(x)" +:+ JS.nl +:+ "FINAL(y)") true
                     (withSandbox (Some []) initialWorld)).1
    = Ok (Some ("ran print(FINAL_VAR(" +:+ JS.dq +:+ "x" +:+ JS.dq +:+ "))")).
Proof. by vm_compute. Qed.

(** ** C6: code blocks *)
Section FenceFacts.

Lemma startsWith_app (l rest : string) : JS.startsWith (l +:+ rest) l = true.
Proof.
  induction l as [|a l IH]; [done|]. rewrite app_cons_str. simpl.
  by rewrite Ascii.eqb_refl.
Qed.

Lemma eatLit_None (l s : string) (prev : option ascii) :
  JS.startsWith s l = false → Regex.eatLit l prev s = None.
Proof.
  revert s prev. induction l as [|a l IH]; intros s prev; [done|].
  destruct s as [|b s]; simpl; [done|].
  destruct (Ascii.eqb a b); [apply IH|done].
Qed.

(** [startsWith] looks at no more than the length of its argument. *)
Lemma startsWith_app_long (s l rest : string) :
  String.length l ≤ String.length s →
  JS.startsWith (s +:+ rest) l = JS.startsWith s l.
Proof.
  revert s. induction l as [|a l IH]; intros s Hlen; [done|].
  destruct s as [|b s]; simpl in Hlen; [lia|].
  rewrite app_cons_str. simpl. destruct (Ascii.eqb a b); [|done].
  apply IH. lia.
Qed.

Lemma includes_false_here (s l : string) :
  JS.includes s l = false → JS.startsWith s l = false.
Proof.
  destruct s; simpl; intros H; by apply orb_false_iff in H as [? _].
Qed.

Lemma includes_false_tail (c : ascii) (s l : string) :
  JS.includes (String c s) l = false → JS.includes s l = false.
Proof. simpl. intros H. by apply orb_false_iff in H as [_ ?]. Qed.

End FenceFacts.

Section FenceMatch.



Lemma closingFence_app (rest : string) :
  closingFence +:+ rest = (JS.nl +:+ "``") +:+ "`" +:+ rest.
Proof. reflexivity. Qed.

(** A closing fence that begins in a text and is complete once two
    backticks of the real closing fence are appended would have to begin in
    the text itself. *)
Lemma no_straddling_fence (content : string) :
  JS.includes content closingFence = false →
  JS.includes (content +:+ JS.nl +:+ "``") closingFence = false.
Proof.
  induction content as [|a content IH]; intros Hc; [by vm_compute|].
  rewrite app_cons_str.
  change (JS.includes (String a ?s) ?l)
    with (JS.startsWith (String a s) l || JS.includes s l).
  rewrite (IH (includes_false_tail _ _ _ Hc)), orb_false_r.
  apply includes_false_here in Hc.
  unfold closingFence, JS.nl, BT3 in *. rewrite ?app_cons_str, ?app_nil_l_str in *.
  destruct content as [|b [|c [|d content]]];
    rewrite ?app_cons_str, ?app_nil_l_str in *; cbn [JS.startsWith] in *.
  - destruct (Ascii.eqb JS.LF a); reflexivity.
  - destruct (Ascii.eqb JS.LF a); [|reflexivity].
    destruct (Ascii.eqb _ b); reflexivity.
  - destruct (Ascii.eqb JS.LF a); [|reflexivity].
    destruct (Ascii.eqb _ b); [|reflexivity].
    destruct (Ascii.eqb _ c); reflexivity.
  - exact Hc.
Qed.

Lemma includes_false_suffix (v u l : string) :
  JS.includes (v +:+ u) l = false → JS.includes u l = false.
Proof.
  induction v as [|c v IH]; [done|]. rewrite app_cons_str.
  intros H. apply IH. by eapply includes_false_tail.
Qed.

(** The lazy capture runs to the first closing fence. *)
Lemma lazy_content (body rest : string) :
  JS.includes (body +:+ JS.nl +:+ "``") closingFence = false →
  ∀ prev cap,
    Regex.repLoop true false Regex.any (Regex.matchHere [Regex.Lit closingFence])
                  prev (body +:+ closingFence +:+ rest) cap
    = Some (cap +:+ body, Some backtick, rest).
Proof.
  induction body as [|c body IH]; intros Hfree prev cap.
  - rewrite app_nil_l_str, app_nil_r_str. reflexivity.
  - rewrite app_cons_str.
    cbn [Regex.repLoop Regex.any Regex.matchHere].
    rewrite eatLit_None.
    + rewrite (IH (includes_false_tail _ _ _ Hfree)).
      unfold Regex.snoc. by rewrite app_assoc_str.
    + apply includes_false_here in Hfree. etrans; [|exact Hfree].
      rewrite <- app_cons_str, closingFence_app, <- app_assoc_str.
      apply startsWith_app_long. rewrite length_app_str. simpl. lia.
Qed.

Lemma afterTag_at_LF (body rest : string) (prev : option ascii) (cap : string) :
  JS.includes (body +:+ JS.nl +:+ "``") closingFence = false →
  Regex.matchHere afterTag prev (String JS.LF (body +:+ closingFence +:+ rest)) cap
  = Some (cap +:+ body, Some backtick, rest).
Proof.
  intros Hfree. unfold afterTag. cbn [Regex.matchHere].
  change (Regex.eatLit JS.nl prev (String JS.LF ?s)) with (Some (Some JS.LF, s)).
  by apply lazy_content.
Qed.

Lemma afterTag_elsewhere (c : ascii) (s : string) (prev : option ascii) (cap : string) :
  Ascii.eqb c JS.LF = false → Regex.matchHere afterTag prev (String c s) cap = None.
Proof.
  intros Hc. unfold afterTag. cbn [Regex.matchHere]. unfold JS.nl.
  cbn [Regex.eatLit]. by rewrite Ascii.eqb_sym, Hc.
Qed.

Lemma afterTag_at_end (prev : option ascii) (cap : string) :
  Regex.matchHere afterTag prev "" cap = None.
Proof. reflexivity. Qed.

Lemma whitespace_LF : JS.isWhiteSpace JS.LF = true.
Proof. reflexivity. Qed.

(** The greedy whitespace star before the line break of the tag gives back
    what it took down to the last line feed it passed: the capture begins
    after that line feed. *)
Lemma greedy_tag_space (run : string) (x : ascii) (more rest : string) :
  allChars JS.isWhiteSpace run = true →
  JS.isWhiteSpace x = false →
  (∀ u, afterLastLF run = Some u →
        JS.includes ((u +:+ String x more) +:+ JS.nl +:+ "``") closingFence = false) →
  ∀ prev,
    Regex.repLoop false true JS.isWhiteSpace (Regex.matchHere afterTag) prev
                  (run +:+ String x more +:+ closingFence +:+ rest) ""
    = match afterLastLF run with
      | Some u => Some (u +:+ String x more, Some backtick, rest)
      | None => None
      end.
Proof.
  intros Hrun Hx.
  assert (HxLF : Ascii.eqb x JS.LF = false).
  { destruct (Ascii.eqb_spec x JS.LF) as [->|]; [|done]. by rewrite whitespace_LF in Hx. }
  induction run as [|c run IH]; intros Hfree prev.
  - rewrite app_nil_l_str, app_cons_str. cbn [Regex.repLoop afterLastLF]. rewrite Hx.
    by apply afterTag_elsewhere.
  - simpl in Hrun. apply andb_true_iff in Hrun as [Hc Hrun].
    rewrite app_cons_str. cbn [Regex.repLoop afterLastLF]. rewrite Hc.
    rewrite (IH Hrun).
    + destruct (afterLastLF run) as [u|] eqn:Hlast; [done|].
      destruct (Ascii.eqb c JS.LF) eqn:HcLF.
      * apply Ascii.eqb_eq in HcLF as ->.
        rewrite <- (app_assoc_str run (String x more)).
        rewrite afterTag_at_LF; [done|]. apply Hfree.
        cbn [afterLastLF]. by rewrite Hlast.
      * by apply afterTag_elsewhere.
    + intros u Hu. apply Hfree. cbn [afterLastLF]. by rewrite Hu.
Qed.
End FenceMatch.

Section FenceMatch2.

Lemma allChars_app (cls : ascii → bool) (s t : string) :
  allChars cls (s +:+ t) = allChars cls s && allChars cls t.
Proof.
  induction s as [|c s IH]; [done|]. rewrite app_cons_str. simpl.
  by rewrite IH, andb_assoc.
Qed.

Lemma afterLastLF_suffix (s u : string) :
  afterLastLF s = Some u → ∃ v, s = v +:+ u.
Proof.
  revert u. induction s as [|c s IH]; intros u; [done|]. simpl.
  destruct (afterLastLF s) as [u'|].
  - intros [= <-]. destruct (IH u' eq_refl) as [v ->]. by exists (String c v).
  - destruct (Ascii.eqb c JS.LF); [|done]. intros [= <-]. by exists (String c "").
Qed.

Lemma afterLastLF_app_LF (a b : string) :
  afterLastLF (a +:+ String JS.LF b) = Some (default b (afterLastLF b)).
Proof.
  induction a as [|c a IH].
  - rewrite app_nil_l_str. simpl. by destruct (afterLastLF b).
  - rewrite app_cons_str. simpl. by rewrite IH.
Qed.

(** A text with a character that is not whitespace: its leading whitespace,
    that character, and the rest. *)
Lemma first_non_space (s : string) :
  allChars JS.isWhiteSpace s = false →
  ∃ lead x more,
    s = lead +:+ String x more
    ∧ allChars JS.isWhiteSpace lead = true
    ∧ JS.isWhiteSpace x = false.
Proof.
  induction s as [|c s IH]; [done|]. simpl.
  destruct (JS.isWhiteSpace c) eqn:Hc.
  - intros Hs. destruct (IH Hs) as (lead & x & more & -> & Hlead & Hx).
    exists (String c lead), x, more. simpl. by rewrite Hc, Hlead.
  - intros _. by exists "", c, s.
Qed.

Lemma trimStart_skips (lead : string) (x : ascii) (more : string) :
  allChars JS.isWhiteSpace lead = true →
  JS.isWhiteSpace x = false →
  JS.trimStart (lead +:+ String x more) = String x more.
Proof.
  intros Hlead Hx. induction lead as [|c lead IH].
  - rewrite app_nil_l_str. simpl. by rewrite Hx.
  - simpl in Hlead. apply andb_true_iff in Hlead as [Hc Hlead].
    rewrite app_cons_str. simpl. rewrite Hc. by apply IH.
Qed.

(** At a fence whose content is not blank the pattern matches, and what it
    captures trims to the trimmed content. *)
Lemma matchHere_fence (space content rest : string) (prev : option ascii) :
  allChars JS.isWhiteSpace space = true →
  plainContent content →
  ∃ captured,
    Regex.matchHere codeBlockPattern prev (fence space content +:+ rest) ""
    = Some (captured, Some backtick, rest)
    ∧ JS.trim captured = JS.trim content.
Proof.
  intros Hspace [Hblank Hfree].
  destruct (first_non_space content Hblank) as (lead & x & more & -> & Hlead & Hx).
  pose (run := space +:+ String JS.LF lead).
  assert (Hrun : allChars JS.isWhiteSpace run = true).
  { unfold run. rewrite allChars_app. simpl. by rewrite Hspace, Hlead. }
  assert (Hlast : ∃ u v, afterLastLF run = Some u ∧ lead = v +:+ u).
  { unfold run. rewrite afterLastLF_app_LF.
    destruct (afterLastLF lead) as [u|] eqn:Hu.
    - destruct (afterLastLF_suffix lead u Hu) as [v Hv]. by exists u, v.
    - by exists lead, "". }
  destruct Hlast as (u & v & Hu & Hv).
  assert (Hu_space : allChars JS.isWhiteSpace u = true).
  { rewrite Hv, allChars_app in Hlead. by apply andb_true_iff in Hlead as [_ ?]. }
  exists (u +:+ String x more). split.
  - assert (Htext : fence space (lead +:+ String x more) +:+ rest
                    = "```repl" +:+ run +:+ String x more +:+ closingFence +:+ rest).
    { unfold fence, run, JS.nl. by rewrite !app_assoc_str. }
    rewrite Htext. unfold codeBlockPattern. cbn [Regex.matchHere].
    rewrite eatLit_app.
    change (Regex.matchHere [Regex.Lit JS.nl; Regex.Rep true false Regex.any;
                             Regex.Lit (JS.nl +:+ BT3)])
      with (Regex.matchHere afterTag).
    rewrite (greedy_tag_space run x more rest Hrun Hx).
    + by rewrite Hu.
    + intros u' Hu'. rewrite Hu in Hu'. injection Hu' as <-.
      apply no_straddling_fence in Hfree.
      rewrite Hv in Hfree. rewrite !app_assoc_str in Hfree.
      apply includes_false_suffix in Hfree. by rewrite !app_assoc_str.
  - unfold JS.trim. by rewrite !trimStart_skips.
Qed.

End FenceMatch2.

Section Documents.

Lemma exec_here (p : Regex.pattern) (prev : option ascii) (s : string) (r : Regex.found) :
  Regex.matchHere p prev s "" = Some r → Regex.exec p prev s = Some r.
Proof. intros H. destruct s; simpl; by rewrite H. Qed.

Lemma codeBlockPattern_needs_tag (prev : option ascii) (s : string) :
  JS.startsWith s "```repl" = false →
  Regex.matchHere codeBlockPattern prev s "" = None.
Proof.
  intros H. unfold codeBlockPattern. cbn [Regex.matchHere].
  by rewrite eatLit_None.
Qed.

(** The search passes over noise in which no tag begins. *)
Lemma exec_skips_noise (noise after : string) (prev : option ascii) :
  quiet noise →
  Regex.exec codeBlockPattern prev (noise +:+ "```repl" +:+ after)
  = Regex.exec codeBlockPattern (lastCodeUnit prev noise) ("```repl" +:+ after).
Proof.
  unfold quiet. revert prev. induction noise as [|c noise IH]; intros prev Hq; [done|].
  rewrite app_cons_str. cbn [Regex.exec lastCodeUnit].
  rewrite codeBlockPattern_needs_tag.
  - apply IH. by eapply includes_false_tail.
  - apply includes_false_here in Hq. etrans; [|exact Hq].
    rewrite <- app_cons_str.
    change ("```repl" +:+ after) with ("```rep" +:+ "l" +:+ after).
    rewrite <- app_assoc_str. apply startsWith_app_long.
    rewrite length_app_str. simpl. lia.
Qed.

(** The search finds nothing in a text that holds no tag. *)
Lemma exec_finds_nothing (tail : string) (prev : option ascii) :
  JS.includes tail "```repl" = false →
  Regex.exec codeBlockPattern prev tail = None.
Proof.
  revert prev. induction tail as [|c tail IH]; intros prev Ht; [done|].
  cbn [Regex.exec]. rewrite codeBlockPattern_needs_tag.
  - apply IH. by eapply includes_false_tail.
  - by apply includes_false_here.
Qed.

Lemma execAll_document (blocks : list FencedBlock) (tail : string) :
  Forall wellFormed blocks →
  JS.includes tail "```repl" = false →
  ∀ fuel prev,
    length blocks < fuel →
    JS.trim <$> Regex.execAll fuel codeBlockPattern prev (document blocks tail)
    = (λ b, JS.trim (inner b)) <$> blocks.
Proof.
  intros Hblocks Htail.
  induction Hblocks as [|b blocks (Hquiet & Hspace & Hcontent) _ IH];
    intros fuel prev Hfuel.
  - destruct fuel as [|fuel]; [simpl in Hfuel; lia|].
    cbn [Regex.execAll document]. by rewrite exec_finds_nothing.
  - destruct fuel as [|fuel]; [simpl in Hfuel; lia|].
    cbn [Regex.execAll document].
    destruct (matchHere_fence (tagSpace b) (inner b) (document blocks tail)
                              (lastCodeUnit prev (noiseBefore b)) Hspace Hcontent)
      as (captured & Hmatch & Htrim).
    assert (Hexec : Regex.exec codeBlockPattern prev
                      (noiseBefore b +:+ fence (tagSpace b) (inner b)
                       +:+ document blocks tail)
                    = Some (captured, Some backtick, document blocks tail)).
    { unfold fence in *. rewrite !app_assoc_str in *.
      rewrite exec_skips_noise by done.
      by apply exec_here. }
    rewrite Hexec. rewrite !fmap_cons, Htrim. f_equal.
    apply IH. simpl in Hfuel. lia.
Qed.

Lemma length_document (blocks : list FencedBlock) (tail : string) :
  length blocks ≤ String.length (document blocks tail).
Proof.
  induction blocks as [|b blocks IH]; simpl; [lia|].
  rewrite !length_app_str. unfold fence. rewrite !length_app_str. simpl. lia.
Qed.

End Documents.

(** For every text made of fenced blocks tagged [repl], each with a content
    that is not blank and holds no closing fence, after noise in which no
    tag begins, [findCodeBlocks] returns the trimmed contents, one for each
    block, in order. *)
Lemma findCodeBlocks_document (blocks : list FencedBlock) (tail : string) :
  Forall wellFormed blocks →
  JS.includes tail "```repl" = false →
  findCodeBlocks (document blocks tail) = (λ b, JS.trim (inner b)) <$> blocks.
Proof.
  intros Hblocks Htail. unfold findCodeBlocks.
  apply execAll_document; [done..|].
  pose proof (length_document blocks tail). lia.
Qed.

Section Fuel.

Lemma eatLit_length (l s s' : string) (prev prev' : option ascii) :
  Regex.eatLit l prev s = Some (prev', s') →
  String.length s = String.length l + String.length s'.
Proof.
  revert s prev. induction l as [|a l IH]; intros s prev; simpl.
  - by intros [= _ ->].
  - destruct s as [|b s]; [done|]. destruct (Ascii.eqb a b); [|done].
    intros H. simpl. by rewrite (IH _ _ H).
Qed.


Lemma repLoop_shrinking (captured greedy : bool) (cls : ascii → bool)
      (k : option ascii → string → string → option Regex.found) :
  shrinking k → shrinking (Regex.repLoop captured greedy cls k).
Proof.
  intros Hk prev s. revert prev.
  induction s as [|c s IH]; intros prev cap cap' prev' rest; simpl.
  - apply Hk.
  - destruct (cls c); [|apply Hk].
    destruct greedy.
    + destruct (Regex.repLoop captured true cls k (Some c) s _) as [[[? ?] ?]|] eqn:Hdeep.
      * intros [= -> -> ->]. apply IH in Hdeep. lia.
      * apply Hk.
    + destruct (k prev (String c s) cap) as [[[? ?] ?]|] eqn:Hhere.
      * intros [= -> -> ->]. by apply Hk in Hhere.
      * intros Hdeep. apply IH in Hdeep. lia.
Qed.

Lemma matchHere_shrinking (p : Regex.pattern) : shrinking (Regex.matchHere p).
Proof.
  induction p as [|[l|captured greedy cls| |] p IH]; intros prev s cap cap' prev' rest;
    cbn [Regex.matchHere].
  - by intros [= _ _ ->].
  - destruct (Regex.eatLit l prev s) as [[prev1 s1]|] eqn:Heat; [|done].
    intros H. apply IH in H. apply eatLit_length in Heat. lia.
  - by apply repLoop_shrinking.
  - destruct (Regex.atLineStart prev); [apply IH|done].
  - destruct (Regex.atLineEnd s); [apply IH|done].
Qed.

(** A match of the code-block pattern takes its tag out of the text. *)
Lemma exec_codeBlock_shrinks (s : string) (prev : option ascii)
      (captured : string) (prev' : option ascii) (rest : string) :
  Regex.exec codeBlockPattern prev s = Some (captured, prev', rest) →
  String.length rest < String.length s.
Proof.
  revert prev. induction s as [|c s IH]; intros prev; [done|].
  cbn [Regex.exec].
  destruct (Regex.matchHere codeBlockPattern prev (String c s) "")
    as [[[? ?] ?]|] eqn:Hhere.
  - intros [= -> -> ->].
    change (Regex.matchHere codeBlockPattern prev (String c s) "")
      with (match Regex.eatLit "```repl" prev (String c s) with
            | Some (prev1, s1) => Regex.matchHere (tail codeBlockPattern) prev1 s1 ""
            | None => None
            end) in Hhere.
    destruct (Regex.eatLit "```repl" prev (String c s)) as [[prev1 s1]|] eqn:Heat; [|done].
    apply eatLit_length in Heat. apply matchHere_shrinking in Hhere.
    simpl in Heat. simpl. lia.
  - intros H. apply IH in H. simpl. lia.
Qed.

(** The loop of [findCodeBlocks] has ended before its fuel is spent: more
    fuel changes nothing. *)
Lemma execAll_enough_fuel (fuel fuel' : nat) (s : string) (prev : option ascii) :
  String.length s < fuel → String.length s < fuel' →
  Regex.execAll fuel codeBlockPattern prev s
  = Regex.execAll fuel' codeBlockPattern prev s.
Proof.
  revert fuel' s prev. induction fuel as [|fuel IH]; intros fuel' s prev H1 H2; [lia|].
  destruct fuel' as [|fuel']; [lia|]. cbn [Regex.execAll].
  destruct (Regex.exec codeBlockPattern prev s) as [[[captured prev'] rest]|] eqn:Hexec;
    [|done].
  apply exec_codeBlock_shrinks in Hexec. f_equal. apply IH; lia.
Qed.

Lemma findCodeBlocks_fuel (text : string) (extra : nat) :
  JS.trim <$> Regex.execAll (S (String.length text) + extra) codeBlockPattern None text
  = findCodeBlocks text.
Proof. unfold findCodeBlocks. f_equal. apply execAll_enough_fuel; lia. Qed.

End Fuel.


(** C6: the text of two well-formed fences, the first with an empty line for
    content, from which [findCodeBlocks] returns one string, three
    backticks, where the claim has two strings, the empty one and the code
    of the second fence.  After the tag the whitespace star takes the line
    break of the tag too; the lazy capture then runs from the closing fence
    of the first block to the opening of the second. *)
Theorem findCodeBlocks_loses_a_blank_fence :
  blankThenCode = document [mkFenced "" "" ""; mkFenced JS.nl "" "x = 1"] ""
  ∧ (λ b, JS.trim (inner b)) <$> [mkFenced "" "" ""; mkFenced JS.nl "" "x = 1"]
    = [""; "x = 1"]
  ∧ findCodeBlocks blankThenCode = ["```"].
Proof. by vm_compute. Qed.

(** Alone in a text, a fence with an empty line for content is found. *)
Example findCodeBlocks_blank_fence_alone : findCodeBlocks (fence "" "") = [""].
Proof. by vm_compute. Qed.

(* ===================================================================== *)
(** * Further properties of the router, the tracker and the logger *)
(* ===================================================================== *)

(** X1.  A model registered under a non-empty name is the one [getModel]
    answers for that name, at any depth and whatever was registered under
    the name before; what [getModel] answers for any other name, and for no
    name, is what it answered before the registration. *)
Theorem registerModel_then_getModel
        (h : LMHandler.t) (name : string) (model : LanguageModelV1) (depth : nat) :
  name ≠ "" →
  LMHandler.getModel (LMHandler.registerModel name model h) (Some name) depth = model
  ∧ (∀ other, other ≠ name →
       LMHandler.getModel (LMHandler.registerModel name model h) (Some other) depth
       = LMHandler.getModel h (Some other) depth)
  ∧ LMHandler.getModel (LMHandler.registerModel name model h) None depth
    = LMHandler.getModel h None depth.
Proof.
  intros Hname. unfold LMHandler.getModel, LMHandler.registerModel. cbn.
  split; [|split; [|done]].
  - destruct name; [done|]. cbn. by rewrite lookup_insert_eq.
  - intros other Hother. by rewrite lookup_insert_ne.
Qed.

Lemma registerModel_then_getModel_witness :
  LMHandler.getModel (LMHandler.registerModel "gpt-sub" (mkModel "openai" "gpt-sub")
                        (LMHandler.new rootAdapter None)) (Some "gpt-sub") 0
  = mkModel "openai" "gpt-sub"
  ∧ (∀ other, other ≠ "gpt-sub" →
       LMHandler.getModel (LMHandler.registerModel "gpt-sub" (mkModel "openai" "gpt-sub")
                             (LMHandler.new rootAdapter None)) (Some other) 0
       = LMHandler.getModel (LMHandler.new rootAdapter None) (Some other) 0)
  ∧ LMHandler.getModel (LMHandler.registerModel "gpt-sub" (mkModel "openai" "gpt-sub")
                          (LMHandler.new rootAdapter None)) None 0
    = LMHandler.getModel (LMHandler.new rootAdapter None) None 0.
Proof.
  apply (registerModel_then_getModel (LMHandler.new rootAdapter None) "gpt-sub"
           (mkModel "openai" "gpt-sub") 0).
  done.
Defined.

Section TrackerFacts.





End TrackerFacts.


Section LoggerFacts.

Lemma iterationNumbers_app (es1 es2 : list LogEntry) :
  iterationNumbers (es1 ++ es2) = iterationNumbers es1 ++ iterationNumbers es2.
Proof.
  induction es1 as [|[m|n it] es1 IH]; simpl; [done|done|]. by rewrite IH.
Qed.

(** What a run of calls does to a logger that has numbered its iteration
    entries [1..iterationCount] and has logged metadata at most once *)
Lemma callLogger_run (calls : list LoggerCall) (l : RLMLogger.t) :
  let l' := foldl callLogger l calls in
  RLMLogger.iterationCount l'
  = RLMLogger.iterationCount l + length (loggedIterations calls)
  ∧ iterationNumbers (RLMLogger.entries l')
    = iterationNumbers (RLMLogger.entries l)
      ++ seq (S (RLMLogger.iterationCount l)) (length (loggedIterations calls))
  ∧ iterationEntries (RLMLogger.entries l')
    = iterationEntries (RLMLogger.entries l) ++ loggedIterations calls
  ∧ metadataEntries (RLMLogger.entries l')
    = metadataEntries (RLMLogger.entries l)
      ++ (if RLMLogger.metadataLogged l then [] else take 1 (loggedMetadata calls))
  ∧ RLMLogger.metadataLogged l'
    = RLMLogger.metadataLogged l || bool_decide (loggedMetadata calls ≠ []).
Proof.
  revert l. induction calls as [|c calls IH]; intros l; cbn zeta.
  - cbn. rewrite !app_nil_r, Nat.add_0_r, orb_false_r.
    repeat split; try done. destruct (RLMLogger.metadataLogged l); by rewrite app_nil_r.
  - cbn [foldl]. destruct (IH (callLogger l c)) as (Hn & Hnum & Hit & Hmd & Hlogged).
    rewrite Hn, Hnum, Hit, Hmd, Hlogged. clear IH Hn Hnum Hit Hmd Hlogged.
    destruct c as [m|it]; cbn [callLogger loggedIterations loggedMetadata omap list_omap].
    + unfold RLMLogger.logMetadata.
      destruct (RLMLogger.metadataLogged l) eqn:Hl; cbn; rewrite ?Hl.
      * repeat split; done.
      * rewrite iterationNumbers_app, iterationEntries_app, metadataEntries_app. cbn.
        rewrite !app_nil_r. rewrite take_0. repeat split; done.
    + unfold RLMLogger.log. cbn.
      rewrite iterationNumbers_app, iterationEntries_app, metadataEntries_app. cbn.
      rewrite !app_nil_r, <- !app_assoc. cbn.
      repeat split; done.
Qed.

End LoggerFacts.

(** X3.  Whatever calls of [logMetadata] and [log] a new logger receives,
    in whatever order: its iteration entries are the logged iterations in
    order, numbered 1, 2, ... without a gap; [getIterationCount] is their
    number; and the log file holds at most one metadata entry, that of the
    first [logMetadata] call, every later one being dropped. *)
Theorem logger_numbers_iterations_and_keeps_one_metadata (calls : list LoggerCall) :
  let l := foldl callLogger RLMLogger.new calls in
  iterationEntries (RLMLogger.entries l) = loggedIterations calls
  ∧ iterationNumbers (RLMLogger.entries l) = seq 1 (length (loggedIterations calls))
  ∧ RLMLogger.getIterationCount l = length (loggedIterations calls)
  ∧ metadataEntries (RLMLogger.entries l) = take 1 (loggedMetadata calls).
Proof.
  cbn zeta. destruct (callLogger_run calls RLMLogger.new) as (Hn & Hnum & Hit & Hmd & _).
  cbn zeta in *. by rewrite Hit, Hnum, Hmd; unfold RLMLogger.getIterationCount; rewrite Hn.
Qed.

(* ===================================================================== *)
(** * Further properties of the query metadata *)
(* ===================================================================== *)

Section QueryMetadataFacts.

Lemma foldl_add (ls : list nat) (a : nat) : foldl Nat.add a ls = a + sum_list ls.
Proof.
  revert a. induction ls as [|x ls IH]; intros a; simpl; [lia|]. rewrite IH. lia.
Qed.

Lemma sum_sum_list (ls : list nat) : sum ls = sum_list ls.
Proof. unfold sum. by rewrite foldl_add. Qed.

Lemma contentLengths_throws (items : list JSON) :
  (∃ e, contentLengths items = Throw e) ↔ JNull ∈ items.
Proof.
  induction items as [|item items IH]; simpl.
  - split; [by intros [e ?]|]. by intros ?%elem_of_nil.
  - rewrite elem_of_cons. destruct item; simpl;
      try (destruct (contentLengths items) as [ls|e'];
           [ split; [by intros [e ?]|];
             intros [?|Hin]; [done|]; by apply IH in Hin as [e ?]
           | split; [intros _; right; apply IH; by eexists | by eexists] ]).
    split; [by left|by eexists].
Qed.

Lemma contentLengths_length (items : list JSON) (ls : list nat) :
  contentLengths items = Ok ls → length ls = length items.
Proof.
  revert ls. induction items as [|item items IH]; intros ls; simpl.
  - by intros [= <-].
  - destruct (getContent item); [|done].
    destruct (contentLengths items) as [ls'|]; [|done].
    intros [= <-]. simpl. f_equal. by apply IH.
Qed.

Lemma buildQueryMetadata_messages (first : JSON) (rest : list JSON) :
  hasContentProperty first = true →
  buildQueryMetadata (CtxList (first :: rest))
  = match contentLengths (first :: rest) with
    | Throw e => Throw e
    | Ok lengths => Ok (mkQueryMetadata lengths (sum lengths) "list")
    end.
Proof. intros Hfirst. unfold buildQueryMetadata. rewrite Hfirst. by destruct first. Qed.

Lemma buildQueryMetadata_items (first : JSON) (rest : list JSON) :
  hasContentProperty first = false →
  buildQueryMetadata (CtxList (first :: rest))
  = Ok (mkQueryMetadata (valueLength <$> first :: rest)
                        (sum (valueLength <$> first :: rest)) "list").
Proof.
  intros Hfirst. unfold buildQueryMetadata. by rewrite Hfirst, andb_false_r.
Qed.

End QueryMetadataFacts.

(** X4.  Whenever [buildQueryMetadata] returns, the total length it reports
    is the sum of the chunk lengths it reports, and it reports one chunk for
    a text, one for each property of a dictionary, one for each item of a
    list, and one chunk of length 0 for the empty list.  It throws for
    exactly the lists whose first item is an object with a [content]
    property and one of whose later items is [null]. *)
Theorem buildQueryMetadata_totals_and_failure (payload : ContextPayload) :
  (∀ q, buildQueryMetadata payload = Ok q →
     contextTotalLength q = sum_list (contextLengths q)
     ∧ match payload with
       | CtxText s => contextLengths q = [String.length s] ∧ contextType q = "string"
       | CtxList [] => contextLengths q = [0] ∧ contextType q = "list"
       | CtxList items => length (contextLengths q) = length items
                          ∧ contextType q = "list"
       | CtxDict fields => length (contextLengths q) = length fields
                           ∧ contextType q = "dict"
       end)
  ∧ ((∃ e, buildQueryMetadata payload = Throw e)
     ↔ ∃ first rest, payload = CtxList (first :: rest)
                     ∧ hasContentProperty first = true ∧ JNull ∈ rest).
Proof.
  split.
  - intros q Hq. destruct payload as [s|[|first rest]|fields].
    + injection Hq as <-. simpl. split; [lia|done].
    + by injection Hq as <-.
    + unfold buildQueryMetadata in Hq.
      destruct (_ && hasContentProperty first).
      * destruct (contentLengths (first :: rest)) as [ls|] eqn:Hls; [|done].
        injection Hq as <-. cbn [contextTotalLength contextLengths contextType].
        rewrite sum_sum_list. by rewrite (contentLengths_length _ _ Hls).
      * injection Hq as <-. cbn [contextTotalLength contextLengths contextType].
        change (list_fmap JSON nat valueLength rest) with (valueLength <$> rest).
        split; [apply sum_sum_list|]. split; [|done]. cbn [length]. by rewrite length_fmap.
    + injection Hq as <-. cbn [contextTotalLength contextLengths contextType].
      rewrite length_fmap. split; [|done]. by rewrite sum_sum_list.
  - split.
    + intros [e He]. destruct payload as [s|[|first rest]|fields]; try done.
      destruct (hasContentProperty first) eqn:Hfirst.
      * exists first, rest. split; [done|]. split; [done|].
        rewrite (buildQueryMetadata_messages _ _ Hfirst) in He.
        assert (JNull ∈ first :: rest) as [<-|Hin]%elem_of_cons; [|done..].
        apply contentLengths_throws.
        destruct (contentLengths (first :: rest)); [done|by eexists].
      * by rewrite (buildQueryMetadata_items _ _ Hfirst) in He.
    + intros (first & rest & -> & Hfirst & Hin).
      rewrite (buildQueryMetadata_messages _ _ Hfirst).
      destruct (proj2 (contentLengths_throws (first :: rest))) as [e ->];
        [by right|by eexists].
Qed.

(* ===================================================================== *)
(** * Further properties of the parsing module *)
(* ===================================================================== *)

Section LiteralFacts.

Lemma eatLit_Some (l s s' : string) (prev prev' : option ascii) :
  Regex.eatLit l prev s = Some (prev', s') → s = l +:+ s'.
Proof.
  revert s prev. induction l as [|a l IH]; intros s prev; simpl.
  - by intros [= _ ->].
  - destruct s as [|b s]; [done|]. destruct (Ascii.eqb_spec a b) as [->|]; [|done].
    intros H. rewrite app_cons_str. f_equal. by eapply IH.
Qed.

(** A star hands to what follows it a suffix of the text it was given. *)
Lemma repLoop_None (captured greedy : bool) (cls : ascii → bool) (l : string)
      (k : option ascii → string → string → option Regex.found) :
  (∀ prev s cap, JS.includes s l = false → k prev s cap = None) →
  ∀ s prev cap, JS.includes s l = false →
                Regex.repLoop captured greedy cls k prev s cap = None.
Proof.
  intros Hk. induction s as [|c s IH]; intros prev cap Hs; simpl; [by apply Hk|].
  pose proof (includes_false_tail _ _ _ Hs) as Hs'.
  destruct (cls c); [|by apply Hk].
  destruct greedy; rewrite IH by done; rewrite Hk by done; done.
Qed.

(** A pattern matches only in a text that holds each of its literals. *)
Lemma matchHere_needs_literal (p : Regex.pattern) (l : string) :
  In (Regex.Lit l) p →
  ∀ prev s cap, JS.includes s l = false → Regex.matchHere p prev s cap = None.
Proof.
  induction p as [|node p IH]; [done|]. intros Hin prev s cap Hs.
  destruct node as [l0|captured greedy cls| |]; cbn [Regex.matchHere].
  - destruct (Regex.eatLit l0 prev s) as [[prev' s']|] eqn:Heat; [|done].
    apply eatLit_Some in Heat as ->.
    destruct Hin as [[= ->]|Hin].
    + apply includes_false_here in Hs. by rewrite startsWith_app in Hs.
    + apply IH; [done|]. by eapply includes_false_suffix.
  - destruct Hin as [|Hin]; [done|].
    apply repLoop_None with (l := l); [|done]. intros. by apply IH.
  - destruct Hin as [|Hin]; [done|].
    destruct (Regex.atLineStart prev); [by apply IH|done].
  - destruct Hin as [|Hin]; [done|].
    destruct (Regex.atLineEnd s); [by apply IH|done].
Qed.

Lemma exec_needs_literal (p : Regex.pattern) (l : string) :
  In (Regex.Lit l) p →
  ∀ s prev, JS.includes s l = false → Regex.exec p prev s = None.
Proof.
  intros Hin. induction s as [|c s IH]; intros prev Hs; cbn [Regex.exec];
    rewrite (matchHere_needs_literal p l Hin) by done; [done|].
  apply IH. by eapply includes_false_tail.
Qed.

End LiteralFacts.

(** X5.  For every text made of [k] fenced blocks tagged [repl] -- the tag
    followed by whitespace only, a content with a non-whitespace character
    and no line break followed by three backticks -- each after noise in
    which no [```repl] tag begins, with such noise after the last one:
    [findCodeBlocks] returns [k] strings, the contents of the fences in
    source order, each with its leading and trailing whitespace stripped. *)
Theorem findCodeBlocks_returns_every_plain_block
        (blocks : list FencedBlock) (tail : string) :
  Forall wellFormed blocks →
  JS.includes tail "```repl" = false →
  findCodeBlocks (document blocks tail) = (λ b, JS.trim (inner b)) <$> blocks
  ∧ length (findCodeBlocks (document blocks tail)) = length blocks.
Proof.
  intros Hblocks Htail.
  assert (H : findCodeBlocks (document blocks tail) = (λ b, JS.trim (inner b)) <$> blocks).
  { unfold findCodeBlocks. apply execAll_document; [done..|].
    pose proof (length_document blocks tail). lia. }
  split; [exact H|]. by rewrite H, length_fmap.
Qed.

Lemma findCodeBlocks_returns_every_plain_block_witness :
  findCodeBlocks
    (document [mkFenced "First:" " " (" x = 1" +:+ JS.nl);
               mkFenced (JS.nl +:+ "then ```python" +:+ JS.nl) "" "print(x)"]
              " done")
  = (λ b, JS.trim (inner b))
      <$> [mkFenced "First:" " " (" x = 1" +:+ JS.nl);
           mkFenced (JS.nl +:+ "then ```python" +:+ JS.nl) "" "print(x)"]
  ∧ length (findCodeBlocks
              (document [mkFenced "First:" " " (" x = 1" +:+ JS.nl);
                         mkFenced (JS.nl +:+ "then ```python" +:+ JS.nl) "" "print(x)"]
                        " done"))
    = length [mkFenced "First:" " " (" x = 1" +:+ JS.nl);
              mkFenced (JS.nl +:+ "then ```python" +:+ JS.nl) "" "print(x)"].
Proof.
  apply (findCodeBlocks_returns_every_plain_block
           [mkFenced "First:" " " (" x = 1" +:+ JS.nl);
            mkFenced (JS.nl +:+ "then ```python" +:+ JS.nl) "" "print(x)"] " done").
  - repeat constructor.
  - reflexivity.
Defined.

(** X6.  A text that holds no [```repl] tag, or no line break followed by
    three backticks, has no code blocks: a fence that is never closed is
    not found. *)
Theorem findCodeBlocks_needs_tag_and_closing_fence (text : string) :
  JS.includes text "```repl" = false ∨ JS.includes text (JS.nl +:+ "```") = false →
  findCodeBlocks text = [].
Proof.
  intros H. unfold findCodeBlocks. cbn [Regex.execAll].
  assert (Hexec : Regex.exec codeBlockPattern None text = None); [|by rewrite Hexec].
  destruct H as [H|H].
  - apply (exec_needs_literal codeBlockPattern "```repl"); [|done]. by left.
  - apply (exec_needs_literal codeBlockPattern (JS.nl +:+ "```")); [|done].
    do 4 right. by left.
Qed.

Lemma findCodeBlocks_needs_tag_and_closing_fence_witness :
  findCodeBlocks ("```repl" +:+ JS.nl +:+ "x = 1" +:+ JS.nl +:+ "print(x)") = [].
Proof.
  apply (findCodeBlocks_needs_tag_and_closing_fence
           ("```repl" +:+ JS.nl +:+ "x = 1" +:+ JS.nl +:+ "print(x)")).
  right. reflexivity.
Defined.

Section FinalFacts.

(** Past whitespace, a greedy capture of anything finds no closing
    parenthesis. *)
Lemma greedy_any_over_space (p : Regex.pattern) (trailing : string)
      (prev : option ascii) (cap : string) :
  allChars JS.isWhiteSpace trailing = true →
  Regex.repLoop true true Regex.any (Regex.matchHere (Regex.Lit ")" :: p))
                prev trailing cap = None.
Proof.
  revert prev cap. induction trailing as [|c t IH]; intros prev cap Ht; [done|].
  simpl in Ht. apply andb_true_iff in Ht as [Hc Ht].
  cbn [Regex.repLoop Regex.any]. rewrite IH by done.
  cbn [Regex.matchHere Regex.eatLit].
  destruct (Ascii.eqb_spec ")" c) as [<-|]; [done|done].
Qed.

(** The greedy whitespace star before the end of the line *)
Lemma greedy_space_to_line_end (trailing : string) (prev : option ascii) (cap : string) :
  allChars JS.isWhiteSpace trailing = true →
  Regex.repLoop false true JS.isWhiteSpace (Regex.matchHere [Regex.Eol])
                prev trailing cap
  = Some (cap, lastCodeUnit prev trailing, "").
Proof.
  revert prev. induction trailing as [|c t IH]; intros prev Ht; [done|].
  simpl in Ht. apply andb_true_iff in Ht as [Hc Ht].
  cbn [Regex.repLoop lastCodeUnit]. by rewrite Hc, IH.
Qed.

Lemma snoc_app (cap : string) (c : ascii) (s : string) :
  Regex.snoc cap c +:+ s = cap +:+ String c s.
Proof. unfold Regex.snoc. by rewrite app_assoc_str. Qed.

(** The greedy capture of the FINAL pattern runs to the last closing
    parenthesis. *)
Lemma greedy_capture_to_last_paren (body trailing : string)
      (prev : option ascii) (cap : string) :
  allChars JS.isWhiteSpace trailing = true →
  Regex.repLoop true true Regex.any
    (Regex.matchHere [Regex.Lit ")"; Regex.Rep false true JS.isWhiteSpace; Regex.Eol])
    prev (body +:+ ")" +:+ trailing) cap
  = Some (cap +:+ body, lastCodeUnit (Some ")"%char) trailing, "").
Proof.
  intros Ht. revert prev cap. induction body as [|c body IH]; intros prev cap.
  - rewrite app_nil_l_str, app_nil_r_str.
    change (")" +:+ trailing) with (String ")" trailing).
    cbn [Regex.repLoop Regex.any]. rewrite greedy_any_over_space by done.
    cbn [Regex.matchHere Regex.eatLit]. rewrite Ascii.eqb_refl.
    by apply greedy_space_to_line_end.
  - rewrite app_cons_str. cbn [Regex.repLoop Regex.any].
    rewrite IH. by rewrite snoc_app.
Qed.

(** A greedy, uncaptured star over a run of its class goes on with what
    follows when that matches after the run. *)
Lemma repLoop_greedy_run (cls : ascii → bool)
      (k : option ascii → string → string → option Regex.found)
      (run rest cap : string) (prev : option ascii) (r : Regex.found) :
  allChars cls run = true →
  k (lastCodeUnit prev run) rest cap = Some r →
  (∀ c rest', rest = String c rest' → cls c = false) →
  Regex.repLoop false true cls k prev (run +:+ rest) cap = Some r.
Proof.
  intros Hrun Hk Hrest. revert prev Hrun Hk.
  induction run as [|c run IH]; intros prev Hrun Hk.
  - rewrite app_nil_l_str. simpl in Hk. destruct rest as [|c rest']; [done|].
    cbn [Regex.repLoop]. by rewrite (Hrest c rest' eq_refl).
  - simpl in Hrun. apply andb_true_iff in Hrun as [Hc Hrun].
    rewrite app_cons_str. cbn [Regex.repLoop]. rewrite Hc.
    by rewrite (IH (Some c) Hrun Hk).
Qed.

Lemma finalPattern_alone (indent body trailing : string) :
  allChars JS.isWhiteSpace indent = true →
  allChars JS.isWhiteSpace trailing = true →
  Regex.exec finalPattern None (indent +:+ "FINAL(" +:+ body +:+ ")" +:+ trailing)
  = Some (body, lastCodeUnit (Some ")"%char) trailing, "").
Proof.
  intros Hindent Htrailing. apply exec_here.
  unfold finalPattern. cbn [Regex.matchHere Regex.atLineStart].
  apply repLoop_greedy_run; [done| |by intros c rest' [= <- _]].
  cbn [Regex.matchHere]. rewrite eatLit_app.
  rewrite greedy_capture_to_last_paren by done. by rewrite app_nil_l_str.
Qed.

End FinalFacts.

(** X7.  For a response that is one [FINAL(...)] marker, possibly indented
    and followed by whitespace, and that holds no [FINAL_VAR(] anywhere:
    [findFinalAnswer] answers everything between [FINAL(] and the last
    closing parenthesis, parentheses and line breaks included, with its
    outer whitespace stripped; no code is run in the sandbox. *)
Theorem findFinalAnswer_takes_the_whole_argument
        {SB : Type} (sbx : SandboxImpl SB) (indent body trailing : string)
        (hasSandbox : bool) (w : World SB) :
  allChars JS.isWhiteSpace indent = true →
  allChars JS.isWhiteSpace trailing = true →
  JS.includes (indent +:+ "FINAL(" +:+ body +:+ ")" +:+ trailing) "FINAL_VAR(" = false →
  findFinalAnswer sbx (indent +:+ "FINAL(" +:+ body +:+ ")" +:+ trailing) hasSandbox w
  = (Ok (Some (JS.trim body)), w).
Proof.
  intros Hindent Htrailing Hvar. unfold findFinalAnswer.
  rewrite (exec_needs_literal finalVarPattern "FINAL_VAR(") by (done || (do 2 right; by left)).
  unfold finalAnswerOf. by rewrite finalPattern_alone.
Qed.

Lemma findFinalAnswer_takes_the_whole_argument_witness :
  findFinalAnswer echoSandbox
    (" " +:+ "FINAL(" +:+ ("f(x) = (1)" +:+ JS.nl +:+ "g(y) " ) +:+ ")" +:+ JS.nl)
    true (withSandbox (Some []) initialWorld)
  = (Ok (Some (JS.trim ("f(x) = (1)" +:+ JS.nl +:+ "g(y) "))),
     withSandbox (Some []) initialWorld).
Proof.
  apply (findFinalAnswer_takes_the_whole_argument echoSandbox " "
           ("f(x) = (1)" +:+ JS.nl +:+ "g(y) ") JS.nl true
           (withSandbox (Some []) initialWorld)); reflexivity.
Defined.

Section LineStartFacts.

(** Greedy whitespace and then a literal that begins with no whitespace:
    the literal must stand right after the leading whitespace. *)
Lemma space_then_literal_None (a : ascii) (l : string) (p : Regex.pattern)
      (s : string) (prev : option ascii) (cap : string) :
  JS.isWhiteSpace a = false →
  JS.startsWith (JS.trimStart s) (String a l) = false →
  Regex.repLoop false true JS.isWhiteSpace
                (Regex.matchHere (Regex.Lit (String a l) :: p)) prev s cap = None.
Proof.
  intros Ha. revert prev. induction s as [|c s IH]; intros prev Hs; [done|].
  cbn [Regex.repLoop]. cbn [JS.trimStart] in Hs.
  destruct (JS.isWhiteSpace c) eqn:Hc.
  - rewrite IH by done. cbn [Regex.matchHere Regex.eatLit].
    destruct (Ascii.eqb_spec a c) as [->|]; [congruence|done].
  - cbn [Regex.matchHere]. by rewrite eatLit_None.
Qed.

Lemma matchHere_Bol_Rep (captured greedy : bool) (cls : ascii → bool)
      (p : Regex.pattern) (prev : option ascii) (s cap : string) :
  Regex.matchHere (Regex.Bol :: Regex.Rep captured greedy cls :: p) prev s cap
  = if Regex.atLineStart prev
    then Regex.repLoop captured greedy cls (Regex.matchHere p) prev s cap
    else None.
Proof. reflexivity. Qed.

(** Inside a line, no position is a line start. *)
Lemma exec_inside_line (p : Regex.pattern) (s : string) (c : ascii) :
  Regex.notLineTerminator c = true →
  allChars Regex.notLineTerminator s = true →
  Regex.exec (Regex.Bol :: p) (Some c) s = None.
Proof.
  unfold Regex.notLineTerminator at 1. intros Hc%negb_true_iff.
  revert c Hc. induction s as [|d s IH]; intros c Hc Hs;
    cbn [Regex.exec Regex.matchHere Regex.atLineStart]; rewrite Hc; [done|].
  simpl in Hs. apply andb_true_iff in Hs as [Hd Hs].
  apply IH; [|done]. by apply negb_true_iff.
Qed.

Lemma exec_line_start_only (a : ascii) (l : string) (p : Regex.pattern) (s : string) :
  JS.isWhiteSpace a = false →
  allChars Regex.notLineTerminator s = true →
  JS.startsWith (JS.trimStart s) (String a l) = false →
  Regex.exec (Regex.Bol :: Regex.Rep false true JS.isWhiteSpace
              :: Regex.Lit (String a l) :: p) None s = None.
Proof.
  intros Ha Hline Hs.
  assert (Hhere : ∀ prev,
             Regex.matchHere (Regex.Bol :: Regex.Rep false true JS.isWhiteSpace
                              :: Regex.Lit (String a l) :: p) prev s "" = None).
  { intros prev. rewrite matchHere_Bol_Rep. rewrite space_then_literal_None by done.
    by destruct (Regex.atLineStart prev). }
  destruct s as [|c s]; cbn [Regex.exec]; rewrite Hhere; [done|].
  simpl in Hline. apply andb_true_iff in Hline as [Hc Hline].
  by apply exec_inside_line.
Qed.

End LineStartFacts.

(** X8.  A marker counts only at the start of a line: for a response of one
    line (no line terminator in it) whose first non-whitespace is neither
    [FINAL(] nor [FINAL_VAR(], [findFinalAnswer] answers [null], whatever
    markers stand further on in the line, and runs nothing in the
    sandbox. *)
Theorem findFinalAnswer_ignores_a_marker_inside_a_line
        {SB : Type} (sbx : SandboxImpl SB) (text : string)
        (hasSandbox : bool) (w : World SB) :
  allChars Regex.notLineTerminator text = true →
  JS.startsWith (JS.trimStart text) "FINAL(" = false →
  JS.startsWith (JS.trimStart text) "FINAL_VAR(" = false →
  findFinalAnswer sbx text hasSandbox w = (Ok None, w).
Proof.
  intros Hline Hfinal Hvar. unfold findFinalAnswer, finalVarPattern.
  rewrite exec_line_start_only by done.
  unfold finalAnswerOf, finalPattern. by rewrite exec_line_start_only.
Qed.

Lemma findFinalAnswer_ignores_a_marker_inside_a_line_witness :
  findFinalAnswer echoSandbox "The answer is FINAL(42)" true
                  (withSandbox (Some []) initialWorld)
  = (Ok None, withSandbox (Some []) initialWorld).
Proof.
  apply (findFinalAnswer_ignores_a_marker_inside_a_line echoSandbox
           "The answer is FINAL(42)" true (withSandbox (Some []) initialWorld));
    reflexivity.
Defined.

Section RenderingFacts.

Lemma underscore_names (key : string) :
  JS.startsWith key "_" = false →
  bool_decide (key ∈ ["__builtins__"; "__name__"; "__doc__"]) = false.
Proof.
  intros Hkey. apply bool_decide_eq_false. intros Hin.
  repeat (apply elem_of_cons in Hin as [->|Hin]; [done|]).
  by apply elem_of_nil in Hin.
Qed.

Lemma join_cons_head (sep : string) (c : ascii) (x : string) (rest : list string) :
  ∃ more, JS.join sep (String c x :: rest) = String c more.
Proof. destruct rest; simpl; by eexists. Qed.

End RenderingFacts.

(** X9.  The variables [formatExecutionResult] lists are, in the order of
    the locals, those whose name does not begin with an underscore and
    whose value is not [null]; and the rendering is [No output] exactly
    when stdout and stderr are empty and there is no variable to list. *)
Theorem formatExecutionResult_lists_public_variables (r : REPLResult) :
  importantVars (locals r)
  = fst <$> filter (λ kv, JS.startsWith kv.1 "_" = false ∧ isNull kv.2 = false) (locals r)
  ∧ (formatExecutionResult r = "No output"
     ↔ stdout r = "" ∧ stderr r = "" ∧ importantVars (locals r) = []).
Proof.
  split.
  - induction (locals r) as [|[key value] entries IH]; [done|].
    cbn [importantVars]. rewrite filter_cons. cbn [fst snd].
    destruct (JS.startsWith key "_") eqn:Hkey.
    + rewrite decide_False by (by intros [? _]). exact IH.
    + rewrite underscore_names by done.
      destruct value; cbn;
        try (rewrite decide_True by done; rewrite fmap_cons; cbn; by rewrite IH).
      rewrite decide_False by (by intros [_ ?]). exact IH.
  - unfold formatExecutionResult.
    destruct (stdout r) as [|c out]; cbn [JS.truthy].
    + destruct (stderr r) as [|c err]; cbn [JS.truthy].
      * destruct (importantVars (locals r)) as [|v vars]; [done|].
        split; [|by intros (_ & _ & ?)]. cbn. by intros [=].
      * split; [|by intros (_ & ? & _)]. cbn [app].
        destruct (join_cons_head (JS.nl +:+ JS.nl) JS.LF (String c err)
                    (match importantVars (locals r) with
                     | [] => []
                     | _ => ["REPL variables: [" +:+
                             JS.join ", " ((λ v, "'" +:+ v +:+ "'") <$> importantVars (locals r))
                             +:+ "]" +:+ JS.nl]
                     end)) as [more Hmore].
        change (JS.nl +:+ String c err) with (String JS.LF (String c err)).
        rewrite Hmore. by intros [=].
    + split; [|by intros (? & _)]. cbn [app].
      match goal with
      | |- JS.join ?sep (_ :: ?rest) = _ → _ =>
          destruct (join_cons_head sep JS.LF (String c out) rest) as [more Hmore]
      end.
      change (JS.nl +:+ String c out) with (String JS.LF (String c out)).
      rewrite Hmore. by intros [=].
Qed.

(** X10.  [formatIteration] returns the assistant message with the response
    and then one user message for each code block, in order; a rendering of
    at most [maxCharacterLength] characters -- exactly that many included --
    stands in its message whole, after the code of the block. *)
Theorem formatIteration_keeps_a_short_rendering
        (iteration : RLMIteration) (maxCharacterLength : nat) :
  length (formatIteration iteration maxCharacterLength)
  = S (length (codeBlocks iteration))
  ∧ formatIteration iteration maxCharacterLength !! 0
    = Some (mkMessage assistant (iterResponse iteration))
  ∧ ∀ i b,
      codeBlocks iteration !! i = Some b →
      String.length (formatExecutionResult (result b)) ≤ maxCharacterLength →
      formatIteration iteration maxCharacterLength !! S i
      = Some (mkMessage user
                ("Code executed:" +:+ JS.nl +:+ "```python" +:+ JS.nl +:+ code b
                 +:+ JS.nl +:+ "```" +:+ JS.nl +:+ JS.nl +:+ "REPL output:" +:+ JS.nl
                 +:+ formatExecutionResult (result b))).
Proof.
  unfold formatIteration. split; [by rewrite length_cons, length_fmap|].
  split; [done|]. intros i b Hb Hlen. rewrite lookup_cons.
  rewrite list_lookup_fmap, Hb. cbn [fmap option_fmap option_map].
  unfold codeBlockMessage, clampResult.
  destruct (Nat.ltb_spec maxCharacterLength
              (String.length (formatExecutionResult (result b)))); [lia|].
  unfold codeMessageHead, codeMessageMid. by rewrite !app_assoc_str.
Qed.

(* ===================================================================== *)
(** * Further properties of the request paths of the router *)
(* ===================================================================== *)

Section RequestFacts.
Context {SB : Type}.
Variable lm : LM.

Lemma track_run (w : World SB) (h : LMHandler.t) (name : string) (i o : nat) :
  router w = Some h →
  track name i o w
  = (Ok (), routerTracking h (UsageTracker.track name i o (LMHandler.tracker h)) w).
Proof.
  intros Hr. unfold track. rewrite bind_run. unfold theRouter. by rewrite Hr.
Qed.

Lemma dispatchAll_run (model : LanguageModelV1) (prompts : list Prompt) (w : World SB) :
  dispatchAll lm model prompts w
  = (Ok (batchOutcomes lm (length (lmCalls w)) model prompts),
     withLmCalls (λ calls, calls ++ batchCalls model prompts) w).
Proof.
  revert w. induction prompts as [|p prompts IH]; intros w.
  - cbn. unfold mret, M_ret, withLmCalls. rewrite app_nil_r. by destruct w.
  - cbn [dispatchAll]. rewrite bind_run. unfold invoke at 1.
    rewrite bind_run, IH. unfold mret, M_ret. f_equal.
    + f_equal. unfold batchOutcomes. cbn [imap]. rewrite Nat.add_0_r. f_equal.
      apply imap_ext. intros i q _. cbn [withLmCalls lmCalls compose].
      rewrite length_app. cbn [length]. f_equal. lia.
    + unfold withLmCalls, batchCalls. cbn. rewrite <- app_assoc. done.
Qed.

Lemma allSettled_Ok (outcomes : list (Outcome GenerateResult)) (rs : list GenerateResult) :
  allSettled outcomes = Ok rs ↔ outcomes = Ok <$> rs.
Proof.
  revert rs. induction outcomes as [|[r|e] outcomes IH]; intros rs; simpl.
  - split; [intros [= <-]; done|]. by destruct rs.
  - destruct (allSettled outcomes) as [rs'|e'] eqn:Hall.
    + split.
      * intros [= <-]. rewrite fmap_cons. f_equal. by apply IH.
      * destruct rs as [|r0 rs0]; [done|]. rewrite fmap_cons. intros [= -> Hrest].
        apply IH in Hrest as [= ->]. done.
    + split; [done|]. destruct rs as [|r0 rs0]; [done|].
      rewrite fmap_cons. intros [= -> Hrest]. by apply IH in Hrest.
  - split; [done|]. by destruct rs.
Qed.

Lemma allSettled_Throw (outcomes : list (Outcome GenerateResult)) :
  (∃ e, allSettled outcomes = Throw e) ↔ ∃ i e, outcomes !! i = Some (Throw e).
Proof.
  induction outcomes as [|[r|e] outcomes IH]; simpl.
  - split; [by intros [e ?]|by intros (i & e & ?)].
  - destruct (allSettled outcomes) as [rs|e'].
    + split; [by intros [e ?]|]. intros ([|i] & e & Hi); [done|].
      destruct (proj2 IH) as [? ?]; [by exists i, e|done].
    + split; [|by eexists]. intros _.
      destruct (proj1 IH) as (i & e & Hi); [by eexists|]. by exists (S i), e.
  - split; [|by eexists]. intros _. by exists 0, e.
Qed.

Lemma trackAll_run (name : string) (prs : list (Prompt * GenerateResult))
      (w : World SB) (h : LMHandler.t) :
  router w = Some h →
  trackAll name prs w
  = (Ok ((λ pr, (text pr.2, singleCallRecord name pr.1 pr.2)) <$> prs),
     routerTracking h (trackCalls (trackedAs name <$> prs.*2) (LMHandler.tracker h)) w).
Proof.
  revert w h. induction prs as [|[p r] prs IH]; intros w h Hr.
  - cbn. unfold mret, M_ret, routerTracking, withRouter, LMHandler.withTracker.
    destruct w, h. simpl in *. by subst.
  - cbn [trackAll]. rewrite bind_run, (track_run _ _ _ _ _ Hr).
    rewrite bind_run. erewrite IH by done. cbn [mret M_ret]. by f_equal.
Qed.

Lemma zipped_records (name : string) (prompts : list Prompt)
      (results : list GenerateResult) :
  length prompts = length results →
  ((λ pr : Prompt * GenerateResult, (text pr.2, singleCallRecord name pr.1 pr.2))
     <$> zip prompts results).*1 = text <$> results
  ∧ ((λ pr : Prompt * GenerateResult, (text pr.2, singleCallRecord name pr.1 pr.2))
       <$> zip prompts results).*2 = zip_with (singleCallRecord name) prompts results.
Proof.
  revert prompts. induction results as [|r results IH]; intros [|p prompts] Hlen;
    try done.
  destruct (IH prompts) as [H1 H2]; [simpl in Hlen; lia|].
  cbn. cbn in H1, H2. by rewrite H1, H2.
Qed.

End RequestFacts.

(** X11.  A request to [/llm_query], on a running router: the adapter is
    invoked once, on the model [getModel] selects for the request's model
    name and depth, with the normalised prompt.  When it answers, the reply
    carries its text, and one call with its token counts is booked by the
    tracker under the model name the request carried -- registered or not,
    and even empty -- or, when it carried none, under the id of the model
    that served it.  When it throws, so does the request, and nothing is
    booked. *)
Theorem handleSingle_books_the_call_under_the_requested_name
        {SB : Type} (lm : LM) (data : SingleRequest) (w : World SB) (h : LMHandler.t) :
  router w = Some h →
  let model := LMHandler.getModel h (reqModel data) (default 0 (reqDepth data)) in
  let messages := LMHandler.normalisePrompt (reqPrompt data) in
  let name := default (modelId model) (reqModel data) in
  let called := withLmCalls (λ calls, calls ++ [(model, messages)]) w in
  handleSingle lm data w
  = match lm (length (lmCalls w)) model messages with
    | Ok r =>
        (Ok (text r, singleCallRecord name (reqPrompt data) r),
         routerTracking h
           (UsageTracker.track name (inputTokensOf r) (outputTokensOf r)
                               (LMHandler.tracker h)) called)
    | Throw e => (Throw e, called)
    end.
Proof.
  intros Hr. cbn zeta. unfold handleSingle. rewrite bind_run.
  unfold theRouter at 1. rewrite Hr. rewrite bind_run. unfold generateText at 1.
  unfold hookModel. destruct (lm _ _ _) as [r|e]; [|done].
  rewrite bind_run. by erewrite track_run by done.
Qed.

Lemma handleSingle_books_the_call_under_the_requested_name_witness :
  handleSingle (SB:=list string) ponderingLM
    (mkSingleRequest (PromptText "hi") (Some "unregistered") None)
    (withRouter (Some (LMHandler.new rootAdapter None)) initialWorld)
  = (Ok ("Let me think.",
         singleCallRecord "unregistered" (PromptText "hi")
                          (mkGenerated "Let me think." None)),
     routerTracking (LMHandler.new rootAdapter None)
       (UsageTracker.track "unregistered" 0 0 UsageTracker.new)
       (withLmCalls (λ calls, calls ++ [(rootAdapter, [mkMessage user "hi"])])
          (withRouter (Some (LMHandler.new rootAdapter None)) initialWorld))).
Proof.
  apply (handleSingle_books_the_call_under_the_requested_name (SB:=list string)
           ponderingLM (mkSingleRequest (PromptText "hi") (Some "unregistered") None)
           (withRouter (Some (LMHandler.new rootAdapter None)) initialWorld)
           (LMHandler.new rootAdapter None)).
  reflexivity.
Defined.

(** X12.  A request to [/llm_query_batched], on a running router: every
    prompt is dispatched to the selected model, in order, whatever becomes
    of the others.  When all of them are answered, the reply carries the
    texts in the order of the prompts, one call record for each, and the
    tracker has booked one call for each under the requested name (or the
    serving model's id).  When one of them throws, the request throws and
    the tracker has booked nothing, though every prompt was dispatched. *)
Theorem handleBatched_dispatches_all_and_books_all_or_nothing
        {SB : Type} (lm : LM) (data : BatchedRequest) (w : World SB) (h : LMHandler.t) :
  router w = Some h →
  let model := LMHandler.getModel h (reqBatchModel data) (default 0 (reqBatchDepth data)) in
  let name := default (modelId model) (reqBatchModel data) in
  let outcomes := batchOutcomes lm (length (lmCalls w)) model (reqPrompts data) in
  let called := withLmCalls (λ calls, calls ++ batchCalls model (reqPrompts data)) w in
  (∀ results, outcomes = Ok <$> results →
     handleBatched lm data w
     = (Ok (text <$> results,
            zip_with (singleCallRecord name) (reqPrompts data) results),
        routerTracking h
          (trackCalls (trackedAs name <$> results) (LMHandler.tracker h)) called))
  ∧ (∀ i e, outcomes !! i = Some (Throw e) →
       ∃ e', handleBatched lm data w = (Throw e', called)).
Proof.
  intros Hr. cbn zeta.
  set (model := LMHandler.getModel h (reqBatchModel data) (default 0 (reqBatchDepth data))).
  set (name := default (modelId model) (reqBatchModel data)).
  set (called := withLmCalls _ w).
  assert (Hrun : handleBatched lm data w
                 = match allSettled (batchOutcomes lm (length (lmCalls w)) model
                                                   (reqPrompts data)) with
                   | Ok rs =>
                       (trackAll name (zip (reqPrompts data) rs)
                        ≫= λ out, mret (out.*1, out.*2)) called
                   | Throw e => (Throw e, called)
                   end).
  { unfold handleBatched. rewrite bind_run. unfold theRouter at 1. rewrite Hr.
    unfold hookModel, generateAll. cbn [fst snd]. fold model. fold name.
    rewrite bind_run, bind_run, dispatchAll_run. fold called.
    by destruct (allSettled _). }
  rewrite Hrun. clear Hrun. split.
  - intros results Hres. rewrite (proj2 (allSettled_Ok _ _) Hres).
    rewrite bind_run. erewrite trackAll_run by done.
    assert (Hlen : length (reqPrompts data) = length results).
    { apply (f_equal length) in Hres. unfold batchOutcomes in Hres.
      by rewrite length_imap, length_fmap in Hres. }
    unfold mret, M_ret. rewrite snd_zip by lia.
    destruct (zipped_records name (reqPrompts data) results Hlen) as [-> ->]. done.
  - intros i e Hi.
    destruct (proj2 (allSettled_Throw _) (ex_intro _ i (ex_intro _ e Hi))) as [e' ->].
    by exists e'.
Qed.

Lemma handleBatched_dispatches_all_and_books_all_or_nothing_witness :
  (∀ results,
     batchOutcomes ponderingLM 0 rootAdapter [PromptText "a"; PromptText "b"]
     = Ok <$> results →
     handleBatched (SB:=list string) ponderingLM
       (mkBatchedRequest [PromptText "a"; PromptText "b"] None None)
       (withRouter (Some (LMHandler.new rootAdapter None)) initialWorld)
     = (Ok (text <$> results,
            zip_with (singleCallRecord "gpt-root") [PromptText "a"; PromptText "b"] results),
        routerTracking (LMHandler.new rootAdapter None)
          (trackCalls (trackedAs "gpt-root" <$> results) UsageTracker.new)
          (withLmCalls (λ calls, calls ++ batchCalls rootAdapter
                                            [PromptText "a"; PromptText "b"])
             (withRouter (Some (LMHandler.new rootAdapter None)) initialWorld))))
  ∧ (∀ i e,
       batchOutcomes ponderingLM 0 rootAdapter [PromptText "a"; PromptText "b"] !! i
       = Some (Throw e) →
       ∃ e', handleBatched (SB:=list string) ponderingLM
               (mkBatchedRequest [PromptText "a"; PromptText "b"] None None)
               (withRouter (Some (LMHandler.new rootAdapter None)) initialWorld)
             = (Throw e',
                withLmCalls (λ calls, calls ++ batchCalls rootAdapter
                                                 [PromptText "a"; PromptText "b"])
                  (withRouter (Some (LMHandler.new rootAdapter None)) initialWorld))).
Proof.
  apply (handleBatched_dispatches_all_and_books_all_or_nothing (SB:=list string)
           ponderingLM (mkBatchedRequest [PromptText "a"; PromptText "b"] None None)
           (withRouter (Some (LMHandler.new rootAdapter None)) initialWorld)
           (LMHandler.new rootAdapter None)).
  reflexivity.
Defined.

(* ===================================================================== *)
(** * Further properties of the driver *)
(* ===================================================================== *)

(** X13.  At or beyond the maximum depth a completion is one plain call of
    the root model with the payload as a single user message (a text as it
    is, anything else as its JSON text): no router is started, no sandbox is
    created, nothing is logged or printed even when a logger or verbose
    output is configured.  It returns the call's text with a usage summary
    of one call, and throws when the call does. *)
Theorem completion_at_max_depth_is_one_plain_call
        {SB : Type} (lm : LM) (sbx : SandboxImpl SB) (osPort : nat) (this : RLM.t)
        (payload : ContextPayload) (rootPrompt : option string) (w : World SB) :
  RLM.maxDepth this ≤ RLM.depth this →
  ∃ w',
    lmCalls w' = lmCalls w ++ [(RLM.model this, fallbackMessages payload)]
    ∧ router w' = router w ∧ sandbox w' = sandbox w
    ∧ persistentSandbox w' = persistentSandbox w
    ∧ logger w' = logger w ∧ console w' = console w
    ∧ RLM.completion lm sbx osPort this payload rootPrompt w
      = (match lm (length (lmCalls w)) (RLM.model this) (fallbackMessages payload) with
         | Ok r =>
             Ok (mkCompletion (modelId (RLM.model this)) payload (text r)
                   (mkUsage {[ modelId (RLM.model this) :=
                                 mkModelUsage 1 (inputTokensOf r) (outputTokensOf r) ]}))
         | Throw e => Throw e
         end, w').
Proof.
  intros Hdepth.
  exists (withLmCalls (λ calls, calls ++ [(RLM.model this, fallbackMessages payload)]) w).
  do 6 (split; [done|]).
  unfold RLM.completion. rewrite (proj2 (Nat.leb_le _ _) Hdepth).
  unfold RLM.fallbackAnswer. rewrite bind_run. unfold generateText.
  replace (match payload with
           | CtxText s => [mkMessage user s]
           | CtxList items => [mkMessage user (JSON_stringify (JArr items))]
           | CtxDict fields => [mkMessage user (JSON_stringify (JObj fields))]
           end) with (fallbackMessages payload) by by destruct payload.
  destruct (lm _ _ _); reflexivity.
Qed.

Lemma completion_at_max_depth_is_one_plain_call_witness :
  ∃ w',
    lmCalls w' = lmCalls (initialWorld (SB:=list string))
                 ++ [(rootAdapter, fallbackMessages (CtxText "hello"))]
    ∧ router w' = router (initialWorld (SB:=list string))
    ∧ sandbox w' = sandbox (initialWorld (SB:=list string))
    ∧ persistentSandbox w' = persistentSandbox (initialWorld (SB:=list string))
    ∧ logger w' = logger (initialWorld (SB:=list string))
    ∧ console w' = console (initialWorld (SB:=list string))
    ∧ RLM.completion ponderingLM echoSandbox 4096
        (RLM.mk rootAdapter None local ∅ 1 1 2 "system prompt" true true false)
        (CtxText "hello") None initialWorld
      = (match ponderingLM (length (lmCalls (initialWorld (SB:=list string))))
                 rootAdapter (fallbackMessages (CtxText "hello")) with
         | Ok r =>
             Ok (mkCompletion (modelId rootAdapter) (CtxText "hello") (text r)
                   (mkUsage {[ modelId rootAdapter :=
                                 mkModelUsage 1 (inputTokensOf r) (outputTokensOf r) ]}))
         | Throw e => Throw e
         end, w').
Proof.
  apply (completion_at_max_depth_is_one_plain_call ponderingLM echoSandbox 4096
           (RLM.mk rootAdapter None local ∅ 1 1 2 "system prompt" true true false)
           (CtxText "hello") None initialWorld).
  simpl. lia.
Defined.

(** X14.  When the sandbox cannot be created (no persistent sandbox is
    held and the factory throws), the completion throws the factory's
    error before any adapter invocation, log entry or console output; the
    router it has started by then is left listening, for the [finally]
    block that stops the router is entered only after the sandbox is
    there. *)
Theorem completion_leaves_the_router_listening_when_no_sandbox
        {SB : Type} (lm : LM) (sbx : SandboxImpl SB) (osPort : nat) (this : RLM.t)
        (payload : ContextPayload) (rootPrompt : option string) (w : World SB)
        (e : string) :
  RLM.depth this < RLM.maxDepth this →
  RLM.persistent this && persistentSandbox w = false →
  createSandbox sbx (RLM.sandboxType this) (sandboxOptionsOf this payload osPort)
  = Throw e →
  RLM.completion lm sbx osPort this payload rootPrompt w
  = (Throw e, withRouter (Some (freshRouter osPort this)) w)
  ∧ LMHandler.listening (freshRouter osPort this) = true.
Proof.
  intros Hdepth Hheld Hcreate. split.
  - unfold RLM.completion. rewrite (proj2 (Nat.leb_gt _ _) Hdepth).
    fold (freshRouter osPort this). rewrite bind_run. cbn [modify].
    rewrite bind_run. unfold RLM.acquireSandbox.
    cbn [persistentSandbox withRouter]. rewrite Hheld.
    rewrite freshRouter_address. fold (sandboxOptionsOf this payload osPort).
    by rewrite Hcreate.
  - unfold freshRouter, LMHandler.start. by destruct (RLM.subModel this).
Qed.

Lemma completion_leaves_the_router_listening_when_no_sandbox_witness :
  RLM.completion ponderingLM unavailableSandbox 4096 observedDriver
                 (CtxText "hello") None initialWorld
  = (Throw "docker: not found",
     withRouter (Some (freshRouter 4096 observedDriver)) initialWorld)
  ∧ LMHandler.listening (freshRouter 4096 observedDriver) = true.
Proof.
  apply (completion_leaves_the_router_listening_when_no_sandbox ponderingLM
           unavailableSandbox 4096 observedDriver (CtxText "hello") None initialWorld
           "docker: not found").
  - simpl. lia.
  - reflexivity.
  - reflexivity.
Defined.

Section Standing.
Context {SB : Type}.

Lemma keeps_ret {A} (a : A) : keeps (SB:=SB) (mret a).
Proof. by intros w r w' [= <- <-]. Qed.

Lemma keeps_throw {A} (e : string) : keeps (SB:=SB) (A:=A) (throw e).
Proof. by intros w r w' [= <- <-]. Qed.

Lemma keeps_bind {A B} (m : M SB A) (f : A → M SB B) :
  keeps m → (∀ a, keeps (f a)) → keeps (m ≫= f).
Proof.
  intros Hm Hf w r w'. rewrite bind_run.
  destruct (m w) as [[a|e] w1] eqn:Hmw.
  - intros Hfa Hw. eapply Hf; [done|]. by eapply Hm.
  - intros [= <- <-]. by eapply Hm.
Qed.

Lemma keeps_if {A} (b : bool) (m1 m2 : M SB A) :
  keeps m1 → keeps m2 → keeps (if b then m1 else m2).
Proof. by destruct b. Qed.

Lemma keeps_modify (f : World SB → World SB) :
  (∀ w, standing w → standing (f w)) → keeps (modify f).
Proof. intros Hf w r w' [= <- <-]. apply Hf. Qed.

Lemma keeps_theRouter : keeps (SB:=SB) theRouter.
Proof. intros w r w'. unfold theRouter. by destruct (router w); intros [= <- <-]. Qed.

Lemma keeps_theSandbox : keeps (SB:=SB) theSandbox.
Proof. intros w r w'. unfold theSandbox. by destruct (sandbox w); intros [= <- <-]. Qed.

Lemma keeps_withSandbox (sb : SB) : keeps (modify (withSandbox (Some sb))).
Proof. apply keeps_modify. by intros w [Hr _]. Qed.

Lemma keeps_withRouter (h : LMHandler.t) : keeps (SB:=SB) (modify (withRouter (Some h))).
Proof. apply keeps_modify. by intros w [_ Hs]. Qed.

Lemma keeps_withLogger (f : RLMLogger.t → RLMLogger.t) :
  keeps (SB:=SB) (modify (withLogger f)).
Proof. by apply keeps_modify. Qed.

Lemma keeps_print (e : PrintEvent) : keeps (SB:=SB) (modify (print e)).
Proof. by apply keeps_modify. Qed.

Lemma keeps_track (name : string) (i o : nat) : keeps (SB:=SB) (track name i o).
Proof.
  unfold track. apply keeps_bind; [apply keeps_theRouter|].
  intros h. apply keeps_withRouter.
Qed.

Variable lm : LM.

Lemma keeps_generateText (model : LanguageModelV1) (ms : list Message) :
  keeps (SB:=SB) (generateText lm model ms).
Proof. by intros w r w' [= <- <-]. Qed.

Lemma keeps_handlerCompletion (p : Prompt) (modelName : option string) :
  keeps (SB:=SB) (handlerCompletion lm p modelName).
Proof.
  unfold handlerCompletion. apply keeps_bind; [apply keeps_theRouter|]. intros h.
  apply keeps_bind; [apply keeps_generateText|]. intros result.
  apply keeps_bind; [apply keeps_track|intros; apply keeps_ret].
Qed.

Variable sbx : SandboxImpl SB.

Lemma keeps_sandboxExecute (code : string) : keeps (sandboxExecute sbx code).
Proof.
  unfold sandboxExecute. apply keeps_bind; [apply keeps_theSandbox|]. intros sb.
  destruct (executeCode sbx sb code) as [ret sb'].
  apply keeps_bind; [apply keeps_withSandbox|intros; apply keeps_ret].
Qed.

Lemma keeps_executeBlocks (codes : list string) : keeps (RLM.executeBlocks sbx codes).
Proof.
  induction codes as [|c codes IH]; simpl; [apply keeps_ret|].
  apply keeps_bind; [apply keeps_sandboxExecute|]. intros ret.
  apply keeps_bind; [apply IH|intros; apply keeps_ret].
Qed.

Lemma keeps_findFinalAnswer (response : string) (b : bool) :
  keeps (findFinalAnswer sbx response b).
Proof.
  unfold findFinalAnswer.
  destruct (Regex.exec finalVarPattern None response) as [[[cap ?] ?]|];
    [|apply keeps_ret].
  unfold finalVarAnswer. destruct b; [|apply keeps_ret].
  apply keeps_bind; [apply keeps_sandboxExecute|]. intros [res|res]; [|apply keeps_ret].
  destruct (String.eqb _ _); apply keeps_ret.
Qed.

Variable this : RLM.t.

Lemma keeps_loggerLog (it : RLMIteration) : keeps (SB:=SB) (RLM.loggerLog this it).
Proof. apply keeps_if; [apply keeps_withLogger|apply keeps_ret]. Qed.

Lemma keeps_verbosePrint (e : PrintEvent) : keeps (SB:=SB) (RLM.verbosePrint this e).
Proof. apply keeps_if; [apply keeps_print|apply keeps_ret]. Qed.

Lemma keeps_storeHistory (hist : list Message) : keeps (RLM.storeHistory sbx this hist).
Proof.
  unfold RLM.storeHistory. apply keeps_bind; [apply keeps_theSandbox|]. intros sb.
  apply keeps_if; [apply keeps_withSandbox|apply keeps_ret].
Qed.

Lemma keeps_completionTurn (ms : list Message) : keeps (RLM.completionTurn lm sbx ms).
Proof.
  unfold RLM.completionTurn.
  apply keeps_bind; [apply keeps_handlerCompletion|]. intros response.
  apply keeps_bind; [apply keeps_executeBlocks|intros; apply keeps_ret].
Qed.

Variable payload : ContextPayload.
Variable rootPrompt : option string.

Lemma keeps_iterate (n i : nat) (hist : list Message) :
  keeps (RLM.iterate lm sbx this payload rootPrompt n i hist).
Proof.
  revert i hist. induction n as [|n IH]; intros i hist; [apply keeps_ret|].
  cbn [RLM.iterate].
  apply keeps_bind; [apply keeps_theSandbox|]. intros sb.
  apply keeps_bind; [apply keeps_completionTurn|]. intros turn.
  apply keeps_bind; [apply keeps_findFinalAnswer|]. intros fa.
  apply keeps_bind; [apply keeps_loggerLog|]. intros _.
  apply keeps_bind; [apply keeps_verbosePrint|]. intros _.
  destruct fa as [answer|]; [|apply IH].
  apply keeps_bind; [apply keeps_theRouter|]. intros h.
  apply keeps_bind; [apply keeps_verbosePrint|]. intros _.
  apply keeps_bind; [apply keeps_verbosePrint|]. intros _.
  apply keeps_bind; [apply keeps_storeHistory|intros; apply keeps_ret].
Qed.

Lemma keeps_completionBody : keeps (RLM.completionBody lm sbx this payload rootPrompt).
Proof.
  unfold RLM.completionBody.
  destruct (buildQueryMetadata payload) as [q|e]; [|apply keeps_throw].
  apply keeps_bind; [apply keeps_iterate|]. intros [c|hist]; [apply keeps_ret|].
  apply keeps_bind.
  { unfold RLM.defaultAnswer.
    apply keeps_bind; [apply keeps_handlerCompletion|]. intros response.
    apply keeps_bind; [apply keeps_loggerLog|intros; apply keeps_ret]. }
  intros answer.
  apply keeps_bind; [apply keeps_theRouter|]. intros h.
  apply keeps_bind; [apply keeps_verbosePrint|]. intros _.
  apply keeps_bind; [apply keeps_verbosePrint|]. intros _.
  apply keeps_bind; [apply keeps_storeHistory|intros; apply keeps_ret].
Qed.

End Standing.

(** X15.  Once a completion below the maximum depth has its sandbox, it
    ends -- by a return or by a throw of the adapter or of the code it runs
    -- with the router stopped, and, unless the driver is persistent, with
    the sandbox cleaned up as the last thing done to it; the outcome is that
    of the [try] block. *)
Theorem completion_always_stops_the_router_and_cleans_up
        {SB : Type} (lm : LM) (sbx : SandboxImpl SB) (osPort : nat) (this : RLM.t)
        (payload : ContextPayload) (rootPrompt : option string) (w : World SB) :
  RLM.depth this < RLM.maxDepth this →
  sandboxReady sbx this payload osPort w →
  ∃ (started : World SB) (h : LMHandler.t) (sb : SB)
    (r : Outcome (RLMChatCompletion ContextPayload)) (body : World SB) (w' : World SB),
    RLM.acquireSandbox sbx this payload (routerAddress osPort)
      (withRouter (Some (freshRouter osPort this)) w) = (Ok (), started)
    ∧ RLM.completionBody lm sbx this payload rootPrompt started = (r, body)
    ∧ RLM.completion lm sbx osPort this payload rootPrompt w = (r, w')
    ∧ router body = Some h ∧ sandbox body = Some sb
    ∧ router w' = Some (LMHandler.stop h)
    ∧ LMHandler.listening (LMHandler.stop h) = false
    ∧ sandbox w' = Some (if RLM.persistent this then sb else cleanup sbx sb).
Proof.
  intros Hdepth Hready.
  destruct (acquireSandbox_ready sbx osPort this payload w (freshRouter osPort this) Hready)
    as (started & sb0 & Hacq & Hr0 & Hs0 & _).
  destruct (RLM.completionBody lm sbx this payload rootPrompt started) as [r body] eqn:Hbody.
  destruct (keeps_completionBody lm sbx this payload rootPrompt started r body Hbody)
    as [[h Hh] [sb Hsb]]; [split; [by rewrite Hr0|by rewrite Hs0]|].
  exists started, h, sb, r, body.
  exists (withSandbox (Some (if RLM.persistent this then sb else cleanup sbx sb))
            (withRouter (Some (LMHandler.stop h)) body)).
  split; [done|]. split; [done|].
  assert (Hfin : RLM.completionFinally sbx this body
                 = (Ok (), withSandbox
                             (Some (if RLM.persistent this then sb else cleanup sbx sb))
                             (withRouter (Some (LMHandler.stop h)) body))).
  { unfold RLM.completionFinally. rewrite bind_run. unfold theRouter. rewrite Hh.
    rewrite bind_run. cbn [modify]. destruct (RLM.persistent this).
    - cbn [mret M_ret]. f_equal. destruct body. simpl in *. by subst.
    - rewrite bind_run. unfold theSandbox. cbn [sandbox withRouter]. by rewrite Hsb. }
  split; [|by repeat split].
  unfold RLM.completion. rewrite (proj2 (Nat.leb_gt _ _) Hdepth).
  fold (freshRouter osPort this). rewrite bind_run. cbn [modify].
  rewrite freshRouter_address. rewrite bind_run, Hacq.
  unfold tryFinally. by rewrite Hbody, Hfin.
Qed.

Lemma completion_always_stops_the_router_and_cleans_up_witness :
  ∃ (started : World (list string)) (h : LMHandler.t) (sb : list string)
    (r : Outcome (RLMChatCompletion ContextPayload)) (body w' : World (list string)),
    RLM.acquireSandbox echoSandbox observedDriver (CtxText "hello") (routerAddress 4096)
      (withRouter (Some (freshRouter 4096 observedDriver)) initialWorld) = (Ok (), started)
    ∧ RLM.completionBody ponderingLM echoSandbox observedDriver (CtxText "hello") None
                         started = (r, body)
    ∧ RLM.completion ponderingLM echoSandbox 4096 observedDriver (CtxText "hello") None
                     initialWorld = (r, w')
    ∧ router body = Some h ∧ sandbox body = Some sb
    ∧ router w' = Some (LMHandler.stop h)
    ∧ LMHandler.listening (LMHandler.stop h) = false
    ∧ sandbox w' = Some (if RLM.persistent observedDriver then sb
                         else cleanup echoSandbox sb).
Proof.
  apply (completion_always_stops_the_router_and_cleans_up ponderingLM echoSandbox 4096
           observedDriver (CtxText "hello") None initialWorld).
  - simpl. lia.
  - apply echoSandbox_ready.
Defined.

Section ConcludingRun.
Context {SB : Type}.
Variable lm : LM.
Variable sbx : SandboxImpl SB.
Variable this : RLM.t.
Variable payload : ContextPayload.
Variable rootPrompt : option string.








End ConcludingRun.

Section ConcludingCompletion.




End ConcludingCompletion.



(* ===================================================================== *)
(** * Further properties of the prompts *)
(* ===================================================================== *)

Section PromptFacts.

Lemma getSubstitution_plain (matched before after replacement : string) :
  JS.includes replacement "$" = false →
  getSubstitution matched before after replacement = replacement.
Proof.
  induction replacement as [|c rest IH]; [done|]. intros Hplain.
  pose proof (includes_false_here _ _ Hplain) as Hhere.
  cbn [JS.startsWith] in Hhere.
  cbn [getSubstitution]. destruct (Ascii.eqb "$" c) eqn:Hc.
  - apply Ascii.eqb_eq in Hc as <-. done.
  - rewrite Ascii.eqb_sym, Hc. f_equal. apply IH. by eapply includes_false_tail.
Qed.

Lemma replaceFirst_rootPrompt (r : string) :
  replaceFirst USER_PROMPT_WITH_ROOT "{rootPrompt}" r
  = "Think step-by-step on what to do using the REPL environment (which contains the context) to answer the original prompt: "
    +:+ JS.dq
    +:+ getSubstitution "{rootPrompt}"
          ("Think step-by-step on what to do using the REPL environment (which contains the context) to answer the original prompt: "
           +:+ JS.dq)
          (JS.dq +:+ USER_PROMPT_TAIL) r
    +:+ JS.dq +:+ USER_PROMPT_TAIL.
Proof.
  unfold replaceFirst.
  assert (splitAtFirst "{rootPrompt}" USER_PROMPT_WITH_ROOT
          = Some ("Think step-by-step on what to do using the REPL environment (which contains the context) to answer the original prompt: "
                  +:+ JS.dq,
                  JS.dq +:+ USER_PROMPT_TAIL)) as -> by by vm_compute.
  by rewrite !app_assoc_str.
Qed.

End PromptFacts.

(** X17.  The user prompt of an iteration carries a root prompt that is
    not empty and holds no dollar sign as it is, between double quotes after
    [to answer the original prompt: ]; what precedes and what follows it in
    the message depends on the iteration number and the counts only.  An
    empty root prompt gives the message no root prompt gives. *)
Theorem buildUserPrompt_quotes_the_root_prompt
        (iteration contextCount historyCount : nat) :
  ∃ lead notes : string,
    (∀ rootPrompt,
       rootPrompt ≠ "" →
       JS.includes rootPrompt "$" = false →
       buildUserPrompt (Some rootPrompt) iteration contextCount historyCount
       = mkMessage user
           (lead +:+ "to answer the original prompt: " +:+ JS.dq +:+ rootPrompt
            +:+ JS.dq +:+ USER_PROMPT_TAIL +:+ notes))
    ∧ buildUserPrompt (Some "") iteration contextCount historyCount
      = buildUserPrompt None iteration contextCount historyCount
    ∧ buildUserPrompt None iteration contextCount historyCount
      = mkMessage user (lead +:+ "to answer the prompt" +:+ USER_PROMPT_TAIL +:+ notes).
Proof.
  exists ((if iteration =? 0
           then "You have not interacted with the REPL environment or seen your prompt / context yet. Your next action should be to look through and figure out how to answer the prompt, so don't just provide a final answer yet."
                +:+ JS.nl +:+ JS.nl
           else "The history before is your previous interactions with the REPL environment. ")
          +:+ "Think step-by-step on what to do using the REPL environment (which contains the context) ").
  exists ((if 1 <? contextCount
           then JS.nl +:+ JS.nl +:+ "Note: You have " +:+ JS.numberToString contextCount
                +:+ " contexts available (context_0 through context_"
                +:+ JS.numberToString (contextCount - 1) +:+ ")."
           else "")
          +:+ (if 0 <? historyCount
               then if historyCount =? 1
                    then JS.nl +:+ JS.nl +:+
                         "Note: You have 1 prior conversation history available in the `history` variable."
                    else JS.nl +:+ JS.nl +:+ "Note: You have "
                         +:+ JS.numberToString historyCount
                         +:+ " prior conversation histories available (history_0 through history_"
                         +:+ JS.numberToString (historyCount - 1) +:+ ")."
               else "")).
  split; [|split; [done|]].
  - intros r Hr Hplain. unfold buildUserPrompt.
    destruct r as [|c r]; [done|]. cbn [JS.truthy].
    rewrite replaceFirst_rootPrompt, getSubstitution_plain by done.
    f_equal.
    destruct (iteration =? 0), (1 <? contextCount), (0 <? historyCount),
      (historyCount =? 1); rewrite ?app_assoc_str, ?app_nil_r_str; reflexivity.
  - unfold buildUserPrompt, USER_PROMPT.
    destruct (iteration =? 0), (1 <? contextCount), (0 <? historyCount),
      (historyCount =? 1); rewrite ?app_assoc_str, ?app_nil_r_str; reflexivity.
Qed.

(** A dollar sign in the root prompt is read as a replacement pattern. *)
Example buildUserPrompt_expands_dollar_patterns :
  buildUserPrompt (Some "Price in $$?") 1 1 0
  = buildUserPrompt (Some "Price in $?") 1 1 0.
Proof. by vm_compute. Qed.

(* ===================================================================== *)
(** * Further properties of the dictionary forms *)
(* ===================================================================== *)

Section DictFacts.


End DictFacts.


(* ===================================================================== *)
(** * Further properties of the FINAL_VAR branch *)
(* ===================================================================== *)

Section FinalVarFacts.

(** The lazy capture of the FINAL_VAR pattern runs to the first closing
    parenthesis. *)
Lemma lazy_capture_to_first_paren (argument after : string)
      (prev : option ascii) (cap : string) :
  allChars argumentChar argument = true →
  Regex.repLoop true false Regex.notLineTerminator (Regex.matchHere [Regex.Lit ")"])
                prev (argument +:+ ")" +:+ after) cap
  = Some (cap +:+ argument, Some ")"%char, after).
Proof.
  revert prev cap. induction argument as [|c argument IH]; intros prev cap Harg.
  - rewrite app_nil_l_str, app_nil_r_str.
    change (")" +:+ after) with (String ")" after).
    cbn [Regex.repLoop Regex.matchHere Regex.eatLit]. rewrite Ascii.eqb_refl.
    by destruct (Regex.notLineTerminator ")").
  - simpl in Harg. apply andb_true_iff in Harg as [Hc Harg].
    unfold argumentChar in Hc. apply andb_true_iff in Hc as [Hline Hparen].
    rewrite app_cons_str. cbn [Regex.repLoop]. rewrite Hline.
    cbn [Regex.matchHere Regex.eatLit].
    rewrite Ascii.eqb_sym. apply negb_true_iff in Hparen. rewrite Hparen.
    rewrite IH by done. by rewrite snoc_app.
Qed.

Lemma finalVarPattern_at_start (indent argument after : string) :
  allChars JS.isWhiteSpace indent = true →
  allChars argumentChar argument = true →
  Regex.exec finalVarPattern None (indent +:+ "FINAL_VAR(" +:+ argument +:+ ")" +:+ after)
  = Some (argument, Some ")"%char, after).
Proof.
  intros Hindent Harg. apply exec_here.
  unfold finalVarPattern. rewrite matchHere_Bol_Rep. cbn [Regex.atLineStart].
  apply repLoop_greedy_run; [done| |by intros c rest' [= <- _]].
  cbn [Regex.matchHere]. rewrite eatLit_app.
  rewrite lazy_capture_to_first_paren by done. by rewrite app_nil_l_str.
Qed.

Lemma dropTrailingQuote_snoc (s : string) (q : ascii) :
  isQuote q = true → dropTrailingQuote (s +:+ String q "") = s.
Proof.
  intros Hq. induction s as [|c s IH].
  - rewrite app_nil_l_str. cbn. by rewrite Hq.
  - rewrite app_cons_str. cbn [dropTrailingQuote].
    destruct (s +:+ String q "") eqn:Hs; [by destruct s|]. by rewrite IH.
Qed.

Lemma dropTrailingQuote_unquoted (s : string) (prev : option ascii) :
  match lastCodeUnit prev s with
  | Some c => isQuote c = false
  | None => True
  end →
  s = "" ∨ dropTrailingQuote s = s.
Proof.
  revert prev. induction s as [|c s IH]; intros prev Hlast; [by left|]. right.
  cbn [lastCodeUnit] in Hlast. cbn [dropTrailingQuote].
  destruct s as [|d s]; [cbn in Hlast; by rewrite Hlast|].
  destruct (IH (Some c) Hlast) as [Hs | ->]; done.
Qed.

End FinalVarFacts.

(** X19.  For a response that begins, after whitespace, with
    [FINAL_VAR(argument)], the argument holding no closing parenthesis and
    no line terminator, [findFinalAnswer] with a sandbox runs exactly one
    program in it, [print(FINAL_VAR("name"))] with [name] the argument
    trimmed and stripped of one quote at each end, whatever follows the
    marker; it answers the trimmed stdout of the run, or the trimmed stderr
    when that stdout is empty, and [null] when the sandbox returns a
    promise. *)
Theorem findFinalAnswer_asks_the_sandbox_for_the_variable
        {SB : Type} (sbx : SandboxImpl SB) (indent argument after : string)
        (w : World SB) (sb : SB) :
  allChars JS.isWhiteSpace indent = true →
  allChars argumentChar argument = true →
  sandbox w = Some sb →
  findFinalAnswer sbx (indent +:+ "FINAL_VAR(" +:+ argument +:+ ")" +:+ after) true w
  = (Ok (answerOf
           (executeCode sbx sb
              ("print(FINAL_VAR(" +:+ JSON_stringify_string (stripQuotes (JS.trim argument))
               +:+ "))")).1),
     withSandbox
       (Some (executeCode sbx sb
                ("print(FINAL_VAR(" +:+ JSON_stringify_string (stripQuotes (JS.trim argument))
                 +:+ "))")).2) w).
Proof.
  intros Hindent Harg Hsb. unfold findFinalAnswer.
  rewrite finalVarPattern_at_start by done.
  unfold finalVarAnswer, sandboxExecute. rewrite bind_run, bind_run.
  unfold theSandbox at 1. rewrite Hsb. fold (finalVarProgram (stripQuotes (JS.trim argument))).
  destruct (executeCode sbx sb _) as [ret sb'] eqn:Hexec.
  rewrite bind_run. cbn [modify mret M_ret fst snd].
  destruct ret as [res|res]; cbn [answerOf]; [|done].
  destruct (String.eqb (JS.trim (stdout res)) "") eqn:Hout; [|done].
  cbn [mret M_ret]. unfold JS.orElse. by destruct (JS.trim (stderr res)).
Qed.

Lemma findFinalAnswer_asks_the_sandbox_for_the_variable_witness :
  findFinalAnswer echoSandbox
    (" " +:+ "FINAL_VAR(" +:+ " 'total' " +:+ ")" +:+ " and FINAL(no)") true
    (withSandbox (Some []) initialWorld)
  = (Ok (answerOf
           (executeCode echoSandbox []
              ("print(FINAL_VAR(" +:+ JSON_stringify_string (stripQuotes (JS.trim " 'total' "))
               +:+ "))")).1),
     withSandbox
       (Some (executeCode echoSandbox []
                ("print(FINAL_VAR(" +:+ JSON_stringify_string (stripQuotes (JS.trim " 'total' "))
                 +:+ "))")).2) (withSandbox (Some []) initialWorld)).
Proof.
  apply (findFinalAnswer_asks_the_sandbox_for_the_variable echoSandbox " " " 'total' "
           " and FINAL(no)" (withSandbox (Some []) initialWorld) []); reflexivity.
Defined.

(** X20.  The quote stripping of the FINAL_VAR argument removes one quote,
    single or double, from each end, each on its own: a name between two
    quotes of any kind comes out bare, whatever it holds, and a name with no
    quote at either end comes out as it is. *)
Theorem stripQuotes_removes_one_quote_at_each_end (name : string) :
  (∀ q1 q2, isQuote q1 = true → isQuote q2 = true →
            stripQuotes (String q1 (name +:+ String q2 "")) = name)
  ∧ (∀ q, isQuote q = true → unquoted name →
          stripQuotes name = name
          ∧ (name ≠ "" → stripQuotes (String q name) = name)
          ∧ stripQuotes (name +:+ String q "") = name).
Proof.
  split.
  - intros q1 q2 H1 H2. cbn [stripQuotes]. rewrite H1.
    by apply dropTrailingQuote_snoc.
  - intros q Hq [Hfirst Hlast].
    assert (Hdrop : name = "" ∨ dropTrailingQuote name = name)
      by by apply (dropTrailingQuote_unquoted name None).
    split; [|split].
    + destruct name as [|c name]; [done|]. cbn [stripQuotes]. rewrite Hfirst.
      by destruct Hdrop.
    + intros Hne. cbn [stripQuotes]. rewrite Hq. by destruct Hdrop.
    + destruct name as [|c name].
      * rewrite app_nil_l_str. cbn. by rewrite Hq.
      * rewrite app_cons_str. cbn [stripQuotes]. rewrite Hfirst.
        rewrite <- app_cons_str. by apply dropTrailingQuote_snoc.
Qed.

(** X21.  [close] cleans up the persistent sandbox the driver holds and
    lets go of it; on a driver that holds none it does nothing, so a second
    [close] changes nothing. *)
Theorem close_cleans_up_once
        {SB : Type} (sbx : SandboxImpl SB) (w w' : World SB) :
  RLM.close sbx w = (Ok (), w') →
  persistentSandbox w' = false
  ∧ RLM.close sbx w' = (Ok (), w')
  ∧ (if persistentSandbox w
     then ∃ sb, sandbox w = Some sb ∧ sandbox w' = Some (cleanup sbx sb)
     else w' = w).
Proof.
  unfold RLM.close. destruct (persistentSandbox w) eqn:Hheld.
  - rewrite bind_run. unfold theSandbox. destruct (sandbox w) as [sb|]; [|done].
    rewrite bind_run. cbn. intros [= <-]. cbn. split; [done|]. split; [done|].
    by exists sb.
  - intros [= <-]. by rewrite Hheld.
Qed.

Lemma close_cleans_up_once_witness :
  persistentSandbox
    (withPersistentSandbox false
       (withSandbox (Some (cleanup echoSandbox ["x = 1"]))
          (withPersistentSandbox true (withSandbox (Some ["x = 1"]) initialWorld))))
  = false
  ∧ RLM.close echoSandbox
      (withPersistentSandbox false
         (withSandbox (Some (cleanup echoSandbox ["x = 1"]))
            (withPersistentSandbox true (withSandbox (Some ["x = 1"]) initialWorld))))
    = (Ok (),
       withPersistentSandbox false
         (withSandbox (Some (cleanup echoSandbox ["x = 1"]))
            (withPersistentSandbox true (withSandbox (Some ["x = 1"]) initialWorld))))
  ∧ (if persistentSandbox
          (withPersistentSandbox true (withSandbox (Some ["x = 1"]) initialWorld))
     then ∃ sb,
         sandbox (withPersistentSandbox true (withSandbox (Some ["x = 1"]) initialWorld))
         = Some sb
         ∧ sandbox
             (withPersistentSandbox false
                (withSandbox (Some (cleanup echoSandbox ["x = 1"]))
                   (withPersistentSandbox true
                      (withSandbox (Some ["x = 1"]) initialWorld))))
           = Some (cleanup echoSandbox sb)
     else withPersistentSandbox false
            (withSandbox (Some (cleanup echoSandbox ["x = 1"]))
               (withPersistentSandbox true (withSandbox (Some ["x = 1"]) initialWorld)))
          = withPersistentSandbox true (withSandbox (Some ["x = 1"]) initialWorld)).
Proof.
  apply (close_cleans_up_once echoSandbox
           (withPersistentSandbox true (withSandbox (Some ["x = 1"]) initialWorld))).
  reflexivity.
Defined.

(* ===================================================================== *)
(** * Further properties of the local sandbox's decoding *)
(* ===================================================================== *)

Section JsonStringFacts.





End JsonStringFacts.

Section RecordFacts.

Lemma value_skips_space (fuel : nat) (s : string) :
  JSONText.value (S fuel) (String " " s) = JSONText.value (S fuel) s.
Proof. reflexivity. Qed.

Lemma value_reads_string (fuel : nat) (s : string) :
  JSONText.value (S fuel) (String JS.DQ s)
  = decodeBind (JSONText.stringBody s) (λ r, Decoded (JStr r.1, r.2)).
Proof. reflexivity. Qed.


Lemma members_reads_name (fuel : nat) (s : string) (acc : list (string * JSON)) :
  JSONText.members (S fuel) (String JS.DQ s) acc
  = decodeBind (JSONText.stringBody s) (λ k,
      if JSONText.allDigits k.1 && JS.truthy k.1 then OutsideModel
      else
        match JSONText.skipSpace k.2 with
        | String c rest' =>
            if Ascii.eqb c ":"%char
            then decodeBind (JSONText.value fuel rest') (λ r,
                   afterMember fuel k.1 r.1 acc r.2)
            else Fails
        | EmptyString => Fails
        end).
Proof. reflexivity. Qed.

Lemma members_skips_space (fuel : nat) (s : string) (acc : list (string * JSON)) :
  JSONText.members (S fuel) (String " " s) acc = JSONText.members (S fuel) s acc.
Proof. reflexivity. Qed.

(** A member whose name is plain and whose value is read by [value] *)
Lemma members_field (fuel : nat) (key vtext : string) (v : JSON) (rest : string)
      (acc : list (string * JSON)) :
  plainKey key →
  JSONText.value fuel (" " +:+ vtext +:+ rest) = Decoded (v, rest) →
  JSONText.members (S fuel) (JS.dq +:+ key +:+ JS.dq +:+ ": " +:+ vtext +:+ rest) acc
  = afterMember fuel key v acc rest.
Proof.
  intros [Hname Hindex] Hvalue.
  change (JS.dq +:+ key +:+ JS.dq +:+ ": " +:+ vtext +:+ rest)
    with (String JS.DQ (key +:+ JS.dq +:+ ": " +:+ vtext +:+ rest)).
  rewrite members_reads_name, Hname.
  cbn [decodeBind fst snd]. rewrite Hindex.
  change (JSONText.skipSpace (": " +:+ vtext +:+ rest))
    with (String ":" (" " +:+ vtext +:+ rest)).
  cbv iota beta. rewrite Ascii.eqb_refl, Hvalue. reflexivity.
Qed.

Lemma afterMember_comma (fuel : nat) (key : string) (v : JSON)
      (acc : list (string * JSON)) (s : string) :
  afterMember (S fuel) key v acc (", " +:+ s)
  = JSONText.members (S fuel) s (JSONText.setField key v acc).
Proof. reflexivity. Qed.

Lemma afterMember_close (fuel : nat) (key : string) (v : JSON)
      (acc : list (string * JSON)) :
  afterMember fuel key v acc "}" = Decoded (JObj (JSONText.setField key v acc), "").
Proof. reflexivity. Qed.

Lemma value_opens_object (fuel : nat) (s : string) :
  JSONText.value (S fuel) ("{" +:+ JS.dq +:+ s) = JSONText.members fuel (JS.dq +:+ s) [].
Proof. reflexivity. Qed.






End RecordFacts.

Section LastLineFacts.









End LastLineFacts.



(* ===================================================================== *)
(** * Further properties of the hook endpoint *)
(* ===================================================================== *)

(** X23.  [handleRequest] parses the body before it looks at the endpoint:
    a body that is no JSON text is answered with a request-failed error at
    any endpoint; a body that is JSON text is answered, at an endpoint other
    than the two known ones, with [Unknown endpoint: ] and the url.  Neither
    invokes the adapter or books a call.  The known endpoints are not under
    the [catch] block: for the body [null] the request throws instead of
    resolving to an error reply. *)
Theorem handleRequest_reports_bad_requests
        {SB : Type} (lm : LM) (url body : string) (w : World SB) :
  (JSONText.parse body = Fails →
   handleRequest lm url body w = Some (Ok RequestFailed, w))
  ∧ (∀ data, JSONText.parse body = Decoded data →
             url ≠ "/llm_query" → url ≠ "/llm_query_batched" →
             handleRequest lm url body w
             = Some (Ok (UnknownEndpoint ("Unknown endpoint: " +:+ url)), w))
  ∧ (JSONText.parse body = Decoded JNull →
     url = "/llm_query" ∨ url = "/llm_query_batched" →
     ∃ e, handleRequest lm url body w = Some (Throw e, w)).
Proof.
  unfold handleRequest. split; [by intros ->|]. split.
  - intros data -> Hsingle Hbatched.
    destruct (String.eqb_spec url "/llm_query"); [done|].
    by destruct (String.eqb_spec url "/llm_query_batched").
  - intros -> [-> | ->]; by eexists.
Qed.

(** An empty body, a broken body, and [null] at both endpoints *)
Example handleRequest_scenario :
  handleRequest (SB:=list string) ponderingLM "/llm_query" "" initialWorld
  = Some (Ok RequestFailed, initialWorld)
  ∧ handleRequest (SB:=list string) ponderingLM "/nowhere" "{" initialWorld
    = Some (Ok RequestFailed, initialWorld)
  ∧ handleRequest (SB:=list string) ponderingLM "/nowhere" "{}" initialWorld
    = Some (Ok (UnknownEndpoint "Unknown endpoint: /nowhere"), initialWorld)
  ∧ JSONText.parse "null" = Decoded JNull.
Proof. by vm_compute. Qed.

Section QueryBodyFacts.

Lemma substring_all (s : string) : String.substring 0 (String.length s) s = s.
Proof. induction s as [|c s IH]; [done|]. cbn. by rewrite IH. Qed.

Lemma value_reads_null (fuel : nat) (rest : string) :
  JSONText.value (S fuel) (String "n" (String "u" (String "l" (String "l" rest))))
  = Decoded (JNull,
             String.substring 4
               (String.length (String "n" (String "u" (String "l" (String "l" rest)))) - 4)
               (String "n" (String "u" (String "l" (String "l" rest))))).
Proof. reflexivity. Qed.

Lemma value_null (fuel : nat) (rest : string) :
  JSONText.value (S fuel) (" " +:+ "null" +:+ rest) = Decoded (JNull, rest).
Proof.
  change (" " +:+ "null" +:+ rest)
    with (String " " (String "n" (String "u" (String "l" (String "l" rest))))).
  rewrite value_skips_space, value_reads_null.
  cbn [String.length Nat.sub String.substring]. by rewrite Nat.sub_0_r, substring_all.
Qed.

Lemma stringBody_dumpsChar (c : ascii) (rest : string) :
  JSONText.stringBody (dumpsChar c +:+ rest)
  = decodeBind (JSONText.stringBody rest) (λ r, Decoded (String c r.1, r.2)).
Proof.
  destruct c as [b0 b1 b2 b3 b4 b5 b6 b7].
  destruct b0, b1, b2, b3, b4, b5, b6, b7; reflexivity.
Qed.

Lemma stringBody_dumpsBody (s rest : string) :
  JSONText.stringBody (dumpsBody s +:+ JS.dq +:+ rest) = Decoded (s, rest).
Proof.
  induction s as [|c s IH]; [done|].
  cbn [dumpsBody]. rewrite app_assoc_str, stringBody_dumpsChar, IH. done.
Qed.

Lemma value_dumps_string (fuel : nat) (s rest : string) :
  JSONText.value (S fuel) (" " +:+ json_dumps_string s +:+ rest)
  = Decoded (JStr s, rest).
Proof.
  unfold json_dumps_string. rewrite !app_assoc_str.
  change (" " +:+ JS.dq +:+ dumpsBody s +:+ JS.dq +:+ rest)
    with (String " " (String JS.DQ (dumpsBody s +:+ JS.dq +:+ rest))).
  by rewrite value_skips_space, value_reads_string, stringBody_dumpsBody.
Qed.

Lemma plainKey_prompt : plainKey "prompt".
Proof. split; [intros rest|]; reflexivity. Qed.
Lemma plainKey_model : plainKey "model".
Proof. split; [intros rest|]; reflexivity. Qed.
Lemma plainKey_depth : plainKey "depth".
Proof. split; [intros rest|]; reflexivity. Qed.

Lemma value_queryBody (fuel : nat) (prompt : string) :
  JSONText.value (6 + fuel) (queryBody prompt)
  = Decoded (JObj [("prompt", JStr prompt); ("model", JNull); ("depth", JNum "1")], "").
Proof.
  change (6 + fuel) with (S (S (S (S (S (S fuel)))))).
  unfold queryBody. rewrite value_opens_object.
  rewrite (members_field _ "prompt" _ (JStr prompt))
    by (apply plainKey_prompt || apply value_dumps_string).
  rewrite afterMember_comma.
  change (JS.dq +:+ "model" +:+ JS.dq +:+ ": null, " +:+ JS.dq +:+ "depth" +:+ JS.dq +:+ ": 1}")
    with (JS.dq +:+ "model" +:+ JS.dq +:+ ": " +:+ "null" +:+
          ", " +:+ JS.dq +:+ "depth" +:+ JS.dq +:+ ": " +:+ "1" +:+ "}").
  rewrite (members_field _ "model" _ JNull) by (apply plainKey_model || apply value_null).
  rewrite afterMember_comma.
  rewrite (members_field _ "depth" _ (JNum "1")) by (apply plainKey_depth || reflexivity).
  reflexivity.
Qed.

Lemma parse_queryBody (prompt : string) :
  JSONText.parse (queryBody prompt)
  = Decoded (JObj [("prompt", JStr prompt); ("model", JNull); ("depth", JNum "1")]).
Proof.
  unfold JSONText.parse.
  assert (Hlen : 2 ≤ String.length (queryBody prompt)).
  { unfold queryBody. rewrite !length_app_str. simpl. lia. }
  replace (2 * String.length (queryBody prompt) + 2)
    with (6 + (2 * String.length (queryBody prompt) - 4)) by lia.
  by rewrite value_queryBody.
Qed.

Lemma freshRouter_subLM (osPort : nat) (this : RLM.t) :
  LMHandler.getModel (freshRouter osPort this) None 1 = subLM this.
Proof. unfold freshRouter, subLM. by destruct (RLM.subModel this). Qed.

Lemma decodeSingle_query (prompt : string) :
  decodeSingle (JObj [("prompt", JStr prompt); ("model", JNull); ("depth", JNum "1")])
  = Decoded (mkSingleRequest (PromptText prompt) None (Some 1)).
Proof. reflexivity. Qed.

End QueryBodyFacts.

(** X24.  A sub-LM call from the sandbox of a root completion: the body
    [{"prompt": prompt, "model": null, "depth": 1}] posted to [/llm_query]
    on the router the completion has started is served by the sub-model
    when the driver has one and by the root model otherwise, with the
    prompt -- whatever code units it holds -- as one user message; the call
    is booked under the id of the model that served it. *)
Theorem handleRequest_serves_sub_calls_with_the_sub_model
        {SB : Type} (lm : LM) (osPort : nat) (this : RLM.t) (prompt : string)
        (w : World SB) :
  router w = Some (freshRouter osPort this) →
  let called :=
    withLmCalls (λ calls, calls ++ [(subLM this, [mkMessage user prompt])]) w in
  handleRequest lm "/llm_query" (queryBody prompt) w
  = Some
      match lm (length (lmCalls w)) (subLM this) [mkMessage user prompt] with
      | Ok r =>
          (Ok (SingleReply (text r)
                 (singleCallRecord (modelId (subLM this)) (PromptText prompt) r)),
           routerTracking (freshRouter osPort this)
             (UsageTracker.track (modelId (subLM this)) (inputTokensOf r)
                (outputTokensOf r) (LMHandler.tracker (freshRouter osPort this)))
             called)
      | Throw e => (Throw e, called)
      end.
Proof.
  intros Hr. cbn zeta. unfold handleRequest. rewrite parse_queryBody.
  rewrite String.eqb_refl, decodeSingle_query. f_equal.
  rewrite bind_run. unfold handleSingle. rewrite bind_run.
  unfold theRouter at 1. rewrite Hr. unfold hookModel.
  cbn [reqModel reqDepth reqPrompt default LMHandler.normalisePrompt].
  rewrite freshRouter_subLM. rewrite bind_run. unfold generateText at 1.
  destruct (lm _ _ _) as [r|e]; [|done].
  rewrite bind_run. by erewrite track_run by done.
Qed.

Lemma handleRequest_serves_sub_calls_with_the_sub_model_witness :
  handleRequest (SB:=list string) ponderingLM "/llm_query" (queryBody "Summarise.")
    (withRouter (Some (freshRouter 4096 observedDriver)) initialWorld)
  = Some
      match ponderingLM
              (length (lmCalls (withRouter (Some (freshRouter 4096 observedDriver))
                                           (initialWorld (SB:=list string)))))
              (subLM observedDriver) [mkMessage user "Summarise."] with
      | Ok r =>
          (Ok (SingleReply (text r)
                 (singleCallRecord (modelId (subLM observedDriver))
                                   (PromptText "Summarise.") r)),
           routerTracking (freshRouter 4096 observedDriver)
             (UsageTracker.track (modelId (subLM observedDriver)) (inputTokensOf r)
                (outputTokensOf r) (LMHandler.tracker (freshRouter 4096 observedDriver)))
             (withLmCalls
                (λ calls, calls ++ [(subLM observedDriver, [mkMessage user "Summarise."])])
                (withRouter (Some (freshRouter 4096 observedDriver)) initialWorld)))
      | Throw e =>
          (Throw e,
           withLmCalls
             (λ calls, calls ++ [(subLM observedDriver, [mkMessage user "Summarise."])])
             (withRouter (Some (freshRouter 4096 observedDriver)) initialWorld))
      end.
Proof.
  apply (handleRequest_serves_sub_calls_with_the_sub_model (SB:=list string)
           ponderingLM 4096 observedDriver "Summarise."
           (withRouter (Some (freshRouter 4096 observedDriver)) initialWorld)).
  reflexivity.
Defined.

(* ===================================================================== *)
(** * Further properties of the local sandbox's session *)
(* ===================================================================== *)

Section SessionFacts.

Lemma addContext_counts (payload : ContextPayload) (index : option nat)
      (s : LocalSession.t) :
  LocalSession.contextCount (LocalSession.addContext payload index s).2
  = Nat.max (LocalSession.contextCount s)
            (default (LocalSession.contextCount s) index + 1)
  ∧ LocalSession.historyCount (LocalSession.addContext payload index s).2
    = LocalSession.historyCount s.
Proof.
  unfold LocalSession.addContext. cbn [snd LocalSession.contextCount LocalSession.historyCount].
  destruct (default (LocalSession.contextCount s) index =? 0), payload; done.
Qed.

Lemma addHistory_counts (ms : list Message) (index : option nat) (s : LocalSession.t) :
  LocalSession.historyCount (LocalSession.addHistory ms index s).2
  = Nat.max (LocalSession.historyCount s)
            (default (LocalSession.historyCount s) index + 1)
  ∧ LocalSession.contextCount (LocalSession.addHistory ms index s).2
    = LocalSession.contextCount s.
Proof.
  unfold LocalSession.addHistory. cbn [snd LocalSession.contextCount LocalSession.historyCount].
  destruct (default (LocalSession.historyCount s) index =? 0); done.
Qed.

Lemma callSession_run (calls : list SessionCall) (s : LocalSession.t) :
  LocalSession.contextCount (foldl callSession s calls)
  = LocalSession.contextCount s + length (contextsAdded calls)
  ∧ LocalSession.historyCount (foldl callSession s calls)
    = LocalSession.historyCount s + length (historiesAdded calls).
Proof.
  revert s. induction calls as [|c calls IH]; intros s; [cbn; lia|].
  cbn [foldl]. destruct (IH (callSession s c)) as [-> ->].
  unfold contextsAdded, historiesAdded.
  destruct c as [payload|ms|code|a]; cbn [callSession omap list_omap length].
  - destruct (addContext_counts payload None s) as [-> ->]. cbn [default]. lia.
  - destruct (addHistory_counts ms None s) as [-> ->]. cbn [default]. lia.
  - cbn. lia.
  - cbn. lia.
Qed.

Lemma new_counts (dir : string) (options : LocalSession.Options) :
  LocalSession.contextCount (LocalSession.new dir options)
  = initialContexts options
  ∧ LocalSession.historyCount (LocalSession.new dir options) = 0.
Proof.
  unfold LocalSession.new, initialContexts.
  destruct (LocalSession.optSetupCode options) as [[|c code]|],
    (LocalSession.optContextPayload options) as [payload|]; cbn [JS.truthy];
    unfold LocalSession.loadContext, LocalSession.executeCode, LocalSession.emit;
    cbn [LocalSession.contextCount LocalSession.historyCount];
    try destruct (addContext_counts payload (Some 0)
                    (LocalSession.emit
                       [LocalSession.WroteFile
                          (LocalSession.statePath
                             (LocalSession.mk (LocalSession.optLmHandlerAddress options) dir
                                (default 1 (LocalSession.optDepth options)) 0 0 [])) "{}"]
                       (LocalSession.mk (LocalSession.optLmHandlerAddress options) dir
                          (default 1 (LocalSession.optDepth options)) 0 0 [])))
      as [Hc Hh]; try (unfold LocalSession.emit in Hc, Hh; rewrite Hc, Hh); done.
Qed.

End SessionFacts.

(** X25.  A local sandbox numbers its contexts and its histories from 0
    without a gap: after its construction and any run of calls of
    [addContext], [addHistory] (the indices left to the sandbox),
    [executeCode] and [updateHandlerAddress], [getContextCount] is the
    number of contexts added, the payload of the constructor included, and
    [getHistoryCount] the number of histories added; the next context gets
    the count as its index.  With an index given, [addContext] never lowers
    the count, and the count is above the index afterwards. *)
Theorem local_sandbox_counts_what_was_added
        (dir : string) (options : LocalSession.Options) (calls : list SessionCall) :
  let s := foldl callSession (LocalSession.new dir options) calls in
  LocalSession.getContextCount s
  = initialContexts options + length (contextsAdded calls)
  ∧ LocalSession.getHistoryCount s = length (historiesAdded calls)
  ∧ (∀ payload, (LocalSession.addContext payload None s).1 = LocalSession.getContextCount s)
  ∧ (∀ ms, (LocalSession.addHistory ms None s).1 = LocalSession.getHistoryCount s)
  ∧ (∀ payload i,
       LocalSession.getContextCount s
       ≤ LocalSession.getContextCount (LocalSession.addContext payload (Some i) s).2
       ∧ i < LocalSession.getContextCount (LocalSession.addContext payload (Some i) s).2).
Proof.
  cbn zeta. unfold LocalSession.getContextCount, LocalSession.getHistoryCount.
  destruct (callSession_run calls (LocalSession.new dir options)) as [Hc Hh].
  destruct (new_counts dir options) as [Hc0 Hh0]. rewrite Hc0 in Hc. rewrite Hh0 in Hh.
  split; [exact Hc|]. split; [exact Hh|]. split; [done|]. split; [done|].
  intros payload i.
  destruct (addContext_counts payload (Some i)
              (foldl callSession (LocalSession.new dir options) calls)) as [-> _].
  cbn [default]. split; [apply Nat.le_max_l|].
  eapply Nat.lt_le_trans; [|apply Nat.le_max_r]. unfold id. lia.
Qed.

Section AliasFacts.

Lemma aliasRuns_app (var : string) (es1 es2 : list LocalSession.Effect) :
  aliasRuns var (es1 ++ es2) = aliasRuns var es1 + aliasRuns var es2.
Proof.
  induction es1 as [|[path text|url code] es1 IH]; cbn [aliasRuns app]; [done|done|].
  rewrite IH. lia.
Qed.

Lemma addContext_effects (payload : ContextPayload) (s : LocalSession.t) :
  ∃ es, LocalSession.effects (LocalSession.addContext payload None s).2
        = LocalSession.effects s ++ es
        ∧ aliasRuns "context" es = (if LocalSession.contextCount s =? 0 then 1 else 0)
        ∧ aliasRuns "history" es = 0.
Proof.
  unfold LocalSession.addContext. cbn [default snd].
  destruct (Nat.eqb_spec (LocalSession.contextCount s) 0) as [Hzero|_].
  - rewrite ?Hzero. destruct payload;
      unfold LocalSession.executeCode, LocalSession.emit; cbn [LocalSession.effects];
      rewrite <- !app_assoc; eexists; (split; [reflexivity|]); split; reflexivity.
  - destruct payload;
      unfold LocalSession.executeCode, LocalSession.emit; cbn [LocalSession.effects];
      rewrite <- !app_assoc; eexists; (split; [reflexivity|]); split; reflexivity.
Qed.

Lemma addHistory_effects (ms : list Message) (s : LocalSession.t) :
  ∃ es, LocalSession.effects (LocalSession.addHistory ms None s).2
        = LocalSession.effects s ++ es
        ∧ aliasRuns "history" es = (if LocalSession.historyCount s =? 0 then 1 else 0)
        ∧ aliasRuns "context" es = 0.
Proof.
  unfold LocalSession.addHistory. cbn [default snd].
  destruct (Nat.eqb_spec (LocalSession.historyCount s) 0) as [Hzero|_].
  - rewrite ?Hzero.
    unfold LocalSession.executeCode, LocalSession.emit; cbn [LocalSession.effects];
      rewrite <- !app_assoc; eexists; (split; [reflexivity|]); split; reflexivity.
  - unfold LocalSession.executeCode, LocalSession.emit; cbn [LocalSession.effects];
      rewrite <- !app_assoc; eexists; (split; [reflexivity|]); split; reflexivity.
Qed.

End AliasFacts.

Section AliasInvariant.

Lemma alias_step (s : LocalSession.t) (c : SessionCall) :
  protocolCall c →
  aliasRuns "context" (LocalSession.effects s) = Nat.min 1 (LocalSession.contextCount s) →
  aliasRuns "history" (LocalSession.effects s) = Nat.min 1 (LocalSession.historyCount s) →
  aliasRuns "context" (LocalSession.effects (callSession s c))
  = Nat.min 1 (LocalSession.contextCount (callSession s c))
  ∧ aliasRuns "history" (LocalSession.effects (callSession s c))
    = Nat.min 1 (LocalSession.historyCount (callSession s c)).
Proof.
  intros Hc Hctx Hhist. destruct c as [payload|ms|code|a]; [| |done|done];
    cbn [callSession].
  - destruct (addContext_effects payload s) as (es & -> & Hes & Hes').
    destruct (addContext_counts payload None s) as [-> ->]. cbn [default].
    rewrite !aliasRuns_app, Hes, Hes', Hctx, Hhist.
    destruct (Nat.eqb_spec (LocalSession.contextCount s) 0); lia.
  - destruct (addHistory_effects ms s) as (es & -> & Hes & Hes').
    destruct (addHistory_counts ms None s) as [-> ->]. cbn [default].
    rewrite !aliasRuns_app, Hes, Hes', Hctx, Hhist.
    destruct (Nat.eqb_spec (LocalSession.historyCount s) 0); lia.
Qed.

Lemma alias_new (dir : string) (address : option Address)
      (payload : option ContextPayload) (depth : option nat) :
  let s := LocalSession.new dir (LocalSession.mkOptions address payload None depth) in
  aliasRuns "context" (LocalSession.effects s) = Nat.min 1 (LocalSession.contextCount s)
  ∧ aliasRuns "history" (LocalSession.effects s) = Nat.min 1 (LocalSession.historyCount s).
Proof.
  cbn zeta. destruct payload as [[text|items|fields]|]; split; reflexivity.
Qed.

End AliasInvariant.

(** X26.  The plain names [context] and [history] always stand for the
    first context and the first history: over the construction of a local
    sandbox (with no setup code) and any run of [addContext], [addHistory]
    and [updateHandlerAddress] calls, the indices left to the sandbox, the
    code [context = context_0] is run once if there is a context at all and
    never again, and likewise [history = history_0]. *)
Theorem local_sandbox_binds_the_plain_names_once
        (dir : string) (address : option Address) (payload : option ContextPayload)
        (depth : option nat) (calls : list SessionCall) :
  Forall protocolCall calls →
  let s := foldl callSession
             (LocalSession.new dir (LocalSession.mkOptions address payload None depth))
             calls in
  aliasRuns "context" (LocalSession.effects s)
  = Nat.min 1 (LocalSession.getContextCount s)
  ∧ aliasRuns "history" (LocalSession.effects s)
    = Nat.min 1 (LocalSession.getHistoryCount s).
Proof.
  intros Hcalls. cbn zeta.
  pose proof (alias_new dir address payload depth) as Hnew. cbn zeta in Hnew.
  revert Hnew.
  generalize (LocalSession.new dir (LocalSession.mkOptions address payload None depth)).
  induction Hcalls as [|c calls Hc _ IH]; intros s [Hctx Hhist]; [done|].
  cbn [foldl]. apply IH. by apply alias_step.
Qed.

Lemma local_sandbox_binds_the_plain_names_once_witness :
  aliasRuns "context"
    (LocalSession.effects
       (foldl callSession
          (LocalSession.new "/tmp/rlm_sandbox_a1"
             (LocalSession.mkOptions None (Some (CtxText "first")) None None))
          [CallAddContext (CtxText "second"); CallAddHistory []]))
  = Nat.min 1
      (LocalSession.getContextCount
         (foldl callSession
            (LocalSession.new "/tmp/rlm_sandbox_a1"
               (LocalSession.mkOptions None (Some (CtxText "first")) None None))
            [CallAddContext (CtxText "second"); CallAddHistory []]))
  ∧ aliasRuns "history"
      (LocalSession.effects
         (foldl callSession
            (LocalSession.new "/tmp/rlm_sandbox_a1"
               (LocalSession.mkOptions None (Some (CtxText "first")) None None))
            [CallAddContext (CtxText "second"); CallAddHistory []]))
    = Nat.min 1
        (LocalSession.getHistoryCount
           (foldl callSession
              (LocalSession.new "/tmp/rlm_sandbox_a1"
                 (LocalSession.mkOptions None (Some (CtxText "first")) None None))
              [CallAddContext (CtxText "second"); CallAddHistory []])).
Proof.
  apply (local_sandbox_binds_the_plain_names_once "/tmp/rlm_sandbox_a1" None
           (Some (CtxText "first")) None [CallAddContext (CtxText "second"); CallAddHistory []]).
  repeat constructor.
Defined.

Section Steady.
Context {SB : Type}.

Lemma steady_ret {A} (a : A) : steady (SB:=SB) (mret a).
Proof. by intros w r w' [= <- <-]. Qed.

Lemma steady_throw {A} (e : string) : steady (SB:=SB) (A:=A) (throw e).
Proof. by intros w r w' [= <- <-]. Qed.

Lemma steady_bind {A B} (m : M SB A) (f : A → M SB B) :
  steady m → (∀ a, steady (f a)) → steady (m ≫= f).
Proof.
  intros Hm Hf w r w'. rewrite bind_run.
  destruct (m w) as [[a|e] w1] eqn:Hmw.
  - intros Hfa. rewrite (Hf _ _ _ _ Hfa). by eapply Hm.
  - intros [= <- <-]. by eapply Hm.
Qed.

Lemma steady_if {A} (b : bool) (m1 m2 : M SB A) :
  steady m1 → steady m2 → steady (if b then m1 else m2).
Proof. by destruct b. Qed.

Lemma steady_modify (f : World SB → World SB) :
  (∀ w, persistentSandbox (f w) = persistentSandbox w) → steady (modify f).
Proof. intros Hf w r w' [= <- <-]. apply Hf. Qed.

Lemma steady_theRouter : steady (SB:=SB) theRouter.
Proof. intros w r w'. unfold theRouter. by destruct (router w); intros [= <- <-]. Qed.

Lemma steady_theSandbox : steady (SB:=SB) theSandbox.
Proof. intros w r w'. unfold theSandbox. by destruct (sandbox w); intros [= <- <-]. Qed.

Lemma steady_track (name : string) (i o : nat) : steady (SB:=SB) (track name i o).
Proof.
  unfold track. apply steady_bind; [apply steady_theRouter|].
  intros h. by apply steady_modify.
Qed.

Variable lm : LM.

Lemma steady_handlerCompletion (p : Prompt) (modelName : option string) :
  steady (SB:=SB) (handlerCompletion lm p modelName).
Proof.
  unfold handlerCompletion. apply steady_bind; [apply steady_theRouter|]. intros h.
  apply steady_bind; [by intros w r w' [= <- <-]|]. intros result.
  apply steady_bind; [apply steady_track|intros; apply steady_ret].
Qed.

Variable sbx : SandboxImpl SB.

Lemma steady_sandboxExecute (code : string) : steady (sandboxExecute sbx code).
Proof.
  unfold sandboxExecute. apply steady_bind; [apply steady_theSandbox|]. intros sb.
  destruct (executeCode sbx sb code) as [ret sb'].
  apply steady_bind; [by apply steady_modify|intros; apply steady_ret].
Qed.

Lemma steady_executeBlocks (codes : list string) : steady (RLM.executeBlocks sbx codes).
Proof.
  induction codes as [|c codes IH]; simpl; [apply steady_ret|].
  apply steady_bind; [apply steady_sandboxExecute|]. intros ret.
  apply steady_bind; [apply IH|intros; apply steady_ret].
Qed.

Lemma steady_findFinalAnswer (response : string) (b : bool) :
  steady (findFinalAnswer sbx response b).
Proof.
  unfold findFinalAnswer.
  destruct (Regex.exec finalVarPattern None response) as [[[cap ?] ?]|];
    [|apply steady_ret].
  unfold finalVarAnswer. destruct b; [|apply steady_ret].
  apply steady_bind; [apply steady_sandboxExecute|]. intros [res|res]; [|apply steady_ret].
  destruct (String.eqb _ _); apply steady_ret.
Qed.

Variable this : RLM.t.

Lemma steady_loggerLog (it : RLMIteration) : steady (SB:=SB) (RLM.loggerLog this it).
Proof. apply steady_if; [by apply steady_modify|apply steady_ret]. Qed.

Lemma steady_verbosePrint (e : PrintEvent) : steady (SB:=SB) (RLM.verbosePrint this e).
Proof. apply steady_if; [by apply steady_modify|apply steady_ret]. Qed.

Lemma steady_storeHistory (hist : list Message) : steady (RLM.storeHistory sbx this hist).
Proof.
  unfold RLM.storeHistory. apply steady_bind; [apply steady_theSandbox|]. intros sb.
  apply steady_if; [by apply steady_modify|apply steady_ret].
Qed.

Variable payload : ContextPayload.
Variable rootPrompt : option string.

Lemma steady_iterate (n i : nat) (hist : list Message) :
  steady (RLM.iterate lm sbx this payload rootPrompt n i hist).
Proof.
  revert i hist. induction n as [|n IH]; intros i hist; [apply steady_ret|].
  cbn [RLM.iterate].
  apply steady_bind; [apply steady_theSandbox|]. intros sb.
  apply steady_bind.
  { unfold RLM.completionTurn.
    apply steady_bind; [apply steady_handlerCompletion|]. intros response.
    apply steady_bind; [apply steady_executeBlocks|intros; apply steady_ret]. }
  intros turn.
  apply steady_bind; [apply steady_findFinalAnswer|]. intros fa.
  apply steady_bind; [apply steady_loggerLog|]. intros _.
  apply steady_bind; [apply steady_verbosePrint|]. intros _.
  destruct fa as [answer|]; [|apply IH].
  apply steady_bind; [apply steady_theRouter|]. intros h.
  apply steady_bind; [apply steady_verbosePrint|]. intros _.
  apply steady_bind; [apply steady_verbosePrint|]. intros _.
  apply steady_bind; [apply steady_storeHistory|intros; apply steady_ret].
Qed.

Lemma steady_completionBody : steady (RLM.completionBody lm sbx this payload rootPrompt).
Proof.
  unfold RLM.completionBody.
  destruct (buildQueryMetadata payload) as [q|e]; [|apply steady_throw].
  apply steady_bind; [apply steady_iterate|]. intros [c|hist]; [apply steady_ret|].
  apply steady_bind.
  { unfold RLM.defaultAnswer.
    apply steady_bind; [apply steady_handlerCompletion|]. intros response.
    apply steady_bind; [apply steady_loggerLog|intros; apply steady_ret]. }
  intros answer.
  apply steady_bind; [apply steady_theRouter|]. intros h.
  apply steady_bind; [apply steady_verbosePrint|]. intros _.
  apply steady_bind; [apply steady_verbosePrint|]. intros _.
  apply steady_bind; [apply steady_storeHistory|intros; apply steady_ret].
Qed.

Lemma steady_completionFinally : steady (RLM.completionFinally sbx this).
Proof.
  unfold RLM.completionFinally.
  apply steady_bind; [apply steady_theRouter|]. intros h.
  apply steady_bind; [by apply steady_modify|]. intros _.
  apply steady_if; [apply steady_ret|].
  apply steady_bind; [apply steady_theSandbox|]. intros sb. by apply steady_modify.
Qed.

Lemma steady_tryFinally {A} (body : M SB A) (fin : M SB unit) :
  steady body → steady fin → steady (tryFinally body fin).
Proof.
  intros Hb Hf w r w'. unfold tryFinally.
  destruct (body w) as [rb w1] eqn:Hbw.
  destruct (fin w1) as [[[]|e] w2] eqn:Hfw; intros [= <- <-];
    rewrite (Hf _ _ _ Hfw); by eapply Hb.
Qed.

End Steady.

(** X27.  What becomes of the sandbox between the completions of a driver
    (below the maximum depth, with a sandbox to be had).  A persistent
    driver that holds a sandbox runs the completion in it, after giving it
    the address of the new router and adding the payload as a further
    context; any other driver runs the completion in the sandbox the
    factory makes.  However the completion ends, by a return or by a throw,
    a driver that held a sandbox still holds one, and a driver that held
    none holds one exactly when it is persistent and the sandbox made
    supports persistence. *)
Theorem completion_reuses_the_persistent_sandbox
        {SB : Type} (lm : LM) (sbx : SandboxImpl SB) (osPort : nat) (this : RLM.t)
        (payload : ContextPayload) (rootPrompt : option string) (w : World SB) :
  RLM.depth this < RLM.maxDepth this →
  sandboxReady sbx this payload osPort w →
  ∃ (sb : SB) (started : World SB),
    RLM.completion lm sbx osPort this payload rootPrompt w
    = tryFinally (RLM.completionBody lm sbx this payload rootPrompt)
                 (RLM.completionFinally sbx this) started
    ∧ router started = Some (freshRouter osPort this)
    ∧ sandbox started = Some sb
    ∧ (if RLM.persistent this && persistentSandbox w
       then ∃ held, sandbox w = Some held
                    ∧ sb = addContext sbx
                             (updateHandlerAddress sbx held (routerAddress osPort)) payload
       else createSandbox sbx (RLM.sandboxType this) (sandboxOptionsOf this payload osPort)
            = Ok sb)
    ∧ persistentSandbox (RLM.completion lm sbx osPort this payload rootPrompt w).2
      = persistentSandbox w || (RLM.persistent this && supportsPersistence sbx sb).
Proof.
  intros Hdepth Hready.
  assert (Hcompl : ∀ started,
             RLM.acquireSandbox sbx this payload (routerAddress osPort)
               (withRouter (Some (freshRouter osPort this)) w) = (Ok (), started) →
             RLM.completion lm sbx osPort this payload rootPrompt w
             = tryFinally (RLM.completionBody lm sbx this payload rootPrompt)
                          (RLM.completionFinally sbx this) started).
  { intros started Hacq. unfold RLM.completion. rewrite (proj2 (Nat.leb_gt _ _) Hdepth).
    fold (freshRouter osPort this). rewrite bind_run. cbn [modify].
    rewrite freshRouter_address. by rewrite bind_run, Hacq. }
  assert (Hsteady : ∀ started,
             persistentSandbox
               (tryFinally (RLM.completionBody lm sbx this payload rootPrompt)
                           (RLM.completionFinally sbx this) started).2
             = persistentSandbox started).
  { intros started.
    destruct (tryFinally _ _ started) as [r w'] eqn:Hrun.
    eapply steady_tryFinally; [apply steady_completionBody|apply steady_completionFinally|].
    exact Hrun. }
  unfold sandboxReady in Hready.
  destruct (RLM.persistent this && persistentSandbox w) eqn:Hheld.
  - destruct Hready as [held Hheldsb].
    apply andb_true_iff in Hheld as [Hp Hw].
    set (sb := addContext sbx (updateHandlerAddress sbx held (routerAddress osPort)) payload).
    set (started := withSandbox (Some sb) (withRouter (Some (freshRouter osPort this)) w)).
    assert (Hacq : RLM.acquireSandbox sbx this payload (routerAddress osPort)
                     (withRouter (Some (freshRouter osPort this)) w) = (Ok (), started)).
    { unfold RLM.acquireSandbox. cbn [persistentSandbox withRouter]. rewrite Hp, Hw.
      cbn [andb]. rewrite bind_run. unfold theSandbox. cbn [sandbox withRouter].
      by rewrite Hheldsb. }
    exists sb, started. split; [by apply Hcompl|].
    split; [done|]. split; [done|]. split; [by exists held|].
    rewrite (Hcompl _ Hacq), Hsteady. cbn. by rewrite Hw.
  - destruct Hready as [sb Hcreate].
    set (placed := withSandbox (Some sb) (withRouter (Some (freshRouter osPort this)) w)).
    set (started := if RLM.persistent this && supportsPersistence sbx sb
                    then withPersistentSandbox true placed else placed).
    assert (Hacq : RLM.acquireSandbox sbx this payload (routerAddress osPort)
                     (withRouter (Some (freshRouter osPort this)) w) = (Ok (), started)).
    { unfold RLM.acquireSandbox. cbn [persistentSandbox withRouter]. rewrite Hheld.
      unfold sandboxOptionsOf in Hcreate. rewrite Hcreate. rewrite bind_run.
      unfold started, placed.
      by destruct (RLM.persistent this && supportsPersistence sbx sb). }
    exists sb, started. split; [by apply Hcompl|].
    split; [unfold started; by destruct (_ && supportsPersistence sbx sb)|].
    split; [unfold started; by destruct (_ && supportsPersistence sbx sb)|].
    split; [done|].
    rewrite (Hcompl _ Hacq), Hsteady. unfold started.
    destruct (RLM.persistent this && supportsPersistence sbx sb); cbn;
      by rewrite ?orb_true_r, ?orb_false_r.
Qed.

Lemma completion_reuses_the_persistent_sandbox_witness :
  ∃ (sb : list string) (started : World (list string)),
    RLM.completion ponderingLM keepingSandbox 4097 persistentDriver (CtxText "again") None
                   holdingWorld
    = tryFinally (RLM.completionBody ponderingLM keepingSandbox persistentDriver
                                     (CtxText "again") None)
                 (RLM.completionFinally keepingSandbox persistentDriver) started
    ∧ router started = Some (freshRouter 4097 persistentDriver)
    ∧ sandbox started = Some sb
    ∧ (if RLM.persistent persistentDriver && persistentSandbox holdingWorld
       then ∃ held, sandbox holdingWorld = Some held
                    ∧ sb = addContext keepingSandbox
                             (updateHandlerAddress keepingSandbox held (routerAddress 4097))
                             (CtxText "again")
       else createSandbox keepingSandbox (RLM.sandboxType persistentDriver)
              (sandboxOptionsOf persistentDriver (CtxText "again") 4097)
            = Ok sb)
    ∧ persistentSandbox
        (RLM.completion ponderingLM keepingSandbox 4097 persistentDriver (CtxText "again")
                        None holdingWorld).2
      = persistentSandbox holdingWorld
        || (RLM.persistent persistentDriver && supportsPersistence keepingSandbox sb).
Proof.
  apply (completion_reuses_the_persistent_sandbox ponderingLM keepingSandbox 4097
           persistentDriver (CtxText "again") None holdingWorld).
  - simpl. lia.
  - unfold sandboxReady. simpl. by eexists.
Defined.

Section Secrets.
Context {SB : Type}.
Variable RLM_SYSTEM_PROMPT : string.



End Secrets.

